(** * My-Git: object store, tree serializer, pack decoder, checkout renderer

    A shallow embedding of [src/main.py] and the properties of its
    object store ([create_object], [read_object]), tree capture
    ([write_tree]), pack decoding ([next_size_and_type], [next_size],
    the [ref_delta] branch of [clone]) and checkout ([render_tree]), and of
    the commands of [main]: [init], [cat-file], [hash-object], [ls-tree],
    [commit-tree], and the parts of [clone] that read the reference
    advertisement, write the references, build the request and cut the
    reply into lines.

    Conventions of the embedding:
    - Python [bytes] is [list byte]; indexing an element gives its
      integer value ([b2z]), Python integers are [Z].
    - Python [str] is [string], read as the UTF-8 text it holds:
      [.encode()] is [list_byte_of_string], [.decode()] checks
      well-formedness ([decode]).  Comparison of [str] values (by code
      point) is comparison of these byte sequences, which agrees with it
      because UTF-8 preserves code point order.  Names that are not text
      (which [.encode()] would reject) are outside the model.
    - Exceptions are the [Err] results of the [result] monad.
    - The file system is a finite map from resolved paths to nodes, without
      symbolic links; the operations used by the program ([Path.mkdir],
      [write_bytes], [read_bytes], [os.path.isfile], [os.listdir]) resolve
      their argument against it.
    - The clock and the network are inputs: [commit_tree] takes the time,
      and the functions of [clone] take the bytes that were received.
    - [hashlib.sha1] is defined from FIPS 180-4; [zlib] is an interface
      ([Zlib]) whose round-trip laws ([ZlibLaws]) are assumed where a
      property needs them, and which has an instance that runs ([Stored]). *)

From Stdlib Require Import ZArith NArith List Strings.String Strings.Ascii Strings.Byte Lia Bool.
From Stdlib Require Import DecimalString Sorting.Sorted.
From stdpp Require Import base option gmap strings list.

Import ListNotations.
Local Open Scope Z_scope.

(** ** Bytes and integers *)

Abbreviation bytes := (list byte).

Definition b2z (b : byte) : Z := Z.of_N (Byte.to_N b).

Definition z2b (z : Z) : byte :=
  match Byte.of_N (Z.to_N (z mod 256)) with
  | Some b => b
  | None => x00
  end.

(** [encode] is [str.encode()], the text's UTF-8 bytes. *)
Definition encode (s : string) : bytes := list_byte_of_string s.

#[global] Instance byte_eq_dec : EqDecision byte := Byte.byte_eq_dec.

(** ** Exceptions *)

Inductive error :=
  | FileNotFoundError      (* ENOENT *)
  | NotADirectoryError     (* ENOTDIR *)
  | IsADirectoryError      (* EISDIR *)
  | FileExistsError        (* EEXIST *)
  | ValueError             (* tuple unpacking of a list of the wrong length *)
  | IndexError             (* index out of range *)
  | UnicodeDecodeError
  | ZlibError
  | OverflowError
  | RecursionError
  | StructError            (* struct.error *)
  | RuntimeError (msg : string)
  | OutOfFuel.             (* not an exception: the bound of a bounded loop of the model *)

Inductive result (A : Type) :=
  | Ok (a : A)
  | Err (e : error).
Arguments Ok {A} a.
Arguments Err {A} e.

#[global] Instance result_ret : MRet result := fun A a => Ok a.
#[global] Instance result_bind : MBind result := fun A B f m =>
  match m with
  | Ok a => f a
  | Err e => Err e
  end.

#[global] Instance result_fmap : FMap result := fun A B f m =>
  match m with
  | Ok a => Ok (f a)
  | Err e => Err e
  end.

Definition is_ok {A} (r : result A) : bool :=
  match r with
  | Ok _ => true
  | Err _ => false
  end.

Definition of_option {A} (e : error) (o : option A) : result A :=
  match o with
  | Some a => Ok a
  | None => Err e
  end.

(** [bs[i]] on a Python [bytes] value, [0 <= i]. *)
Definition index (bs : bytes) (i : nat) : result Z :=
  of_option IndexError (b2z <$> bs !! i).

(** [bs[lo:hi]] for [0 <= lo], [0 <= hi]: slicing clamps to the length and
    never raises. *)
Definition slice {A} (l : list A) (lo hi : nat) : list A :=
  take (hi - lo) (drop lo l).

(** ** SHA-1 (hashlib.sha1), after FIPS 180-4 *)

Module SHA1.

Definition w32 (x : Z) : Z := x mod 2 ^ 32.

Definition rotl (n x : Z) : Z :=
  w32 (Z.lor (Z.shiftl x n) (Z.shiftr x (32 - n))).

Definition be_bytes (n : nat) (x : Z) : list Z :=
  map (fun i => Z.shiftr x (8 * Z.of_nat i) mod 256) (rev (seq 0 n)).

Definition pad (msg : list Z) : list Z :=
  let len := Z.of_nat (length msg) in
  msg ++ [128] ++ repeat 0 (Z.to_nat ((55 - len) mod 64)) ++ be_bytes 8 (8 * len).

Fixpoint words (n : nat) (l : list Z) : list Z :=
  match n, l with
  | S n, a :: b :: c :: d :: l =>
      (Z.shiftl a 24 + Z.shiftl b 16 + Z.shiftl c 8 + d) :: words n l
  | _, _ => []
  end.

(** The message schedule, most recent word first. *)
Fixpoint schedule (n : nat) (rw : list Z) : list Z :=
  match n with
  | O => rw
  | S n =>
      let w i := nth i rw 0 in
      schedule n (rotl 1 (Z.lxor (Z.lxor (Z.lxor (w 2%nat) (w 7%nat)) (w 13%nat)) (w 15%nat)) :: rw)
  end.

Definition f (t : nat) (b c d : Z) : Z :=
  if (t <? 20)%nat then Z.lor (Z.land b c) (Z.land (Z.lxor b (2 ^ 32 - 1)) d)
  else if (t <? 40)%nat then Z.lxor (Z.lxor b c) d
  else if (t <? 60)%nat then Z.lor (Z.lor (Z.land b c) (Z.land b d)) (Z.land c d)
  else Z.lxor (Z.lxor b c) d.

Definition k (t : nat) : Z :=
  if (t <? 20)%nat then 0x5A827999
  else if (t <? 40)%nat then 0x6ED9EBA1
  else if (t <? 60)%nat then 0x8F1BBCDC
  else 0xCA62C1D6.

Record state := State { ha : Z; hb : Z; hc : Z; hd : Z; he : Z }.

Definition round (s : state) (tw : nat * Z) : state :=
  let '(t, w) := tw in
  let tmp := w32 (rotl 5 (ha s) + f t (hb s) (hc s) (hd s) + he s + k t + w) in
  State tmp (ha s) (rotl 30 (hb s)) (hc s) (hd s).

Definition block (h : state) (blk : list Z) : state :=
  let w := rev (schedule 64 (rev (words 16 blk))) in
  let s := fold_left round (combine (seq 0 80) w) h in
  State (w32 (ha h + ha s)) (w32 (hb h + hb s)) (w32 (hc h + hc s))
        (w32 (hd h + hd s)) (w32 (he h + he s)).

Fixpoint blocks (n : nat) (h : state) (l : list Z) : state :=
  match n with
  | O => h
  | S n => blocks n (block h (take 64 l)) (drop 64 l)
  end.

Definition init : state :=
  State 0x67452301 0xEFCDAB89 0x98BADCFE 0x10325476 0xC3D2E1F0.

Definition digest (msg : bytes) : bytes :=
  let p := pad (map b2z msg) in
  let s := blocks (length p / 64) init p in
  map z2b (flat_map (be_bytes 4) [ha s; hb s; hc s; hd s; he s]).

End SHA1.

(** ** Hexadecimal and decimal text *)

Definition hex_digit (n : Z) : ascii :=
  ascii_of_N (Z.to_N (if n <? 10 then 48 + n else 87 + n)).

(** [bytes.hex()] *)
Fixpoint hex (bs : bytes) : string :=
  match bs with
  | [] => EmptyString
  | b :: bs => String (hex_digit (b2z b / 16)) (String (hex_digit (b2z b mod 16)) (hex bs))
  end.

(** [hashlib.sha1(content).hexdigest()] *)
Definition sha1_hexdigest (content : bytes) : string := hex (SHA1.digest content).

(** [str(n)] for a length [n]. *)
Definition decimal (n : nat) : string := NilZero.string_of_uint (Nat.to_uint n).

Definition bs (s : string) : bytes := encode s.

Definition NUL : string := String (ascii_of_nat 0) EmptyString.

(** ** Text: [bytes.decode()] (UTF-8, strict) *)

Definition in_range (lo hi : Z) (b : byte) : bool :=
  (lo <=? b2z b) && (b2z b <=? hi).

(** Well-formed UTF-8 byte sequences (Unicode, table 3-7). *)
Fixpoint utf8_valid (l : bytes) : bool :=
  match l with
  | [] => true
  | b0 :: l1 =>
      let a := b2z b0 in
      if a <=? 0x7F then utf8_valid l1
      else if (0xC2 <=? a) && (a <=? 0xDF) then
        match l1 with
        | b1 :: l2 => in_range 0x80 0xBF b1 && utf8_valid l2
        | _ => false
        end
      else if (0xE0 <=? a) && (a <=? 0xEF) then
        match l1 with
        | b1 :: b2 :: l3 =>
            in_range (if a =? 0xE0 then 0xA0 else 0x80) (if a =? 0xED then 0x9F else 0xBF) b1
            && in_range 0x80 0xBF b2 && utf8_valid l3
        | _ => false
        end
      else if (0xF0 <=? a) && (a <=? 0xF4) then
        match l1 with
        | b1 :: b2 :: b3 :: l4 =>
            in_range (if a =? 0xF0 then 0x90 else 0x80) (if a =? 0xF4 then 0x8F else 0xBF) b1
            && in_range 0x80 0xBF b2 && in_range 0x80 0xBF b3 && utf8_valid l4
        | _ => false
        end
      else false
  end.

Definition decode (l : bytes) : result string :=
  if utf8_valid l then Ok (string_of_list_byte l) else Err UnicodeDecodeError.

(** ** Splitting *)

(** [l.split(sep, maxsplit=1)] for a one-byte separator: a list of one or
    two pieces. *)
Fixpoint split1 (sep : byte) (l : bytes) : list bytes :=
  match l with
  | [] => [[]]
  | b :: l' =>
      if decide (b = sep) then [[]; l']
      else match split1 sep l' with
           | h :: t => (b :: h) :: t
           | [] => [[b]]
           end
  end.

(** [l.split(sep)] for a one-byte separator. *)
Fixpoint split_all (sep : byte) (l : bytes) : list bytes :=
  match l with
  | [] => [[]]
  | b :: l' =>
      if decide (b = sep) then [] :: split_all sep l'
      else match split_all sep l' with
           | h :: t => (b :: h) :: t
           | [] => [[b]]
           end
  end.

(** [a, b = xs] *)
Definition unpack2 {A} (xs : list A) : result (A * A) :=
  match xs with
  | [a; b] => Ok (a, b)
  | _ => Err ValueError
  end.

(** ** zlib *)

Definition Z_BEST_SPEED : Z := 1.
Definition Z_DEFAULT_COMPRESSION : Z := -1.

Class Zlib := {
  (** [zlib.compress(data, level)] *)
  compress : Z -> bytes -> bytes;
  (** [zlib.decompress(data)] *)
  decompress : bytes -> result bytes;
  (** [d = zlib.decompressobj(); (d.decompress(data), d.unused_data)] *)
  decompress_stream : bytes -> result (bytes * bytes);
}.

(** What the program relies on: inflating what was deflated gives it back,
    and a stream is inflated up to its end. *)
Class ZlibLaws `{Zlib} : Prop := {
  decompress_compress lvl x :
    -1 <= lvl <= 9 -> decompress (compress lvl x) = Ok x;
  decompress_stream_compress lvl x rest :
    -1 <= lvl <= 9 -> decompress_stream (compress lvl x ++ rest) = Ok (x, rest);
}.

(** ** Paths *)

(** A [pathlib.Path] is the list of its parts; an absolute path starts with
    the part ["/"] (any run of leading slashes is read as the root).  Parts
    [".."] are kept, as [pathlib] keeps them. *)
Abbreviation path := (list string).

Definition slash : ascii := "/"%char.

(** The pieces of [s] between slashes. *)
Fixpoint components (s : string) : list string :=
  match s with
  | EmptyString => [EmptyString]
  | String c s' =>
      if Ascii.eqb c slash then EmptyString :: components s'
      else match components s' with
           | h :: t => String c h :: t
           | [] => [String c EmptyString]
           end
  end.

Definition is_part (s : string) : bool :=
  negb (String.eqb s "") && negb (String.eqb s ".").

(** [Path(s)] *)
Definition parse_path (s : string) : path :=
  (if String.prefix "/" s then ["/"%string] else []) ++ filter is_part (components s).

(** [p / s] *)
Definition path_div (p : path) (s : string) : path :=
  if String.prefix "/" s then parse_path s else p ++ parse_path s.

(** [p.parent] *)
Definition path_parent (p : path) : path :=
  match p with
  | [] => []
  | [a] => if String.eqb a "/" then p else []
  | _ => removelast p
  end.

(** ** File system *)

Inductive node :=
  | File (data : bytes)
  | Dir.

(** Nodes by resolved location (the names from the root down).  The root
    itself is always a directory. *)
Abbreviation files := (gmap (list string) node).

Definition node_at (fs : files) (k : list string) : option node :=
  match k with
  | [] => Some Dir
  | _ => fs !! k
  end.

Definition step (cur : list string) (part : string) : list string :=
  if String.eqb part ".." then removelast cur
  else if String.eqb part "." then cur
  else cur ++ [part].

(** Path resolution: every location passed through must be a directory;
    the last one is not examined. *)
Fixpoint walk (fs : files) (cur : list string) (parts : path) : result (list string) :=
  match parts with
  | [] => Ok cur
  | p :: ps =>
      match node_at fs cur with
      | Some Dir => walk fs (step cur p) ps
      | Some (File _) => Err NotADirectoryError
      | None => Err FileNotFoundError
      end
  end.

(** [str.__getitem__] slices used on digests *)
Definition str_take (n : nat) (s : string) : string := substring 0 n s.
Definition str_drop (n : nat) (s : string) : string := substring n (String.length s - n) s.

(** ** Ordering of [str] and [sorted] *)

(** Lexicographic order by byte value, strict. *)
Fixpoint bytes_ltb (a b : bytes) : bool :=
  match a, b with
  | _, [] => false
  | [], _ :: _ => true
  | x :: a', y :: b' =>
      if b2z x <? b2z y then true
      else if b2z y <? b2z x then false
      else bytes_ltb a' b'
  end.

Definition bytes_leb (a b : bytes) : bool := negb (bytes_ltb b a).

Definition str_ltb (s t : string) : bool := bytes_ltb (encode s) (encode t).

Section Sorted.
Context {A : Type} (key : A -> string).

(** Insertion in front of the first element whose key is not smaller:
    with [sorted_by], a stable sort that compares keys with [<] only, as
    [sorted(..., key=...)] does. *)
Fixpoint insert_by (x : A) (l : list A) : list A :=
  match l with
  | [] => [x]
  | y :: l' => if str_ltb (key y) (key x) then y :: insert_by x l' else x :: l
  end.

Fixpoint sorted_by (l : list A) : list A :=
  match l with
  | [] => []
  | x :: l' => insert_by x (sorted_by l')
  end.
End Sorted.

(** [int(sha, 16)] on a string of hexadecimal digits. *)
Definition hex_value (c : ascii) : option Z :=
  let n := Z.of_N (N_of_ascii c) in
  if (48 <=? n) && (n <=? 57) then Some (n - 48)
  else if (97 <=? n) && (n <=? 102) then Some (n - 87)
  else if (65 <=? n) && (n <=? 70) then Some (n - 55)
  else None.

Fixpoint int16 (acc : Z) (s : string) : result Z :=
  match s with
  | EmptyString => Ok acc
  | String c s' =>
      match hex_value c with
      | Some d => int16 (16 * acc + d) s'
      | None => Err ValueError
      end
  end.

(** [n.to_bytes(len, byteorder="big")] *)
Definition to_bytes (len : nat) (n : Z) : result bytes :=
  if n <? 2 ^ (8 * Z.of_nat len) then Ok (map z2b (SHA1.be_bytes len n))
  else Err OverflowError.

Definition strip_prefix : list string -> list string -> option (list string) :=
  fix go p l :=
    match p, l with
    | [], _ => Some l
    | x :: p', y :: l' => if decide (x = y) then go p' l' else None
    | _ :: _, [] => None
    end.

(** A tree entry as the capture loop emits it. *)
Record entry := Entry { e_mode : string; e_name : string; e_oid : bytes }.

Definition entry_bytes (e : entry) : bytes :=
  encode (e_mode e ++ " " ++ e_name e ++ NUL)%string ++ e_oid e.

(** The sort key of [write_tree] for a child that is, or is not, a regular
    file. *)
Definition sort_key (isfile : string -> bool) (x : string) : string :=
  if isfile x then x else (x ++ "/")%string.

(** ** The program *)

Section Program.
Context `{Zlib}.
(** The working directory of the process, as a resolved location. *)
Variable cwd : list string.

Definition resolve (fs : files) (p : path) : result (list string) :=
  match p with
  | a :: ps => if String.eqb a "/" then walk fs [] ps else walk fs cwd p
  | [] => Ok cwd
  end.

Definition is_dir (fs : files) (p : path) : bool :=
  match resolve fs p with
  | Ok k => match node_at fs k with Some Dir => true | _ => false end
  | Err _ => false
  end.

(** [os.path.isfile] *)
Definition is_file (fs : files) (p : path) : bool :=
  match resolve fs p with
  | Ok k => match node_at fs k with Some (File _) => true | _ => false end
  | Err _ => false
  end.

(** [os.mkdir] *)
Definition os_mkdir (fs : files) (p : path) : result files :=
  k ← resolve fs p;
  match node_at fs k with
  | Some _ => Err FileExistsError
  | None => Ok (<[k := Dir]> fs)
  end.

(** [Path.mkdir(parents=False, exist_ok=True)] *)
Definition mkdir_exist_ok (fs : files) (p : path) : result files :=
  match os_mkdir fs p with
  | Ok fs' => Ok fs'
  | Err FileNotFoundError => Err FileNotFoundError
  | Err e => if is_dir fs p then Ok fs else Err e
  end.

(** [Path.mkdir(parents=True, exist_ok=True)]: try [os.mkdir]; when the
    parent is missing create it the same way and retry; any other
    [OSError] is swallowed when the path is a directory.  The parent has
    one part less, so [length p] nested calls suffice. *)
Fixpoint mkdir_loop (fuel : nat) (fs : files) (p : path) : result files :=
  match os_mkdir fs p with
  | Ok fs' => Ok fs'
  | Err FileNotFoundError =>
      if decide (path_parent p = p) then Err FileNotFoundError
      else match fuel with
           | O => Err OutOfFuel
           | S n =>
               fs1 ← mkdir_loop n fs (path_parent p);
               mkdir_exist_ok fs1 p
           end
  | Err e => if is_dir fs p then Ok fs else Err e
  end.

Definition mkdir_parents (fs : files) (p : path) : result files :=
  mkdir_loop (length p) fs p.

(** [Path.write_bytes], [open(p, "wb").write] *)
Definition write_bytes (fs : files) (p : path) (data : bytes) : result files :=
  k ← resolve fs p;
  match node_at fs k with
  | Some Dir => Err IsADirectoryError
  | _ => Ok (<[k := File data]> fs)
  end.

(** [Path.read_bytes], [open(p, "rb").read] *)
Definition read_bytes (fs : files) (p : path) : result bytes :=
  k ← resolve fs p;
  match node_at fs k with
  | Some (File data) => Ok data
  | Some Dir => Err IsADirectoryError
  | None => Err FileNotFoundError
  end.

Definition children (fs : files) (k : list string) : list string :=
  omap (fun kv => match strip_prefix k (fst kv) with
                  | Some [x] => Some x
                  | _ => None
                  end) (map_to_list fs).

(** [os.listdir]; the order of the names is the map's. *)
Definition listdir (fs : files) (p : path) : result (list string) :=
  k ← resolve fs p;
  match node_at fs k with
  | Some Dir => Ok (children fs k)
  | Some (File _) => Err NotADirectoryError
  | None => Err FileNotFoundError
  end.

(** *** Object store *)

Definition frame (category : string) (data : bytes) : bytes :=
  encode (category ++ " " ++ decimal (length data) ++ NUL)%string ++ data.

(** [parent / ".git" / "objects" / sha[:2] / sha[2:]] *)
Definition object_path (parent : path) (sha : string) : path :=
  path_div (path_div (path_div (path_div parent ".git") "objects") (str_take 2 sha))
           (str_drop 2 sha).

Definition create_object (category : string) (data : bytes) (parent : path)
    (fs : files) : result (string * files) :=
  let content := frame category data in
  let sha := sha1_hexdigest content in
  let p := object_path parent sha in
  fs1 ← mkdir_parents fs (path_parent p);
  fs2 ← write_bytes fs1 p (compress Z_BEST_SPEED content);
  mret (sha, fs2).

Definition read_object (sha : string) (parent : path) (fs : files)
    : result (string * bytes) :=
  let path := object_path parent sha in
  raw ← read_bytes fs path;
  inflated ← decompress raw;
  '(head, content) ← unpack2 (split1 x00 inflated);
  '(tip, _) ← unpack2 (split_all x20 head);
  tip ← decode tip;
  mret (tip, content).

(** [Path(os.getcwd())], the default [parent]. *)
Definition getcwd : path := "/"%string :: cwd.

(** *** Tree capture *)

(** The loop of [write_tree] over the sorted names; [rec] is the
    recursive call. *)
Fixpoint write_entries (rec : path -> files -> result (string * files))
    (path : path) (contents : list string) (tree_entries : list entry)
    (fs : files) : result (list entry * files) :=
  match contents with
  | [] => mret (tree_entries, fs)
  | item :: contents' =>
      if String.eqb item ".git" then write_entries rec path contents' tree_entries fs
      else
        let full_path := path ++ [item] in
        let mode := if is_file fs full_path then "100644"%string else "40000"%string in
        '(sha, fs1) ← rec full_path fs;
        oid ← (n ← int16 0 sha; to_bytes 20 n);
        write_entries rec path contents' (tree_entries ++ [Entry mode item oid]) fs1
  end.

(** [write_tree]; [path] is a path string given by its parts, and
    [os.path.join(path, x)] appends the name [x].  [fuel] bounds the depth
    of the recursion. *)
Fixpoint write_tree (fuel : nat) (path : path) (fs : files) : result (string * files) :=
  match fuel with
  | O => Err RecursionError
  | S n =>
      if is_file fs path then
        data ← read_bytes fs path;
        create_object "blob" data getcwd fs
      else
        names ← listdir fs path;
        let contents :=
          sorted_by (sort_key (fun x => is_file fs (path ++ [x]))) names in
        '(entries, fs1) ← write_entries (write_tree n) path contents [] fs;
        let tree_entries := concat (map entry_bytes entries) in
        let tree_content := frame "tree" tree_entries in
        let sha := sha1_hexdigest tree_content in
        let tree_path :=
          parse_path (".git/objects/" ++ str_take 2 sha ++ "/" ++ str_drop 2 sha) in
        fs2 ← mkdir_parents fs1 (path_parent tree_path);
        fs3 ← write_bytes fs2 tree_path (compress Z_DEFAULT_COMPRESSION tree_content);
        mret (sha, fs3)
  end.

(** *** Pack decoding *)

Definition type_name (ty : Z) : string :=
  match ty with
  | 1 => "commit"
  | 2 => "tree"
  | 3 => "blob"
  | 4 => "tag"
  | 6 => "ofs_delta"
  | 7 => "ref_delta"
  | _ => "unknown"
  end.

(** The [while] loop shared by the two decoders, with [prev = bs[index - 1]]
    and [rest = bs[index:]]. *)
Fixpoint size_loop (prev : byte) (rest : bytes) (size off : Z) : result (Z * bytes) :=
  if Z.land (b2z prev) 0x80 =? 0 then Ok (size, rest)
  else match rest with
       | [] => Err IndexError
       | c :: rest' =>
           size_loop c rest' (size + Z.shiftl (Z.land (b2z c) 0x7f) off) (off + 7)
       end.

Definition next_size_and_type (bs : bytes) : result (string * Z * bytes) :=
  match bs with
  | [] => Err IndexError
  | b0 :: rest =>
      let ty := type_name (Z.shiftr (Z.land (b2z b0) 0x70) 4) in
      '(size, tail) ← size_loop b0 rest (Z.land (b2z b0) 0x0f) 4;
      mret (ty, size, tail)
  end.

Definition next_size (bs : bytes) : result (Z * bytes) :=
  match bs with
  | [] => Err IndexError
  | b0 :: rest => size_loop b0 rest (Z.land (b2z b0) 0x7f) 7
  end.

(** [for i in range(0, n): if content[0] & (1 << (lo + i)): acc |=
    content[data_ptr] << (i * 8); data_ptr += 1] *)
Fixpoint read_fields (content : bytes) (lo : Z) (bits : list Z) (acc : Z)
    (data_ptr : nat) : result (Z * nat) :=
  match bits with
  | [] => Ok (acc, data_ptr)
  | i :: bits' =>
      c0 ← index content 0;
      if Z.land c0 (Z.shiftl 1 (lo + i)) =? 0 then read_fields content lo bits' acc data_ptr
      else
        b ← index content data_ptr;
        read_fields content lo bits' (Z.lor acc (Z.shiftl b (i * 8))) (S data_ptr)
  end.

(** The operands of a copy instruction at the head of [content]:
    [(offset, size, data_ptr)]. *)
Definition copy_operands (content : bytes) : result (Z * Z * nat) :=
  '(offset, data_ptr) ← read_fields content 0 [0; 1; 2; 3] 0 1%nat;
  '(size, data_ptr) ← read_fields content 4 [0; 1; 2] 0 data_ptr;
  mret (offset, size, data_ptr).

(** The [while content:] loop of the delta program.  Every iteration
    shortens [content], so [length content] iterations suffice. *)
Fixpoint delta_loop (fuel : nat) (base_content content target_content : bytes)
    : result bytes :=
  match content with
  | [] => Ok target_content
  | c :: _ =>
      match fuel with
      | O => Err OutOfFuel
      | S n =>
          if Z.land (b2z c) 0x80 =? 0 then
            let size := Z.to_nat (b2z c) in
            let append := slice content 1 (size + 1) in
            delta_loop n base_content (drop (size + 1) content) (target_content ++ append)
          else
            '(offset, size, data_ptr) ← copy_operands content;
            delta_loop n base_content (drop data_ptr content)
              (target_content
               ++ slice base_content (Z.to_nat offset) (Z.to_nat (offset + size)))
      end
  end.

Definition apply_delta (base_content content : bytes) : result bytes :=
  delta_loop (length content) base_content content [].

(** The [ref_delta] case; [pack_file] is what follows the entry header. *)
Definition unpack_ref_delta (pack_file : bytes) (parent : path) (fs : files)
    : result (bytes * files) :=
  let obj := hex (take 20 pack_file) in
  let pack_file := drop 20 pack_file in
  '(content, pack_file) ← decompress_stream pack_file;
  '(base_tip, base_content) ← read_object obj parent fs;
  '(_, content) ← next_size content;
  '(_, content) ← next_size content;
  target_content ← apply_delta base_content content;
  '(_, fs1) ← create_object base_tip target_content parent fs;
  mret (pack_file, fs1).

Definition is_base_type (tip : string) : bool :=
  String.eqb tip "commit" || String.eqb tip "tree" || String.eqb tip "blob"
  || String.eqb tip "tag".

(** One iteration of [for _ in range(nr_objects)]. *)
Definition unpack_entry (pack_file : bytes) (parent : path) (fs : files)
    : result (bytes * files) :=
  '(tip, _, pack_file) ← next_size_and_type pack_file;
  if is_base_type tip then
    '(content, pack_file) ← decompress_stream pack_file;
    '(_, fs1) ← create_object tip content parent fs;
    mret (pack_file, fs1)
  else if String.eqb tip "ref_delta" then unpack_ref_delta pack_file parent fs
  else Err (RuntimeError "Not implemented").

Fixpoint unpack_entries (nr_objects : nat) (pack_file : bytes) (parent : path)
    (fs : files) : result (bytes * files) :=
  match nr_objects with
  | O => mret (pack_file, fs)
  | S n =>
      '(pack_file, fs1) ← unpack_entry pack_file parent fs;
      unpack_entries n pack_file parent fs1
  end.

(** [struct.unpack("!I", bs)] *)
Definition unpack_u32 (bs : bytes) : result Z :=
  match bs with
  | [a; b; c; d] =>
      Ok (Z.shiftl (b2z a) 24 + Z.shiftl (b2z b) 16 + Z.shiftl (b2z c) 8 + b2z d)
  | _ => Err StructError
  end.

(** The "Get objects" part of [clone]. *)
Definition unpack_objects (pack_file : bytes) (parent : path) (fs : files)
    : result (bytes * files) :=
  let pack_file := drop 8 pack_file in
  nr_objects ← unpack_u32 (take 4 pack_file);
  let pack_file := drop 4 pack_file in
  unpack_entries (Z.to_nat nr_objects) pack_file parent fs.

(** *** Checkout *)

(** The [while tree_data:] loop of [render_tree]; [rec] is the recursive
    call.  The second component of the result lists, in order, the paths
    [directory / name] that the run has written a blob to. *)
Fixpoint render_entries (rec : path -> string -> files -> result (files * list path))
    (fuel : nat) (parent directory : path) (tree_data : bytes) (fs : files)
    : result (files * list path) :=
  match tree_data with
  | [] => mret (fs, [])
  | _ :: _ =>
      match fuel with
      | O => Err OutOfFuel
      | S n =>
          '(mode, tree_data) ← unpack2 (split1 x20 tree_data);
          '(name, tree_data) ← unpack2 (split1 x00 tree_data);
          let sha := hex (take 20 tree_data) in
          let tree_data := drop 20 tree_data in
          if decide (mode = bs "40000") then
            name ← decode name;
            '(fs1, w1) ← rec (path_div directory name) sha fs;
            '(fs2, w2) ← render_entries rec n parent directory tree_data fs1;
            mret (fs2, w1 ++ w2)
          else if decide (mode = bs "100644") then
            '(_, content) ← read_object sha parent fs;
            name ← decode name;
            fs1 ← write_bytes fs (path_div directory name) content;
            '(fs2, w2) ← render_entries rec n parent directory tree_data fs1;
            mret (fs2, path_div directory name :: w2)
          else Err (RuntimeError "Not implemented")
      end
  end.

(** [render_tree], with the paths written; [fuel] bounds the depth of the
    recursion. *)
Fixpoint render_tree_log (fuel : nat) (parent directory : path) (sha : string)
    (fs : files) : result (files * list path) :=
  match fuel with
  | O => Err RecursionError
  | S n =>
      fs1 ← mkdir_parents fs directory;
      '(_, tree_data) ← read_object sha parent fs1;
      render_entries (render_tree_log n parent) (length tree_data) parent directory
        tree_data fs1
  end.

Definition render_tree (fuel : nat) (parent directory : path) (sha : string)
    (fs : files) : result files :=
  fst <$> render_tree_log fuel parent directory sha fs.

End Program.

(** ** The commands of [main] *)

Definition NL : string := String (ascii_of_nat 10) EmptyString.

(** [os.path.join(a, b)] *)
Definition str_ends_slash : string -> bool :=
  fix go s :=
    match s with
    | EmptyString => false
    | String c EmptyString => Ascii.eqb c slash
    | String _ s' => go s'
    end.

Definition os_path_join (a b : string) : string :=
  if String.prefix "/" b then b
  else if String.eqb a "" || str_ends_slash a then (a ++ b)%string
  else (a ++ "/" ++ b)%string.

(** The parts by which the system resolves a path string: empty pieces
    vanish, [.] and [..] are kept, and a trailing slash asks for a
    directory as a final [.] does. *)
Definition os_parts (s : string) : path :=
  (if String.prefix "/" s then ["/"%string] else [])
  ++ filter (fun p => negb (String.eqb p "")) (components s)
  ++ (if str_ends_slash s then ["."%string] else []).

(** Whitespace of [bytes.split()] *)
Definition is_space (b : byte) : bool :=
  ((9 <=? b2z b) && (b2z b <=? 13)) || (b2z b =? 32).

(** [l.split()]: the runs of bytes between runs of whitespace; [word] is
    the run being read. *)
Fixpoint split_ws_from (word l : bytes) : list bytes :=
  match l with
  | [] => match word with [] => [] | _ => [word] end
  | b :: l' =>
      if is_space b then
        match word with
        | [] => split_ws_from [] l'
        | _ => word :: split_ws_from [] l'
        end
      else split_ws_from (word ++ [b]) l'
  end.

Definition split_ws (l : bytes) : list bytes := split_ws_from [] l.

(** [str(n)] for an integer *)
Definition str_of_int (z : Z) : string := NilZero.string_of_int (Z.to_int z).

(** The payload that [commit-tree] builds; [now] is
    [int(time.mktime(time.localtime()))]. *)
Definition commit_data (tree_sha commit_sha message : string) (now : Z) : bytes :=
  concat
    [ bs "tree " ++ encode tree_sha ++ [x0a];
      bs "parent " ++ encode commit_sha ++ [x0a];
      bs "timestamp " ++ encode (str_of_int now) ++ [x0a];
      bs "author Forquosh <146859576+Forquosh@users.noreply.github.com>" ++ [x0a];
      bs "committer Forquosh <146859576+Forquosh@users.noreply.github.com>" ++ [x0a; x0a];
      encode message;
      [x0a] ].

(** The loop of [ls-tree] over the entries; [out] is what has been printed. *)
Fixpoint ls_tree_loop (fuel : nat) (name_only : bool) (tree_data : bytes) (out : string)
    : result string :=
  match tree_data with
  | [] => Ok out
  | _ :: _ =>
      match fuel with
      | O => Err OutOfFuel
      | S n =>
          '(mode_and_name, tree_data) ← unpack2 (split1 x00 tree_data);
          '(mode, name) ← unpack2 (split_ws mode_and_name);
          mode_text ← decode mode;
          let entry_type := if String.eqb mode_text "040000" then "tree"%string
                            else "blob"%string in
          let curr_sha := take 20 tree_data in
          let tree_data := drop 20 tree_data in
          line ← (if name_only then decode name
                  else
                    mode_text ← decode mode;
                    name_text ← decode name;
                    mret (mode_text ++ " " ++ entry_type ++ " " ++ hex curr_sha ++ " "
                          ++ name_text)%string);
          ls_tree_loop n name_only tree_data (out ++ line ++ NL)%string
      end
  end.

Section Commands.
Context `{Zlib}.
Variable cwd : list string.

(** [open(s, "rb").read()] on a path string *)
Definition open_rb (fs : files) (s : string) : result bytes :=
  if String.eqb s "" then Err FileNotFoundError else read_bytes cwd fs (os_parts s).

(** [init]: the file system after it and what is printed. *)
Definition init (fs : files) : result (string * files) :=
  fs ← os_mkdir cwd fs (os_parts ".git");
  fs ← os_mkdir cwd fs (os_parts ".git/objects");
  fs ← os_mkdir cwd fs (os_parts ".git/refs");
  fs ← write_bytes cwd fs (os_parts ".git/HEAD") (encode ("ref: refs/heads/main" ++ NL));
  mret (("Initialized git directory" ++ NL)%string, fs).

(** [cat-file -p blob_sha]: what is printed. *)
Definition cat_file (blob_sha : string) (fs : files) : result string :=
  raw ← open_rb fs (".git/objects/" ++ str_take 2 blob_sha ++ "/" ++ str_drop 2 blob_sha);
  raw ← decompress raw;
  '(header, content) ← unpack2 (split1 x00 raw);
  decode content.

(** [hash-object -w file]: what is printed, and the file system after it. *)
Definition hash_object (file : string) (fs : files) : result (string * files) :=
  data ← open_rb fs file;
  create_object cwd "blob" data (getcwd cwd) fs.

(** [ls-tree sha] and [ls-tree --name-only sha]: what is printed. *)
Definition ls_tree (name_only : bool) (sha : string) (fs : files) : result string :=
  raw ← open_rb fs (os_path_join (os_path_join ".git/objects" (str_take 2 sha))
                                 (str_drop 2 sha));
  data ← decompress raw;
  '(_, tree_data) ← unpack2 (split1 x00 data);
  ls_tree_loop (length tree_data) name_only tree_data "".

(** [commit-tree tree_sha -p commit_sha -m message] *)
Definition commit_tree (tree_sha commit_sha message : string) (now : Z) (fs : files)
    : result (string * files) :=
  create_object cwd "commit" (commit_data tree_sha commit_sha message now) (getcwd cwd) fs.

(** The end of [clone]: the tree of the commit [head] is rendered into
    [parent]. *)
Definition checkout (fuel : nat) (head : string) (parent : path) (fs : files)
    : result (files * list path) :=
  '(_, commit) ← read_object cwd head parent fs;
  tree_sha ← decode (slice commit 5 (40 + 5));
  render_tree_log cwd fuel parent parent tree_sha fs.

End Commands.

(** ** [clone]: what the server sends and what is sent to it *)

(** [l.startswith(p)] and [l.endswith(s)] *)
Fixpoint startswith (p l : bytes) : bool :=
  match p, l with
  | [], _ => true
  | a :: p', b :: l' => if decide (a = b) then startswith p' l' else false
  | _ :: _, [] => false
  end.

Definition endswith (s l : bytes) : bool := startswith (rev s) (rev l).

(** A [dict] from [str] to [str]: its items in the order of insertion.
    Assigning to a key that is there replaces the value where it is. *)
Abbreviation dict := (list (string * string)).

Fixpoint dict_set (k v : string) (d : dict) : dict :=
  match d with
  | [] => [(k, v)]
  | (k', v') :: d' => if String.eqb k k' then (k, v) :: d' else (k', v') :: dict_set k v d'
  end.

(** One line [bs0] of the reference advertisement: the item that the
    comprehension adds for it, if any.  The key [bs[1].decode()] is
    evaluated before the value [bs[0].decode()]. *)
Definition ref_item (bs0 : bytes) : result (option (string * string)) :=
  let bs1 := drop 4 bs0 in
  match bs1 with
  | [] => Ok None
  | _ :: _ =>
      if startswith (bs "#") bs1 then Ok None
      else
        match split_all x00 bs1 with
        | [] => Err IndexError
        | [] :: _ => Ok None
        | bs2 :: _ =>
            let parts := split_all x20 (if endswith (bs "HEAD") bs2 then drop 4 bs2 else bs2) in
            match parts with
            | [] => Ok None
            | _ :: _ =>
                name ← (b ← of_option IndexError (parts !! 1%nat); decode b);
                sha ← (b ← of_option IndexError (parts !! 0%nat); decode b);
                mret (Some (name, sha))
            end
        end
  end.

Fixpoint parse_refs (lines : list bytes) (refs : dict) : result dict :=
  match lines with
  | [] => Ok refs
  | bs0 :: lines' =>
      item ← ref_item bs0;
      parse_refs lines' (match item with
                         | Some (name, sha) => dict_set name sha refs
                         | None => refs
                         end)
  end.

(** The dictionary [refs] made from the body of the reply to
    [info/refs?service=git-upload-pack]. *)
Definition fetch_refs (data : bytes) : result dict := parse_refs (split_all x0a data) [].

(** The body of the request to [git-upload-pack], for the values of
    [refs]. *)
Definition want_line (ref : string) : bytes := bs "0032want " ++ encode ref ++ [x0a].

Definition fetch_body (refs : dict) : bytes :=
  bs "0011command=fetch0001000fno-progress"
  ++ concat (map (fun item => want_line (snd item)) refs)
  ++ bs "0009done" ++ [x0a] ++ bs "0000".

(** [int(l, 16)] on [bytes]: blanks around, a sign, the prefix [0x], and
    digits in which single underscores may separate digits. *)
Definition digit16 (b : byte) : option Z := hex_value (ascii_of_byte b).

Fixpoint lstrip (l : bytes) : bytes :=
  match l with
  | b :: l' => if is_space b then lstrip l' else l
  | [] => []
  end.

(** The digits and underscores at the head of [l]: their value and what
    follows them; [prev] tells whether the last byte read was an
    underscore. *)
Fixpoint scan16 (prev : bool) (acc : Z) (l : bytes) : result (Z * bytes) :=
  match l with
  | [] => if prev then Err ValueError else Ok (acc, [])
  | b :: l' =>
      if decide (b = x5f) then (if prev then Err ValueError else scan16 true acc l')
      else match digit16 b with
           | Some d => scan16 false (16 * acc + d) l'
           | None => if prev then Err ValueError else Ok (acc, l)
           end
  end.

Definition int_bytes16 (l : bytes) : result Z :=
  let l := lstrip l in
  let '(sign, l) :=
    match l with
    | b :: l' => if decide (b = x2b) then (1, l') else if decide (b = x2d) then (-1, l')
                 else (1, l)
    | [] => (1, l)
    end in
  let l :=
    match l with
    | b0 :: b1 :: l' =>
        if bool_decide (b0 = x30) && (bool_decide (b1 = x78) || bool_decide (b1 = x58)) then
          match l' with
          | u :: l'' => if decide (u = x5f) then l'' else l'
          | [] => l'
          end
        else l
    | _ => l
    end in
  match l with
  | b :: _ => if decide (b = x5f) then Err ValueError
              else
                '(v, rest) ← scan16 false 0 l;
                if (length rest =? length l)%nat then Err ValueError
                else match lstrip rest with
                     | [] => Ok (sign * v)
                     | _ :: _ => Err ValueError
                     end
  | [] => Err ValueError
  end.

(** [l[lo:hi]] and [l[lo:]] for integers of either sign. *)
Definition clamp (len i : Z) : nat :=
  Z.to_nat (if i <? 0 then Z.max (i + len) 0 else Z.min i len).

Definition py_slice (l : bytes) (lo hi : Z) : bytes :=
  slice l (clamp (Z.of_nat (length l)) lo) (clamp (Z.of_nat (length l)) hi).

Definition py_from (l : bytes) (lo : Z) : bytes := drop (clamp (Z.of_nat (length l)) lo) l.

(** The loop that cuts the reply to [git-upload-pack] into lines. *)
Fixpoint pkt_loop (fuel : nat) (pack_bytes : bytes) (pack_lines : list bytes)
    : result (list bytes) :=
  match pack_bytes with
  | [] => Ok pack_lines
  | _ :: _ =>
      match fuel with
      | O => Err OutOfFuel
      | S n =>
          line_length ← int_bytes16 (take 4 pack_bytes);
          if line_length =? 0 then Ok pack_lines
          else pkt_loop n (py_from pack_bytes line_length)
                 (pack_lines ++ [py_slice pack_bytes 4 line_length])
      end
  end.

(** [b"".join(line[1:] for line in pack_lines[1:])] *)
Definition join_lines (pack_lines : list bytes) : bytes :=
  concat (map (drop 1) (drop 1 pack_lines)).

Section Refs.
Variable cwd : list string.

(** The loop that writes the references below [parent / ".git"]. *)
Fixpoint render_refs (parent : path) (refs : dict) (fs : files) : result files :=
  match refs with
  | [] => Ok fs
  | (name, sha) :: refs' =>
      let ref_path := path_div (path_div parent ".git") name in
      fs1 ← mkdir_parents cwd fs (path_parent ref_path);
      fs2 ← write_bytes cwd fs1 ref_path (encode (sha ++ NL));
      render_refs parent refs' fs2
  end.

End Refs.

(** ** A zlib codec that runs

    An encoder and a decoder for the zlib container (RFC 1950) restricted to
    stored deflate blocks (RFC 1951, section 3.2.4).  The encoder puts each
    byte in a block of its own; the header records the compression level as
    zlib does.  It is the instance at which the program is run on concrete
    inputs. *)

Module Stored.

Definition flg (lvl : Z) : Z :=
  let l := if lvl =? -1 then 6 else lvl in
  if l <? 2 then 0x01 else if l <? 6 then 0x5E else if l =? 6 then 0x9C else 0xDA.

Definition adler32 (data : bytes) : Z :=
  let '(a, b) :=
    fold_left (fun ab x => let a := (fst ab + b2z x) mod 65521 in (a, (snd ab + a) mod 65521))
      data (1, 0) in
  b * 65536 + a.

Definition blocks (data : bytes) : bytes :=
  flat_map (fun b => [x00; x01; x00; xfe; xff; b]) data ++ [x01; x00; x00; xff; xff].

Definition deflate (lvl : Z) (data : bytes) : bytes :=
  [x78; z2b (flg lvl)] ++ blocks data ++ map z2b (SHA1.be_bytes 4 (adler32 data)).

Fixpoint inflate_blocks (fuel : nat) (l acc : bytes) : result (bytes * bytes) :=
  match fuel with
  | O => Err ZlibError
  | S n =>
      match l with
      | h :: l0 :: l1 :: n0 :: n1 :: rest =>
          let len := b2z l0 + 256 * b2z l1 in
          if (b2z h <=? 1) && (len + b2z n0 + 256 * b2z n1 =? 65535)
             && (len <=? Z.of_nat (length rest)) then
            let acc := acc ++ take (Z.to_nat len) rest in
            let rest := drop (Z.to_nat len) rest in
            if b2z h =? 1 then Ok (acc, rest) else inflate_blocks n rest acc
          else Err ZlibError
      | _ => Err ZlibError
      end
  end.

Definition inflate_stream (l : bytes) : result (bytes * bytes) :=
  match l with
  | cmf :: f :: rest =>
      if (b2z cmf =? 0x78) && ((b2z cmf * 256 + b2z f) mod 31 =? 0)
         && (Z.land (b2z f) 0x20 =? 0) then
        '(data, rest) ← inflate_blocks (length rest) rest [];
        if decide (take 4 rest = map z2b (SHA1.be_bytes 4 (adler32 data)))
        then Ok (data, drop 4 rest)
        else Err ZlibError
      else Err ZlibError
  | _ => Err ZlibError
  end.

Definition inflate (l : bytes) : result bytes := fst <$> inflate_stream l.

End Stored.

#[global] Instance stored_zlib : Zlib := {|
  compress := Stored.deflate;
  decompress := Stored.inflate;
  decompress_stream := Stored.inflate_stream;
|}.

(** * Vocabulary of the properties *)

(** An ASCII digit. *)
Definition is_digit (b : byte) : Prop := 48 <= b2z b <= 57.

(** The header of a framed object, without its terminator. *)
Definition header_bytes (category : string) (n : nat) : bytes :=
  encode category ++ x20 :: encode (decimal n).

(** Directories stay directories and regular files stay regular files. *)
Definition kind_ext (fs fs' : files) : Prop :=
  (forall k, node_at fs k = Some Dir -> node_at fs' k = Some Dir) /\
  (forall k d, node_at fs k = Some (File d) -> exists d', node_at fs' k = Some (File d')).

(** Where a path leads, whatever the file system holds. *)
Definition locate (cwd : list string) (p : path) : list string :=
  match p with
  | a :: ps => if String.eqb a "/" then fold_left step ps [] else fold_left step p cwd
  | [] => cwd
  end.

(** A category that survives the round trip through the header: text
    without blank or NUL. *)
Definition plain_category (category : string) : Prop :=
  utf8_valid (encode category) = true /\ (x00 ∉ encode category) /\ (x20 ∉ encode category).

Definition valid_types : list string := ["blob"; "tree"; "commit"; "tag"]%string.

(** What the continuation bytes [cs] add to a size: seven bits each, the
    first at [shift], the next at [shift + 7], and so on. *)
Fixpoint continuation_sum (shift : Z) (cs : bytes) : Z :=
  match cs with
  | [] => 0
  | c :: cs' => (b2z c mod 128) * 2 ^ shift + continuation_sum (shift + 7) cs'
  end.

(** [first :: cs] is a complete encoding: the top bit is set on every byte
    but the last. *)
Fixpoint chained (first : byte) (cs : bytes) : bool :=
  match cs with
  | [] => b2z first <? 128
  | c :: cs' => (128 <=? b2z first) && chained c cs'
  end.

(** The output of a delta: its two sizes are skipped and its program is
    applied to the base. *)
Definition delta_result (base_content delta : bytes) : result bytes :=
  '(_, content) ← next_size delta;
  '(_, content) ← next_size content;
  apply_delta base_content content.

(** Ascending order of names under a key. *)
Definition ascending {A} (key : A -> string) (l : list A) : Prop :=
  StronglySorted (fun x y => bytes_leb (encode (key x)) (encode (key y)) = true) l.

Definition not_git (x : string) : bool := negb (String.eqb x ".git").

(** [Path(f".git/objects/{sha[:2]}/{sha[2:]}")] *)
Definition tree_object_path (sha : string) : path :=
  parse_path (".git/objects/" ++ str_take 2 sha ++ "/" ++ str_drop 2 sha).

(** What a run that wrote blobs to the paths [written] may have done to the
    file system: kinds are kept, the paths written are regular files, and
    every node that existed elsewhere is as it was. *)
Definition rendered (cwd : list string) (fs fs' : files) (written : list path) : Prop :=
  kind_ext fs fs' /\
  (forall p, p ∈ written -> is_file cwd fs' p = true) /\
  (forall k v, fs !! k = Some v -> k ∉ (locate cwd <$> written) -> fs' !! k = Some v).

(** The digits of [bytes.hex()] and strings made of them. *)
Definition hex_char (c : ascii) : bool :=
  let n := Z.of_N (N_of_ascii c) in
  ((48 <=? n) && (n <=? 57)) || ((97 <=? n) && (n <=? 102)).

Fixpoint hex_string (s : string) : bool :=
  match s with
  | EmptyString => true
  | String c s' => hex_char c && hex_string s'
  end.

(** An insert instruction for the literal [d]: its length, then the
    literal. *)
Definition insert_instr (d : bytes) : bytes := z2b (Z.of_nat (length d)) :: d.

(** Whether bit [k] of the first byte [c] of a copy instruction is set, as
    the program tests it. *)
Definition flag (c : byte) (k : Z) : bool := negb (Z.land (b2z c) (Z.shiftl 1 k) =? 0).

(** The number of operand bytes that the copy instruction [c] announces. *)
Definition operand_count (c : byte) : nat :=
  length (List.filter (flag c) [0; 1; 2; 3; 4; 5; 6]).

(** The working directory is where its own path leads. *)
Definition at_home (cwd : list string) (fs : files) : Prop :=
  resolve cwd fs (getcwd cwd) = Ok cwd.

(** What [init] creates, as paths from the working directory. *)
Definition git_paths : list path :=
  [[".git"]; [".git"; "objects"]; [".git"; "refs"]; [".git"; "HEAD"]]%string.

Definition head_text : string := ("ref: refs/heads/main" ++ NL)%string.
Definition init_message : string := ("Initialized git directory" ++ NL)%string.

(** The number that the bytes [l] spell, most significant first. *)
Definition be_value (l : bytes) : Z := fold_left (fun a b => 256 * a + b2z b) l 0.

(** A run of bytes that [bytes.split()] keeps whole and that holds no NUL. *)
Definition is_word (l : bytes) : bool :=
  match l with
  | [] => false
  | _ => forallb (fun b => negb (is_space b) && negb (b2z b =? 0)) l
  end.

(** Text of one word. *)
Definition listable_name (x : string) : bool := is_word (encode x) && utf8_valid (encode x).

Definition listable (e : entry) : bool :=
  listable_name (e_mode e) && listable_name (e_name e) && (length (e_oid e) =? 20)%nat.

(** The line of [ls-tree] for an entry. *)
Definition ls_line (name_only : bool) (e : entry) : string :=
  if name_only then e_name e
  else (e_mode e ++ " " ++ (if String.eqb (e_mode e) "040000" then "tree" else "blob") ++ " "
        ++ hex (e_oid e) ++ " " ++ e_name e)%string.

(** Lines as [print] writes them, each ended by a newline. *)
Fixpoint concat_lines (ls : list string) : string :=
  match ls with
  | [] => EmptyString
  | l :: ls' => (l ++ NL ++ concat_lines ls')%string
  end.

(** The modes that [write_tree] gives to entries. *)
Definition captured_mode (e : entry) : Prop :=
  (e_mode e = "100644"%string \/ e_mode e = "40000"%string) /\ length (e_oid e) = 20%nat.

(** The id of an object given by type and content. *)
Definition object_id (o : string * bytes) : string := sha1_hexdigest (frame o.1 o.2).

(** The objects that [n] entries of [pack] hold when each carries one of
    the types commit, tree, blob and tag, and what follows them. *)
Fixpoint base_objects `{Zlib} (n : nat) (pack : bytes)
    : option (list (string * bytes) * bytes) :=
  match n with
  | O => Some ([], pack)
  | S n' =>
      match next_size_and_type pack with
      | Ok (tip, _, body) =>
          if is_base_type tip then
            match decompress_stream body with
            | Ok (content, pack') =>
                match base_objects n' pack' with
                | Some (objs, rest) => Some ((tip, content) :: objs, rest)
                | None => None
                end
            | Err _ => None
            end
          else None
      | Err _ => None
      end
  end.

(** Where [clone] writes the reference [name]. *)
Definition ref_path (parent : path) (name : string) : path :=
  path_div (path_div parent ".git") name.

(** A packet line: the length of the line, itself included, in four
    hexadecimal digits, then the payload. *)
Definition pkt_line (payload : bytes) : bytes :=
  let n := Z.of_nat (length payload) + 4 in
  encode (hex [z2b (n / 256); z2b (n mod 256)]) ++ payload.

(** A line of the side band: the band, then the data. *)
Definition band_line (item : byte * bytes) : bytes := fst item :: snd item.

(** A line of the advertisement that names a reference: four bytes, the
    id, a blank, the name and, after a NUL, capabilities or nothing. *)
Record ref_line := RefLine {
  rl_pfx : bytes; rl_sha : bytes; rl_name : bytes; rl_tail : bytes
}.

Definition ref_line_bytes (r : ref_line) : bytes :=
  rl_pfx r ++ rl_sha r ++ x20 :: rl_name r ++ rl_tail r.

(** The id that [refs] gets for the line. *)
Definition ref_line_sha (r : ref_line) : bytes :=
  if endswith (bs "HEAD") (rl_name r) then drop 4 (rl_sha r) else rl_sha r.

Definition ref_line_entry (r : ref_line) : string * string :=
  (string_of_list_byte (rl_name r), string_of_list_byte (ref_line_sha r)).

Definition lacks (b : byte) (l : bytes) : bool := forallb (fun c => negb (bool_decide (c = b))) l.

Definition ref_line_ok (r : ref_line) : bool :=
  (length (rl_pfx r) =? 4)%nat && lacks x0a (ref_line_bytes r)
  && lacks x00 (rl_sha r) && lacks x20 (rl_sha r)
  && lacks x00 (rl_name r) && lacks x20 (rl_name r)
  && (4 <=? length (rl_sha r))%nat && negb (startswith (bs "#") (rl_sha r))
  && match rl_tail r with [] => true | b :: _ => bool_decide (b = x00) end
  && utf8_valid (rl_name r) && utf8_valid (ref_line_sha r).

(** ** The working tree that a stored tree describes *)

(** A blob with its content, or a tree with its named children; each with
    the 20 bytes of its id. *)
Inductive wtree :=
  | WBlob (oid content : bytes)
  | WTree (oid : bytes) (children : list (string * wtree)).

Definition w_oid (t : wtree) : bytes :=
  match t with
  | WBlob oid _ => oid
  | WTree oid _ => oid
  end.

Definition w_mode (t : wtree) : string :=
  match t with
  | WBlob _ _ => "100644"
  | WTree _ _ => "40000"
  end.

(** The entry of a child in its tree, and the data of a tree object. *)
Definition w_entry (nc : string * wtree) : entry := Entry (w_mode nc.2) nc.1 (w_oid nc.2).

Definition w_data (children : list (string * wtree)) : bytes :=
  concat (map (fun nc => entry_bytes (w_entry nc)) children).

Fixpoint w_depth (t : wtree) : nat :=
  match t with
  | WBlob _ _ => 0
  | WTree _ children => S (fold_right Nat.max 0%nat (map (fun nc => w_depth nc.2) children))
  end.

(** The regular files of [t] when it stands at [base], with their
    contents, in the order of the entries; its directories; and the
    objects it is made of, each with what the store must hold for it. *)
Fixpoint w_files (base : path) (t : wtree) : list (path * bytes) :=
  match t with
  | WBlob _ content => [(base, content)]
  | WTree _ children => flat_map (fun nc => w_files (base ++ [nc.1]) nc.2) children
  end.

Fixpoint w_dirs (base : path) (t : wtree) : list path :=
  match t with
  | WBlob _ _ => []
  | WTree _ children => base :: flat_map (fun nc => w_dirs (base ++ [nc.1]) nc.2) children
  end.

Fixpoint w_objects (t : wtree) : list (bytes * bytes) :=
  match t with
  | WBlob oid content => [(oid, content)]
  | WTree oid children => (oid, w_data children) :: flat_map (fun nc => w_objects nc.2) children
  end.

(** A name that is one part of a path and is text: not empty, without
    slash or NUL, and neither [.] nor [..]. *)
Definition simple_name (s : string) : bool :=
  bool_decide (components s = [s]) && negb (String.eqb s "") && negb (String.eqb s ".")
  && negb (String.eqb s "..") && utf8_valid (encode s) && lacks x00 (encode s).

(** Ids of 20 bytes, simple names, and no name twice in a tree. *)
Fixpoint w_wf (t : wtree) : bool :=
  (length (w_oid t) =? 20)%nat
  && match t with
     | WBlob _ _ => true
     | WTree _ children =>
         forallb (fun nc => simple_name nc.1 && w_wf nc.2) children
         && bool_decide (NoDup (map fst children))
     end.

Section Fits.
Context `{Zlib}.
Variable cwd : list string.
Variable parent : path.

(** What a checkout needs of the file system: no regular file where the
    tree has a directory, no directory where it has a file, every object of
    the tree in the store, and no object file of the tree at a path where
    the tree has a file. *)
Definition fits_lists (fs : files) (dirs : list path) (files : list (path * bytes))
    (objects : list (bytes * bytes)) : bool :=
  forallb (fun p => match node_at fs (locate cwd p) with
                    | Some (File _) => false
                    | _ => true
                    end) dirs
  && forallb (fun pc => match node_at fs (locate cwd pc.1) with
                        | Some Dir => false
                        | _ => true
                        end) files
  && forallb (fun oc => match read_object cwd (hex oc.1) parent fs with
                        | Ok (_, data) => bool_decide (data = oc.2)
                        | Err _ => false
                        end
                        && bool_decide (locate cwd (object_path parent (hex oc.1))
                                        ∉ locate cwd <$> map fst files)) objects.

Definition fits (fs : files) (base : path) (t : wtree) : bool :=
  fits_lists fs (w_dirs base t) (w_files base t) (w_objects t).

End Fits.

(** What a checkout leaves: kinds are kept, every file of the tree holds
    its content, every directory of the tree is a directory, and every
    location that the tree does not name is as it was. *)
Definition checked_out (cwd : list string) (fs fs' : files) (dirs : list path)
    (files : list (path * bytes)) : Prop :=
  kind_ext fs fs' /\
  Forall (fun pc => read_bytes cwd fs' pc.1 = Ok pc.2) files /\
  Forall (fun p => is_dir cwd fs' p = true) dirs /\
  (forall k, k ∉ (locate cwd <$> (dirs ++ map fst files)) -> fs' !! k = fs !! k).

(** A location under the child [name] of the location [L]. *)
Definition below (L : list string) (name : string) (k : list string) : Prop :=
  exists s, k = L ++ name :: s.

(** * Sample data *)

(** A working directory [/repo] that holds nothing yet. *)
Definition repo : list string := ["repo"%string].
Definition empty_repo : files := {[ repo := Dir ]}.

Definition git_dir : list string := repo ++ [".git"%string].
Definition objects_dir : list string := git_dir ++ ["objects"%string].

(** [/repo] after [init]. *)
Definition init_repo : files :=
  <[objects_dir := Dir]> (<[git_dir := Dir]> empty_repo).

Definition empty_tree_oid : string := "4b825dc642cb6eb9a060e54bf8d69288fbee4904".

(** [/repo] after [write_tree] has captured it while it was empty: the
    empty tree, deflated at the default level. *)
Definition captured_repo : files :=
  <[objects_dir ++ ["4b"; "825dc642cb6eb9a060e54bf8d69288fbee4904"]%string
      := File (Stored.deflate Z_DEFAULT_COMPRESSION (frame "tree" []))]>
    (<[objects_dir ++ ["4b"%string] := Dir]> init_repo).

Definition some_oid : string := "aa39a3ee5e6b4b0d3255bfef95601890afd80709".

(** A store whose object [some_oid] declares 999 bytes and holds three. *)
Definition mislabelled_repo : files :=
  <[objects_dir ++ ["aa"; "39a3ee5e6b4b0d3255bfef95601890afd80709"]%string
      := File (Stored.deflate Z_BEST_SPEED (bs "blob 999" ++ x00 :: bs "abc"))]>
    (<[objects_dir ++ ["aa"%string] := Dir]> init_repo).

Definition fox_base : bytes := bs "The quick brown fox".

(** [copy offset=0 size=9], [insert "lazy "], [copy offset=10 size=9], after
    the sizes 19 and 23. *)
Definition fox_delta : bytes :=
  [x13; x17] ++ [x90; x09] ++ (x05 :: bs "lazy ") ++ [x91; x0a; x09].

Definition fox_target : bytes := bs "The quicklazy brown fox".

(** A store that holds the base of the example as a blob, and the entry
    that follows the header of a [ref_delta] pack entry for it. *)
Definition fox_oid : string := sha1_hexdigest (frame "blob" fox_base).

Definition fox_repo : files :=
  <[objects_dir ++ [str_take 2 fox_oid; str_drop 2 fox_oid]
      := File (Stored.deflate Z_BEST_SPEED (frame "blob" fox_base))]>
    (<[objects_dir ++ [str_take 2 fox_oid] := Dir]> init_repo).

Definition fox_entry : bytes :=
  SHA1.digest (frame "blob" fox_base) ++ Stored.deflate Z_DEFAULT_COMPRESSION fox_delta
  ++ bs "next".

(** A directory with the file [foo] and the directory [foo-bar], and one
    with the directory [foo] and the file [foo-bar]. *)
Definition foo_file_repo : files :=
  <[repo ++ ["foo-bar"%string] := Dir]> (<[repo ++ ["foo"%string] := File (bs "A")]> init_repo).

Definition foo_dir_repo : files :=
  <[repo ++ ["foo-bar"%string] := File (bs "A")]> (<[repo ++ ["foo"%string] := Dir]> init_repo).

Definition blob_A_oid : bytes := SHA1.digest (frame "blob" (bs "A")).
Definition empty_tree_digest : bytes := SHA1.digest (frame "tree" []).

(** A store with a tree that holds one file, [README], in a working
    directory where [README] and [notes] already exist. *)
Definition with_object (category : string) (data : bytes) (fs : files) : files :=
  match create_object repo category data (getcwd repo) fs with
  | Ok (_, fs') => fs'
  | Err _ => fs
  end.

Definition readme_blob : bytes := bs "hi" ++ [x0a].

Definition readme_tree : bytes :=
  bs "100644 README" ++ x00 :: SHA1.digest (frame "blob" readme_blob).

Definition readme_tree_oid : string := sha1_hexdigest (frame "tree" readme_tree).

Definition checkout_repo : files :=
  <[repo ++ ["notes"%string] := File (bs "keep")]>
    (<[repo ++ ["README"%string] := File (bs "old")]>
       (with_object "tree" readme_tree (with_object "blob" readme_blob init_repo))).

(** A blob entry that declares 9 bytes and holds "hello", before the bytes
    "next". *)
Definition hello_entry : bytes :=
  x39 :: Stored.deflate Z_DEFAULT_COMPRESSION (bs "hello") ++ bs "next".

(** A tree whose one entry is an executable file. *)
Definition exec_tree : bytes :=
  bs "100755 run" ++ x00 :: SHA1.digest (frame "blob" readme_blob).

Definition exec_repo : files := with_object "tree" exec_tree init_repo.

(** A tree whose one entry is named [my file]. *)
Definition blank_tree : bytes := entry_bytes (Entry "100644" ("my" ++ " " ++ "file") blob_A_oid).

Definition blank_repo : files := with_object "tree" blank_tree init_repo.

(** A pack of two blobs, "hello" and "A", and its trailer. *)
Definition two_blob_pack : bytes :=
  bs "PACK" ++ [x00; x00; x00; x02] ++ [x00; x00; x00; x02]
  ++ (x35 :: Stored.deflate Z_DEFAULT_COMPRESSION (bs "hello"))
  ++ (x31 :: Stored.deflate Z_DEFAULT_COMPRESSION (bs "A"))
  ++ bs "trailer".

(** The references of a repository with one branch. *)
Definition main_refs : dict :=
  [("HEAD", some_oid); ("refs/heads/main", some_oid)]%string.

(** The advertisement of a repository with one branch. *)
Definition main_advert : list ref_line :=
  [RefLine (bs "0000") (bs "0155" ++ bs some_oid) (bs "HEAD")
     (x00 :: bs "multi_ack side-band-64k");
   RefLine (bs "003f") (bs some_oid) (bs "refs/heads/main") []].

(** A tree with the file [README] and the directory [src], which holds
    [main.py]; its objects in the store of a working directory where
    [README], [src], [src/main.py], [src/todo] and [notes] already exist. *)
Definition main_py_blob : bytes := bs "print(1)" ++ [x0a].

Definition src_children : list (string * wtree) :=
  [("main.py"%string, WBlob (SHA1.digest (frame "blob" main_py_blob)) main_py_blob)].

Definition src_wtree : wtree :=
  WTree (SHA1.digest (frame "tree" (w_data src_children))) src_children.

Definition project_children : list (string * wtree) :=
  [("README"%string, WBlob (SHA1.digest (frame "blob" readme_blob)) readme_blob);
   ("src"%string, src_wtree)].

Definition project_wtree : wtree :=
  WTree (SHA1.digest (frame "tree" (w_data project_children))) project_children.

Definition project_repo : files :=
  <[repo ++ ["notes"%string] := File (bs "keep")]>
    (<[repo ++ ["src"; "todo"]%string := File (bs "later")]>
       (<[repo ++ ["src"; "main.py"]%string := File (bs "old")]>
          (<[repo ++ ["src"%string] := Dir]>
             (<[repo ++ ["README"%string] := File (bs "old")]>
                (with_object "tree" (w_data project_children)
                   (with_object "tree" (w_data src_children)
                      (with_object "blob" main_py_blob
                         (with_object "blob" readme_blob init_repo)))))))).

(** * Properties *)

(** ** [hashlib.sha1] on well-known objects *)

Example sha1_empty_blob :
  sha1_hexdigest (frame "blob" []) = "e69de29bb2d1d6434b8b29ae775ad8c2e48c5391"%string.
Proof. vm_compute. reflexivity. Qed.

Example sha1_hello_blob :
  sha1_hexdigest (frame "blob" (bs "hello")) = "b6fc4c620b67d95f953a5c1c1230aaab5db5a1b0"%string.
Proof. vm_compute. reflexivity. Qed.

Example sha1_empty_tree : sha1_hexdigest (frame "tree" []) = empty_tree_oid.
Proof. vm_compute. reflexivity. Qed.


(** ** The stored codec satisfies the zlib interface *)

Lemma b2z_range b : 0 <= b2z b < 256.
Proof.
  unfold b2z. pose proof (Byte.to_N_bounded b) as Hb. lia.
Qed.

Lemma z2b_b2z b : z2b (b2z b) = b.
Proof.
  unfold z2b. rewrite Z.mod_small by apply b2z_range.
  unfold b2z. rewrite N2Z.id, Byte.of_to_N. reflexivity.
Qed.

Lemma b2z_inj a b : b2z a = b2z b -> a = b.
Proof. intros Hab. rewrite <- (z2b_b2z a), <- (z2b_b2z b), Hab. reflexivity. Qed.

(** A check that holds on each of [lo, lo + 1, ..., lo + n - 1] holds on the
    interval. *)
Lemma Z_range_forallb (P : Z -> bool) (lo : Z) (n : nat) :
  forallb P (map (fun i => lo + Z.of_nat i) (seq 0 n)) = true ->
  forall z, lo <= z < lo + Z.of_nat n -> P z = true.
Proof.
  intros Hall z Hz. rewrite forallb_forall in Hall. apply Hall.
  apply in_map_iff. exists (Z.to_nat (z - lo)). split; [lia|]. apply in_seq. lia.
Qed.

Lemma inflate_blocks_blocks data : forall fuel acc rest,
  (length data < fuel)%nat ->
  Stored.inflate_blocks fuel (Stored.blocks data ++ rest) acc = Ok (acc ++ data, rest).
Proof.
  induction data as [|b data IH]; intros fuel acc rest Hfuel.
  - destruct fuel as [|n]; [inversion Hfuel|].
    cbn [Stored.blocks flat_map app Stored.inflate_blocks].
    change (b2z x01) with 1. change (b2z x00) with 0. change (b2z xff) with 255.
    replace (0 + 256 * 0 <=? Z.of_nat (length rest)) with true
      by (symmetry; apply Z.leb_le; lia).
    change (Z.to_nat (0 + 256 * 0)) with 0%nat.
    change (0 + 256 * 0 + 255 + 256 * 255 =? 65535) with true.
    change (1 <=? 1) with true. change (1 =? 1) with true.
    cbn [andb take drop]. rewrite !app_nil_r. reflexivity.
  - destruct fuel as [|n]; [inversion Hfuel|].
    cbn [Stored.blocks flat_map app Stored.inflate_blocks].
    change (b2z x01) with 1. change (b2z x00) with 0. change (b2z xff) with 255.
    change (b2z xfe) with 254.
    replace (1 + 256 * 0 <=? _) with true
      by (symmetry; apply Z.leb_le; cbn [length]; lia).
    change (Z.to_nat (1 + 256 * 0)) with 1%nat.
    change (1 + 256 * 0 + 254 + 256 * 255 =? 65535) with true.
    change (0 <=? 1) with true. change (0 =? 1) with false.
    cbn [andb take drop].
    rewrite drop_0, take_0.
    change (flat_map _ data ++ _) with (Stored.blocks data).
    rewrite (IH n (acc ++ [b]) rest) by (cbn [length] in Hfuel; lia).
    rewrite <- app_assoc. reflexivity.
Qed.

Lemma blocks_length data : length (Stored.blocks data) = (6 * length data + 5)%nat.
Proof.
  unfold Stored.blocks. induction data as [|b data IH]; [reflexivity|].
  cbn [flat_map app length] in *. rewrite IH. lia.
Qed.

Lemma stored_stream_deflate lvl data rest :
  -1 <= lvl <= 9 ->
  Stored.inflate_stream (Stored.deflate lvl data ++ rest) = Ok (data, rest).
Proof.
  intros Hlvl. unfold Stored.deflate, Stored.inflate_stream.
  cbn [app].
  assert (Hflg : ((b2z x78 * 256 + b2z (z2b (Stored.flg lvl))) mod 31 =? 0)
                 && (Z.land (b2z (z2b (Stored.flg lvl))) 32 =? 0) = true).
  { apply (Z_range_forallb
             (fun l => ((b2z x78 * 256 + b2z (z2b (Stored.flg l))) mod 31 =? 0)
                       && (Z.land (b2z (z2b (Stored.flg l))) 32 =? 0)) (-1) 11);
      [vm_compute; reflexivity|lia]. }
  change (b2z x78 =? 120) with true. cbn [andb].
  rewrite Hflg.
  rewrite <- !app_assoc.
  rewrite inflate_blocks_blocks.
  2:{ rewrite length_app, blocks_length. lia. }
  cbn [mbind result_bind].
  set (ad := map z2b (SHA1.be_bytes 4 (Stored.adler32 data))).
  assert (Hlen : length ad = 4%nat) by reflexivity.
  rewrite take_app_length', drop_app_length' by exact Hlen.
  rewrite decide_True by reflexivity. reflexivity.
Qed.

Lemma stored_inflate_deflate lvl data :
  -1 <= lvl <= 9 -> Stored.inflate (Stored.deflate lvl data) = Ok data.
Proof.
  intros Hlvl. unfold Stored.inflate.
  rewrite <- (app_nil_r (Stored.deflate lvl data)).
  rewrite stored_stream_deflate by exact Hlvl. reflexivity.
Qed.

#[global] Instance stored_zlib_laws : ZlibLaws.
Proof. split; [exact stored_inflate_deflate | exact stored_stream_deflate]. Qed.

(** ** Text and splitting *)

Lemma encode_app s t : encode (s ++ t)%string = encode s ++ encode t.
Proof.
  unfold encode, list_byte_of_string. induction s as [|c s IH]; [reflexivity|].
  change (String c s +:+ t) with (String c (s +:+ t)).
  cbn [list_ascii_of_string map app]. rewrite IH. reflexivity.
Qed.

Lemma decode_encode s : utf8_valid (encode s) = true -> decode (encode s) = Ok s.
Proof.
  intros Hv. unfold decode. rewrite Hv. unfold encode.
  rewrite string_of_list_byte_of_string. reflexivity.
Qed.

Lemma split1_app sep l1 l2 :
  sep ∉ l1 -> split1 sep (l1 ++ sep :: l2) = [l1; l2].
Proof.
  induction l1 as [|b l1 IH]; intros Hn; cbn [app split1].
  - rewrite decide_True by reflexivity. reflexivity.
  - apply not_elem_of_cons in Hn as [Hb Hn].
    rewrite decide_False by congruence. rewrite IH by exact Hn. reflexivity.
Qed.

Lemma split1_absent sep l : sep ∉ l -> split1 sep l = [l].
Proof.
  induction l as [|b l IH]; intros Hn; cbn [split1]; [reflexivity|].
  apply not_elem_of_cons in Hn as [Hb Hn].
  rewrite decide_False by congruence. rewrite IH by exact Hn. reflexivity.
Qed.

Lemma split_all_absent sep l : sep ∉ l -> split_all sep l = [l].
Proof.
  induction l as [|b l IH]; intros Hn; cbn [split_all]; [reflexivity|].
  apply not_elem_of_cons in Hn as [Hb Hn].
  rewrite decide_False by congruence. rewrite IH by exact Hn. reflexivity.
Qed.

Lemma split_all_app sep l1 l2 :
  sep ∉ l1 -> split_all sep (l1 ++ sep :: l2) = l1 :: split_all sep l2.
Proof.
  induction l1 as [|b l1 IH]; intros Hn; cbn [app split_all].
  - rewrite decide_True by reflexivity. reflexivity.
  - apply not_elem_of_cons in Hn as [Hb Hn].
    rewrite decide_False by congruence. rewrite IH by exact Hn. reflexivity.
Qed.

Lemma split_all_length sep l :
  length (split_all sep l) = S (length (filter (fun b => b = sep) l)).
Proof.
  induction l as [|b l IH]; [reflexivity|].
  cbn [split_all]. rewrite filter_cons. destruct (decide (b = sep)) as [->|Hne].
  - cbn [length]. rewrite IH. reflexivity.
  - destruct (split_all sep l) as [|h t]; [discriminate IH|]. exact IH.
Qed.

Lemma string_of_uint_digits d : Forall is_digit (encode (NilEmpty.string_of_uint d)).
Proof.
  unfold encode, list_byte_of_string.
  induction d; cbn [NilEmpty.string_of_uint list_ascii_of_string map]; constructor;
    try assumption; unfold is_digit; vm_compute; split; discriminate.
Qed.

Lemma decimal_digits n : Forall is_digit (encode (decimal n)).
Proof.
  unfold decimal, NilZero.string_of_uint.
  destruct (Nat.to_uint n) eqn:E; try apply string_of_uint_digits.
  change (encode "0") with [x30].
  constructor; [|constructor].
  unfold is_digit. change (b2z x30) with 48. lia.
Qed.

Lemma digits_exclude (sep : byte) l :
  ~ is_digit sep -> Forall is_digit l -> sep ∉ l.
Proof.
  intros Hsep Hl Hin. rewrite Forall_forall in Hl. apply Hsep, Hl. exact Hin.
Qed.

Lemma decimal_no_nul n : x00 ∉ encode (decimal n).
Proof.
  apply digits_exclude; [|apply decimal_digits].
  unfold is_digit. change (b2z x00) with 0. lia.
Qed.

Lemma decimal_no_space n : x20 ∉ encode (decimal n).
Proof.
  apply digits_exclude; [|apply decimal_digits].
  unfold is_digit. change (b2z x20) with 32. lia.
Qed.

Lemma frame_split category data :
  frame category data = header_bytes category (length data) ++ x00 :: data.
Proof.
  unfold frame, header_bytes. rewrite !encode_app.
  change (encode " ") with [x20]. change (encode NUL) with [x00].
  rewrite <- !app_assoc. reflexivity.
Qed.

(** ** File system *)

Lemma kind_ext_refl fs : kind_ext fs fs.
Proof. split; eauto. Qed.

Lemma kind_ext_trans fs1 fs2 fs3 : kind_ext fs1 fs2 -> kind_ext fs2 fs3 -> kind_ext fs1 fs3.
Proof.
  intros [Hd1 Hf1] [Hd2 Hf2]. split; [eauto|].
  intros k d Hk. destruct (Hf1 k d Hk) as [d' Hk']. eauto.
Qed.

Lemma node_at_insert (fs : files) k v k' :
  k <> [] -> node_at (<[k := v]> fs) k' = if decide (k = k') then Some v else node_at fs k'.
Proof.
  intros Hk. destruct k' as [|a k'].
  - rewrite decide_False by exact Hk. reflexivity.
  - unfold node_at. rewrite lookup_insert. reflexivity.
Qed.

Lemma node_at_absent_ne (fs : files) k : node_at fs k <> Some Dir -> k <> [].
Proof. intros Hn ->. apply Hn. reflexivity. Qed.

Lemma kind_ext_insert_file (fs : files) k d :
  node_at fs k <> Some Dir -> kind_ext fs (<[k := File d]> fs).
Proof.
  intros Hn. pose proof (node_at_absent_ne _ _ Hn) as Hk. split.
  - intros k' Hk'. rewrite node_at_insert by exact Hk.
    destruct (decide (k = k')) as [->|]; [contradiction|exact Hk'].
  - intros k' d' Hk'. rewrite node_at_insert by exact Hk.
    destruct (decide (k = k')); eauto.
Qed.

Lemma kind_ext_insert_dir (fs : files) k :
  node_at fs k = None -> kind_ext fs (<[k := Dir]> fs).
Proof.
  intros Hn. assert (Hk : k <> []) by (intros ->; discriminate Hn). split.
  - intros k' Hk'. rewrite node_at_insert by exact Hk.
    destruct (decide (k = k')); [reflexivity|exact Hk'].
  - intros k' d' Hk'. rewrite node_at_insert by exact Hk.
    destruct (decide (k = k')) as [->|]; [congruence|eauto].
Qed.

Lemma insert_absent_subseteq (fs : files) k v :
  node_at fs k = None -> fs ⊆ <[k := v]> fs.
Proof.
  intros Hn. apply insert_subseteq. destruct k; [discriminate Hn|exact Hn].
Qed.

Lemma walk_mono fs fs' ps : forall cur k,
  kind_ext fs fs' -> walk fs cur ps = Ok k -> walk fs' cur ps = Ok k.
Proof.
  induction ps as [|p ps IH]; intros cur k Hext Hw; [exact Hw|].
  cbn [walk] in *. destruct (node_at fs cur) as [[d|]|] eqn:E; try discriminate Hw.
  rewrite (proj1 Hext _ E). eauto.
Qed.

Lemma walk_locate fs ps : forall cur k, walk fs cur ps = Ok k -> k = fold_left step ps cur.
Proof.
  induction ps as [|p ps IH]; intros cur k Hw; cbn [walk fold_left] in *.
  - congruence.
  - destruct (node_at fs cur) as [[d|]|]; try discriminate Hw. eauto.
Qed.

Section FileSystem.
Variable cwd : list string.

Lemma resolve_mono fs fs' p k :
  kind_ext fs fs' -> resolve cwd fs p = Ok k -> resolve cwd fs' p = Ok k.
Proof.
  unfold resolve. intros Hext. destruct p as [|a ps]; [trivial|].
  destruct (String.eqb a "/"); apply walk_mono; exact Hext.
Qed.

Lemma resolve_locate fs p k : resolve cwd fs p = Ok k -> k = locate cwd p.
Proof.
  unfold resolve, locate. destruct p as [|a ps]; [congruence|].
  destruct (String.eqb a "/"); apply walk_locate.
Qed.

Lemma is_dir_mono fs fs' p :
  kind_ext fs fs' -> is_dir cwd fs p = true -> is_dir cwd fs' p = true.
Proof.
  unfold is_dir. intros Hext. destruct (resolve cwd fs p) as [k|e] eqn:E; [|discriminate].
  rewrite (resolve_mono _ _ _ _ Hext E).
  destruct (node_at fs k) as [[d|]|] eqn:En; try discriminate.
  rewrite (proj1 Hext _ En). reflexivity.
Qed.

Lemma is_file_mono fs fs' p :
  kind_ext fs fs' -> is_file cwd fs p = true -> is_file cwd fs' p = true.
Proof.
  unfold is_file. intros Hext. destruct (resolve cwd fs p) as [k|e] eqn:E; [|discriminate].
  rewrite (resolve_mono _ _ _ _ Hext E).
  destruct (node_at fs k) as [[d|]|] eqn:En; try discriminate.
  destruct (proj2 Hext _ _ En) as [d' ->]. reflexivity.
Qed.

Lemma write_bytes_inv fs p data fs' :
  write_bytes cwd fs p data = Ok fs' ->
  resolve cwd fs p = Ok (locate cwd p) /\ node_at fs (locate cwd p) <> Some Dir /\
  fs' = <[locate cwd p := File data]> fs.
Proof.
  unfold write_bytes. destruct (resolve cwd fs p) as [k|e] eqn:E; [|discriminate].
  cbn [mbind result_bind]. pose proof (resolve_locate _ _ _ E) as ->.
  destruct (node_at fs (locate cwd p)) as [[d|]|] eqn:En; intros [= <-]; repeat split; congruence.
Qed.

Lemma write_bytes_kind_ext fs p data fs' :
  write_bytes cwd fs p data = Ok fs' -> kind_ext fs fs'.
Proof.
  intros Hw. apply write_bytes_inv in Hw as (_ & Hn & ->).
  apply kind_ext_insert_file, Hn.
Qed.

Lemma write_bytes_read fs p data fs' :
  write_bytes cwd fs p data = Ok fs' -> read_bytes cwd fs' p = Ok data.
Proof.
  intros Hw. pose proof (write_bytes_kind_ext _ _ _ _ Hw) as Hext.
  apply write_bytes_inv in Hw as (Hr & Hn & ->).
  unfold read_bytes. rewrite (resolve_mono _ _ _ _ Hext Hr). cbn [mbind result_bind].
  rewrite node_at_insert by (eapply node_at_absent_ne, Hn).
  rewrite decide_True by reflexivity. reflexivity.
Qed.

(** Writing over a regular file succeeds. *)
Lemma write_bytes_over fs p old data :
  read_bytes cwd fs p = Ok old ->
  write_bytes cwd fs p data = Ok (<[locate cwd p := File data]> fs).
Proof.
  unfold read_bytes, write_bytes.
  destruct (resolve cwd fs p) as [k|e] eqn:E; [|discriminate].
  cbn [mbind result_bind]. pose proof (resolve_locate _ _ _ E) as ->.
  destruct (node_at fs (locate cwd p)) as [[d|]|]; try discriminate. reflexivity.
Qed.

Lemma os_mkdir_inv fs p fs' :
  os_mkdir cwd fs p = Ok fs' ->
  resolve cwd fs p = Ok (locate cwd p) /\ node_at fs (locate cwd p) = None /\
  fs' = <[locate cwd p := Dir]> fs.
Proof.
  unfold os_mkdir. destruct (resolve cwd fs p) as [k|e] eqn:E; [|discriminate].
  cbn [mbind result_bind]. pose proof (resolve_locate _ _ _ E) as ->.
  destruct (node_at fs (locate cwd p)) eqn:En; intros [= <-]. auto.
Qed.

Lemma os_mkdir_post fs p fs' :
  os_mkdir cwd fs p = Ok fs' -> fs ⊆ fs' /\ kind_ext fs fs' /\ is_dir cwd fs' p = true.
Proof.
  intros Hm. apply os_mkdir_inv in Hm as (Hr & Hn & ->).
  pose proof (kind_ext_insert_dir _ _ Hn) as Hext.
  split; [apply insert_absent_subseteq, Hn|]. split; [exact Hext|].
  unfold is_dir. rewrite (resolve_mono _ _ _ _ Hext Hr).
  rewrite node_at_insert by (intros E; rewrite E in Hn; discriminate Hn).
  rewrite decide_True by reflexivity. reflexivity.
Qed.

Lemma mkdir_exist_ok_post fs p fs' :
  mkdir_exist_ok cwd fs p = Ok fs' -> fs ⊆ fs' /\ kind_ext fs fs' /\ is_dir cwd fs' p = true.
Proof.
  unfold mkdir_exist_ok. destruct (os_mkdir cwd fs p) as [fs1|e] eqn:E.
  - intros [= <-]. apply os_mkdir_post, E.
  - destruct (is_dir cwd fs p) eqn:Ed; destruct e; intros [= <-];
      (split; [reflexivity|split; [apply kind_ext_refl|exact Ed]]).
Qed.

Lemma mkdir_loop_post fuel : forall fs p fs',
  mkdir_loop cwd fuel fs p = Ok fs' -> fs ⊆ fs' /\ kind_ext fs fs' /\ is_dir cwd fs' p = true.
Proof.
  induction fuel as [|n IH]; intros fs p fs'; cbn [mkdir_loop];
    destruct (os_mkdir cwd fs p) as [fs1|e] eqn:E.
  1,3: intros [= <-]; apply os_mkdir_post, E.
  - destruct (is_dir cwd fs p) eqn:Ed; destruct e; try discriminate;
      try (destruct (decide (path_parent p = p)); discriminate);
      intros [= <-]; (split; [reflexivity|split; [apply kind_ext_refl|exact Ed]]).
  - destruct e;
      try (destruct (is_dir cwd fs p) eqn:Ed; [|discriminate]; intros [= <-];
           split; [reflexivity|split; [apply kind_ext_refl|exact Ed]]).
    destruct (decide (path_parent p = p)); [discriminate|].
    destruct (mkdir_loop cwd n fs (path_parent p)) as [fs2|e2] eqn:E2; [|discriminate].
    cbn [mbind result_bind]. intros Hm.
    apply IH in E2 as (Hs1 & He1 & _). apply mkdir_exist_ok_post in Hm as (Hs2 & He2 & Hd).
    split; [etrans; eassumption|]. split; [eapply kind_ext_trans; eassumption|exact Hd].
Qed.

(** On a directory that exists, [mkdir(parents=True, exist_ok=True)] returns
    without touching the file system. *)
Lemma mkdir_parents_existing fs p :
  is_dir cwd fs p = true -> mkdir_parents cwd fs p = Ok fs.
Proof.
  intros Hd. unfold mkdir_parents.
  assert (Hm : os_mkdir cwd fs p = Err FileExistsError).
  { unfold os_mkdir, is_dir in *. destruct (resolve cwd fs p) as [k|e]; [|discriminate].
    cbn [mbind result_bind]. destruct (node_at fs k); [reflexivity|discriminate]. }
  destruct (length p); cbn [mkdir_loop]; rewrite Hm, Hd; reflexivity.
Qed.

End FileSystem.

(** ** Object store *)

Section Store.
Context `{Zlib}.
Variable cwd : list string.

Lemma create_object_inv category data parent fs oid fs' :
  create_object cwd category data parent fs = Ok (oid, fs') ->
  oid = sha1_hexdigest (frame category data) /\
  exists fs1,
    mkdir_parents cwd fs (path_parent (object_path parent oid)) = Ok fs1 /\
    write_bytes cwd fs1 (object_path parent oid)
      (compress Z_BEST_SPEED (frame category data)) = Ok fs'.
Proof.
  unfold create_object.
  destruct (mkdir_parents cwd fs _) as [fs1|e] eqn:E1; [|discriminate].
  cbn [mbind result_bind].
  destruct (write_bytes cwd fs1 _ _) as [fs2|e] eqn:E2; [|discriminate].
  cbn [mbind result_bind mret result_ret]. intros [= <- <-]. eauto.
Qed.

(** After a successful [create_object] the object file holds the framed
    bytes deflated at [Z_BEST_SPEED], whatever the path held before. *)
Lemma create_object_stored category data parent fs oid fs' :
  create_object cwd category data parent fs = Ok (oid, fs') ->
  read_bytes cwd fs' (object_path parent oid)
  = Ok (compress Z_BEST_SPEED (frame category data)).
Proof.
  intros Hc. apply create_object_inv in Hc as (_ & fs1 & _ & Hw).
  eapply write_bytes_read, Hw.
Qed.

Lemma create_object_kind_ext category data parent fs oid fs' :
  create_object cwd category data parent fs = Ok (oid, fs') -> kind_ext fs fs'.
Proof.
  intros Hc. apply create_object_inv in Hc as (_ & fs1 & Hm & Hw).
  apply mkdir_loop_post in Hm as (_ & He & _).
  eapply kind_ext_trans; [exact He|]. eapply write_bytes_kind_ext, Hw.
Qed.

(** What [read_object] makes of an object file whose inflated bytes are
    [tip ++ " " ++ len ++ "\0" ++ content]: the length field is not looked
    at. *)
Lemma read_object_parse sha parent fs raw tip len content :
  read_bytes cwd fs (object_path parent sha) = Ok raw ->
  decompress raw = Ok (tip ++ x20 :: len ++ x00 :: content) ->
  x00 ∉ tip -> x20 ∉ tip -> x00 ∉ len -> x20 ∉ len ->
  read_object cwd sha parent fs
  = match decode tip with Ok t => Ok (t, content) | Err e => Err e end.
Proof.
  intros Hr Hd Ht0 Ht1 Hl0 Hl1. unfold read_object. rewrite Hr. cbn [mbind result_bind].
  rewrite Hd. cbn [mbind result_bind].
  replace (tip ++ x20 :: len ++ x00 :: content) with ((tip ++ x20 :: len) ++ x00 :: content)
    by (rewrite <- app_assoc; reflexivity).
  rewrite split1_app.
  2:{ rewrite elem_of_app, elem_of_cons. intros [?|[?|?]]; [auto|discriminate|auto]. }
  cbn [unpack2 mbind result_bind].
  rewrite split_all_app, split_all_absent by assumption.
  cbn [unpack2 mbind result_bind]. reflexivity.
Qed.

Lemma get_put_plain `{!ZlibLaws} category data parent fs oid fs' :
  plain_category category ->
  create_object cwd category data parent fs = Ok (oid, fs') ->
  read_object cwd oid parent fs' = Ok (category, data).
Proof.
  intros (Hv & Hnul & Hsp) Hc.
  pose proof (create_object_stored _ _ _ _ _ _ Hc) as Hr.
  erewrite read_object_parse; [| exact Hr | | exact Hnul | exact Hsp
                               | apply decimal_no_nul | apply decimal_no_space ].
  - rewrite decode_encode by exact Hv. reflexivity.
  - rewrite decompress_compress by (unfold Z_BEST_SPEED; lia).
    rewrite frame_split. unfold header_bytes. rewrite <- app_assoc. reflexivity.
Qed.

Lemma valid_type_plain t : In t valid_types -> plain_category t.
Proof.
  intros Ht.
  repeat (destruct Ht as [<- | Ht];
          [split; [reflexivity|split; apply (bool_decide_unpack _); vm_compute; exact I]|]).
  destruct Ht.
Qed.

End Store.

(** C1: for every valid object type [t] and payload [p], reading back the
    OID returned by a successful [create_object t p] yields [(t, p)]. *)
Theorem get_put_roundtrip `{ZlibLaws} cwd t p parent fs oid fs' :
  In t valid_types ->
  create_object cwd t p parent fs = Ok (oid, fs') ->
  read_object cwd oid parent fs' = Ok (t, p).
Proof.
  intros Ht Hc.
  exact (get_put_plain cwd t p parent fs oid fs' (valid_type_plain t Ht) Hc).
Qed.

Lemma get_put_roundtrip_witness :
  In "blob"%string valid_types /\
  match create_object repo "blob" (bs "hello") (getcwd repo) empty_repo with
  | Ok (oid, fs') => read_object repo oid (getcwd repo) fs' = Ok ("blob"%string, bs "hello")
  | Err _ => False
  end.
Proof.
  split; [left; reflexivity|].
  assert (Hok : is_ok (create_object repo "blob" (bs "hello") (getcwd repo) empty_repo) = true)
    by (vm_compute; reflexivity).
  destruct (create_object repo "blob" (bs "hello") (getcwd repo) empty_repo)
    as [[oid fs']|e] eqn:E; [|discriminate Hok].
  apply (get_put_roundtrip repo "blob" (bs "hello") (getcwd repo) empty_repo oid fs');
    [left; reflexivity | exact E].
Defined.

(** *** An existing object file *)

Example write_tree_empty_repo :
  write_tree repo 1 (getcwd repo) init_repo = Ok (empty_tree_oid, captured_repo).
Proof. vm_compute. reflexivity. Qed.

(** C8, as the code has it: a successful [create_object] leaves the framed
    bytes deflated at [Z_BEST_SPEED] in the object file, whatever was there,
    and returns the OID; repeating it on the resulting store returns the same
    OID and leaves that store as it is. *)
Theorem put_rewrites_then_idempotent `{Zlib} cwd t p parent fs oid fs1 :
  create_object cwd t p parent fs = Ok (oid, fs1) ->
  oid = sha1_hexdigest (frame t p) /\
  read_bytes cwd fs1 (object_path parent oid) = Ok (compress Z_BEST_SPEED (frame t p)) /\
  create_object cwd t p parent fs1 = Ok (oid, fs1).
Proof.
  intros Hc. pose proof (create_object_stored _ _ _ _ _ _ _ Hc) as Hr.
  apply create_object_inv in Hc as (Hoid & fs0 & Hm & Hw).
  split; [exact Hoid|]. split; [exact Hr|].
  pose proof (write_bytes_kind_ext _ _ _ _ _ Hw) as Hext.
  apply mkdir_loop_post in Hm as (_ & _ & Hd).
  pose proof (is_dir_mono _ _ _ _ Hext Hd) as Hd1.
  unfold create_object. rewrite <- Hoid.
  rewrite (mkdir_parents_existing _ _ _ Hd1). cbn [mbind result_bind].
  rewrite (write_bytes_over _ _ _ _ _ Hr). cbn [mbind result_bind mret result_ret].
  apply write_bytes_inv in Hw as (_ & _ & ->).
  rewrite insert_insert_eq. reflexivity.
Qed.

Lemma put_rewrites_then_idempotent_witness :
  match create_object repo "blob" (bs "hello") (getcwd repo) init_repo with
  | Ok (oid, fs1) =>
      oid = sha1_hexdigest (frame "blob" (bs "hello")) /\
      read_bytes repo fs1 (object_path (getcwd repo) oid)
      = Ok (compress Z_BEST_SPEED (frame "blob" (bs "hello"))) /\
      create_object repo "blob" (bs "hello") (getcwd repo) fs1 = Ok (oid, fs1)
  | Err _ => False
  end.
Proof.
  assert (Hok : is_ok (create_object repo "blob" (bs "hello") (getcwd repo) init_repo) = true)
    by (vm_compute; reflexivity).
  destruct (create_object repo "blob" (bs "hello") (getcwd repo) init_repo)
    as [[oid fs1]|e] eqn:E; [|discriminate Hok].
  exact (put_rewrites_then_idempotent repo "blob" (bs "hello") (getcwd repo) init_repo oid fs1 E).
Defined.

(** C8 fails as stated: the object file of the empty tree exists in
    [captured_repo]; [create_object "tree" b""] returns its OID and the
    bytes of the file are no longer those it held. *)
Lemma put_existing_not_noop :
  read_bytes repo captured_repo (object_path (getcwd repo) empty_tree_oid)
  = Ok (Stored.deflate Z_DEFAULT_COMPRESSION (frame "tree" [])) /\
  fst <$> create_object repo "tree" [] (getcwd repo) captured_repo = Ok empty_tree_oid /\
  ('(oid, fs1) ← create_object repo "tree" [] (getcwd repo) captured_repo;
   read_bytes repo fs1 (object_path (getcwd repo) oid))
  = Ok (Stored.deflate Z_BEST_SPEED (frame "tree" [])) /\
  Stored.deflate Z_BEST_SPEED (frame "tree" [])
  <> Stored.deflate Z_DEFAULT_COMPRESSION (frame "tree" []).
Proof.
  repeat split; try (vm_compute; reflexivity). vm_compute. discriminate.
Qed.

(** *** Reading what is not a well-formed object *)

Lemma unpack2_length {A} (xs : list A) : length xs <> 2%nat -> unpack2 xs = Err ValueError.
Proof. destruct xs as [|a [|b [|c xs]]]; cbn; congruence. Qed.

(** C4, as the code has it: [read_object] fails with the error of the read
    when the object file cannot be read, with [FileNotFoundError] when
    nothing exists at the fan-out path, and with [ValueError] when the
    inflated bytes hold no NUL or the header before the first NUL does not
    hold exactly one blank.  Otherwise it returns the text before the blank
    and the bytes after the NUL; the length written in the header is not
    compared with anything. *)
Theorem read_object_failures `{Zlib} cwd sha parent fs :
  (forall e, read_bytes cwd fs (object_path parent sha) = Err e ->
             read_object cwd sha parent fs = Err e) /\
  (forall k, resolve cwd fs (object_path parent sha) = Ok k -> node_at fs k = None ->
             read_object cwd sha parent fs = Err FileNotFoundError) /\
  (forall raw inflated,
     read_bytes cwd fs (object_path parent sha) = Ok raw ->
     decompress raw = Ok inflated ->
     (x00 ∉ inflated -> read_object cwd sha parent fs = Err ValueError) /\
     (forall head content,
        inflated = head ++ x00 :: content -> x00 ∉ head ->
        (length (filter (fun b => b = x20) head) <> 1%nat ->
         read_object cwd sha parent fs = Err ValueError) /\
        (forall tip len,
           head = tip ++ x20 :: len -> x20 ∉ tip -> x20 ∉ len ->
           read_object cwd sha parent fs
           = match decode tip with Ok t => Ok (t, content) | Err e => Err e end))).
Proof.
  split; [|split].
  - intros e He. unfold read_object. rewrite He. reflexivity.
  - intros k Hk Hn. unfold read_object, read_bytes. rewrite Hk. cbn [mbind result_bind].
    rewrite Hn. reflexivity.
  - intros raw inflated Hr Hd. split.
    + intros Hn. unfold read_object. rewrite Hr. cbn [mbind result_bind].
      rewrite Hd. cbn [mbind result_bind]. rewrite split1_absent by exact Hn. reflexivity.
    + intros head content -> Hh. split.
      * intros Hc. unfold read_object. rewrite Hr. cbn [mbind result_bind].
        rewrite Hd. cbn [mbind result_bind]. rewrite split1_app by exact Hh.
        cbn [unpack2 mbind result_bind].
        rewrite unpack2_length; [reflexivity|]. rewrite split_all_length. lia.
      * intros tip len -> Ht Hl.
        apply (read_object_parse cwd sha parent fs raw tip len content Hr).
        -- rewrite Hd, <- app_assoc. reflexivity.
        -- intros Hin. apply Hh. rewrite elem_of_app. auto.
        -- exact Ht.
        -- intros Hin. apply Hh. rewrite elem_of_app, elem_of_cons. auto.
        -- exact Hl.
Qed.

Lemma read_object_failures_witness :
  read_object repo some_oid (getcwd repo) init_repo = Err FileNotFoundError /\
  read_object repo empty_tree_oid (getcwd repo) captured_repo = Ok ("tree"%string, []).
Proof.
  split.
  - apply (proj1 (read_object_failures repo some_oid (getcwd repo) init_repo)).
    vm_compute. reflexivity.
  - destruct (read_object_failures repo empty_tree_oid (getcwd repo) captured_repo)
      as (_ & _ & Hparse).
    destruct (Hparse (Stored.deflate Z_DEFAULT_COMPRESSION (frame "tree" []))
                (frame "tree" [])) as [_ Hhead]; [vm_compute; reflexivity ..|].
    destruct (Hhead (bs "tree 0") []) as [_ Htip];
      [reflexivity | apply (bool_decide_unpack _); vm_compute; exact I |].
    apply (Htip (bs "tree") (bs "0"));
      [reflexivity | apply (bool_decide_unpack _); vm_compute; exact I ..].
Defined.

(** C4 fails as stated: the object declares 999 bytes, holds three, and is
    returned. *)
Lemma read_object_ignores_length :
  read_bytes repo mislabelled_repo (object_path (getcwd repo) some_oid)
  = Ok (Stored.deflate Z_BEST_SPEED (bs "blob 999" ++ x00 :: bs "abc")) /\
  read_object repo some_oid (getcwd repo) mislabelled_repo = Ok ("blob"%string, bs "abc").
Proof. split; vm_compute; reflexivity. Qed.

(** ** Pack decoding *)

(** *** The two size encodings, as the format describes them *)

Lemma byte_msb b : (Z.land (b2z b) 128 =? 0) = (b2z b <? 128).
Proof. destruct b; reflexivity. Qed.

Lemma byte_low7 b : Z.land (b2z b) 127 = b2z b mod 128.
Proof. destruct b; reflexivity. Qed.

Lemma byte_low4 b : Z.land (b2z b) 15 = b2z b mod 16.
Proof. destruct b; reflexivity. Qed.

Lemma byte_type_bits b : Z.shiftr (Z.land (b2z b) 112) 4 = (b2z b / 16) mod 8.
Proof. destruct b; reflexivity. Qed.

Lemma size_loop_chained tail cs : forall prev size off,
  0 <= off -> chained prev cs = true ->
  size_loop prev (cs ++ tail) size off = Ok (size + continuation_sum off cs, tail).
Proof.
  induction cs as [|c cs IH]; intros prev size off Hoff Hch; cbn [chained] in Hch.
  - cbn [app continuation_sum]. rewrite Z.add_0_r.
    destruct tail; cbn [size_loop]; rewrite byte_msb, Hch; reflexivity.
  - apply andb_true_iff in Hch as [Hp Hch]. apply Z.leb_le in Hp.
    cbn [app size_loop continuation_sum]. rewrite byte_msb.
    replace (b2z prev <? 128) with false by (symmetry; apply Z.ltb_ge; exact Hp).
    rewrite IH by (lia || exact Hch).
    rewrite byte_low7, Z.shiftl_mul_pow2 by exact Hoff.
    rewrite Z.add_assoc. reflexivity.
Qed.

(** C7: on [first :: cs ++ tail] with [first :: cs] a complete encoding, the
    entry-header decoder returns the type in bits 6..4 of [first], the size
    made of bits 3..0 of [first] and seven bits of each continuation byte at
    shifts 4, 11, 18, ..., and [tail]; the delta-size decoder returns the
    size made of bits 6..0 of [first] and seven bits of each continuation
    byte at shifts 7, 14, ..., and [tail].  The two differ, for instance on
    the bytes 0x95 0x01. *)
Theorem two_size_decoders first cs tail :
  chained first cs = true ->
  next_size_and_type (first :: cs ++ tail)
  = Ok (type_name ((b2z first / 16) mod 8), b2z first mod 16 + continuation_sum 4 cs, tail) /\
  next_size (first :: cs ++ tail)
  = Ok (b2z first mod 128 + continuation_sum 7 cs, tail) /\
  next_size_and_type [x95; x01] = Ok ("commit"%string, 21, []) /\
  next_size [x95; x01] = Ok (149, []).
Proof.
  intros Hch. unfold next_size_and_type, next_size.
  rewrite !size_loop_chained by (lia || exact Hch).
  rewrite byte_type_bits, byte_low4, byte_low7.
  repeat split; reflexivity.
Qed.

Lemma two_size_decoders_witness :
  chained xf5 [x8a; x03] = true /\
  next_size_and_type ([xf5; x8a; x03] ++ bs "rest")
  = Ok ("ref_delta"%string, 5 + 10 * 2 ^ 4 + 3 * 2 ^ 11, bs "rest") /\
  next_size ([xf5; x8a; x03] ++ bs "rest")
  = Ok (117 + 10 * 2 ^ 7 + 3 * 2 ^ 14, bs "rest").
Proof.
  split; [reflexivity|].
  destruct (two_size_decoders xf5 [x8a; x03] (bs "rest") eq_refl) as (H1 & H2 & _).
  split; [exact H1 | exact H2].
Defined.

(** *** Delta programs *)

Lemma index_head c rest : index (c :: rest) 0 = Ok (b2z c).
Proof. reflexivity. Qed.

Lemma index_range content i v : index content i = Ok v -> 0 <= v < 256.
Proof.
  unfold index. destruct (content !! i) as [b|]; cbn; [|discriminate].
  intros [= <-]. apply b2z_range.
Qed.

Lemma read_fields_nonneg content lo bits : forall acc data_ptr v p,
  0 <= acc -> read_fields content lo bits acc data_ptr = Ok (v, p) ->
  0 <= v /\ (data_ptr <= p)%nat.
Proof.
  induction bits as [|i bits IH]; intros acc data_ptr v p Hacc Hr; cbn [read_fields] in Hr.
  - injection Hr as <- <-. split; [exact Hacc|lia].
  - destruct (index content 0) as [c0|e]; [|discriminate Hr]. cbn [mbind result_bind] in Hr.
    destruct (Z.land c0 (Z.shiftl 1 (lo + i)) =? 0); [eauto|].
    destruct (index content data_ptr) as [b|e] eqn:Eb; [|discriminate Hr].
    cbn [mbind result_bind] in Hr.
    apply IH in Hr as [Hv Hp]; [split; [exact Hv|lia]|].
    apply Z.lor_nonneg. split; [exact Hacc|].
    apply Z.shiftl_nonneg. eapply index_range, Eb.
Qed.

Lemma index_error content i e : index content i = Err e -> e = IndexError.
Proof.
  unfold index. destruct (content !! i); cbn; congruence.
Qed.

Lemma read_fields_error content lo bits : forall acc data_ptr e,
  read_fields content lo bits acc data_ptr = Err e -> e = IndexError.
Proof.
  induction bits as [|i bits IH]; intros acc data_ptr e Hr; cbn [read_fields] in Hr;
    [discriminate Hr|].
  destruct (index content 0) as [c0|e0] eqn:E0; cbn [mbind result_bind] in Hr;
    [|injection Hr as <-; eapply index_error, E0].
  destruct (Z.land c0 (Z.shiftl 1 (lo + i)) =? 0); [eauto|].
  destruct (index content data_ptr) as [b|e1] eqn:E1; cbn [mbind result_bind] in Hr;
    [eauto|injection Hr as <-; eapply index_error, E1].
Qed.

Lemma copy_operands_inv content offset size data_ptr :
  copy_operands content = Ok (offset, size, data_ptr) ->
  0 <= offset /\ 0 <= size /\ (1 <= data_ptr)%nat.
Proof.
  unfold copy_operands.
  destruct (read_fields content 0 [0; 1; 2; 3] 0 1) as [[o p1]|e] eqn:E1; [|discriminate].
  cbn [mbind result_bind].
  destruct (read_fields content 4 [0; 1; 2] 0 p1) as [[s p2]|e] eqn:E2; [|discriminate].
  cbn [mbind result_bind mret result_ret]. intros [= <- <- <-].
  apply read_fields_nonneg in E1 as [Ho Hp1]; [|lia].
  apply read_fields_nonneg in E2 as [Hs Hp2]; [|lia].
  repeat split; (assumption || lia).
Qed.

Lemma copy_operands_error content e : copy_operands content = Err e -> e = IndexError.
Proof.
  unfold copy_operands.
  destruct (read_fields content 0 [0; 1; 2; 3] 0 1) as [[o p1]|e1] eqn:E1.
  - cbn [mbind result_bind].
    destruct (read_fields content 4 [0; 1; 2] 0 p1) as [[s p2]|e2] eqn:E2; [discriminate|].
    cbn [mbind result_bind]. intros [= <-]. eapply read_fields_error, E2.
  - cbn [mbind result_bind]. intros [= <-]. eapply read_fields_error, E1.
Qed.

(** One iteration of the loop on a copy instruction. *)
Lemma delta_loop_copy n base c rest target offset size data_ptr :
  128 <= b2z c ->
  copy_operands (c :: rest) = Ok (offset, size, data_ptr) ->
  delta_loop (S n) base (c :: rest) target
  = delta_loop n base (drop data_ptr (c :: rest))
      (target ++ slice base (Z.to_nat offset) (Z.to_nat (offset + size))).
Proof.
  intros Hc Hop. cbn [delta_loop]. rewrite byte_msb.
  replace (b2z c <? 128) with false by (symmetry; apply Z.ltb_ge; exact Hc).
  rewrite Hop. reflexivity.
Qed.

(** The bound of [apply_delta] is never reached. *)
Lemma delta_loop_fuel fuel : forall base content target,
  (length content <= fuel)%nat -> delta_loop fuel base content target <> Err OutOfFuel.
Proof.
  induction fuel as [|n IH]; intros base content target Hlen.
  - destruct content; [discriminate|cbn [length] in Hlen; lia].
  - destruct content as [|c rest]; [discriminate|]. cbn [delta_loop].
    destruct (Z.land (b2z c) 128 =? 0).
    + apply IH. rewrite length_drop. cbn [length] in *. lia.
    + destruct (copy_operands (c :: rest)) as [[[o s] p]|e] eqn:E.
      * cbn [mbind result_bind]. apply IH. rewrite length_drop.
        apply copy_operands_inv in E as (_ & _ & Hp). cbn [length] in *. lia.
      * cbn [mbind result_bind]. apply copy_operands_error in E as ->. discriminate.
Qed.

Lemma apply_delta_total base content : apply_delta base content <> Err OutOfFuel.
Proof. apply delta_loop_fuel. reflexivity. Qed.

Lemma byte_size_bits b :
  Z.land (b2z b) 112 = 0 ->
  (Z.land (b2z b) (Z.shiftl 1 (4 + 0)) =? 0) = true /\
  (Z.land (b2z b) (Z.shiftl 1 (4 + 1)) =? 0) = true /\
  (Z.land (b2z b) (Z.shiftl 1 (4 + 2)) =? 0) = true.
Proof. destruct b; vm_compute; intros Hb; try discriminate Hb; auto. Qed.

(** C5 (what the code does, against the claim): a copy instruction without
    size bytes decodes to size 0, and the iteration that runs it appends
    nothing to the output; the size is not replaced by 0x10000. *)
Theorem copy_without_size_bytes n base c rest target offset size data_ptr :
  128 <= b2z c -> Z.land (b2z c) 0x70 = 0 ->
  copy_operands (c :: rest) = Ok (offset, size, data_ptr) ->
  size = 0 /\
  slice base (Z.to_nat offset) (Z.to_nat (offset + size)) = [] /\
  delta_loop (S n) base (c :: rest) target
  = delta_loop n base (drop data_ptr (c :: rest)) target.
Proof.
  intros Hc Hbits Hop.
  assert (Hs : size = 0).
  { unfold copy_operands in Hop.
    destruct (read_fields (c :: rest) 0 [0; 1; 2; 3] 0 1) as [[o p1]|e]; [|discriminate Hop].
    cbn [mbind result_bind read_fields] in Hop. rewrite index_head in Hop.
    cbn [mbind result_bind] in Hop.
    destruct (byte_size_bits c Hbits) as (-> & -> & ->) in Hop.
    injection Hop as _ <- _. reflexivity. }
  subst size. split; [reflexivity|].
  assert (He : slice base (Z.to_nat offset) (Z.to_nat (offset + 0)) = []).
  { unfold slice. rewrite Z.add_0_r, Nat.sub_diag. reflexivity. }
  split; [exact He|].
  rewrite (delta_loop_copy n base c rest target offset 0 data_ptr Hc Hop), He, app_nil_r.
  reflexivity.
Qed.

Lemma copy_without_size_bytes_witness :
  128 <= b2z x80 /\ Z.land (b2z x80) 0x70 = 0 /\
  copy_operands [x80] = Ok (0, 0, 1%nat) /\
  apply_delta (bs "abc") [x80] = Ok [] /\
  delta_result (repeat x61 (Z.to_nat 65536)) [x80; x80; x04; x80; x80; x04; x80] = Ok [].
Proof.
  split; [vm_compute; discriminate|]. split; [reflexivity|]. split; [reflexivity|].
  destruct (copy_without_size_bytes 0 (bs "abc") x80 [] [] 0 0 1%nat) as (_ & _ & Hloop);
    [vm_compute; discriminate | reflexivity | reflexivity |].
  split; [|vm_compute; reflexivity].
  unfold apply_delta. cbn [length]. rewrite Hloop. reflexivity.
Defined.

Lemma slice_take_drop {A} (l : list A) (offset size : Z) :
  0 <= offset -> 0 <= size ->
  slice l (Z.to_nat offset) (Z.to_nat (offset + size))
  = take (Z.to_nat size) (drop (Z.to_nat offset) l).
Proof.
  intros Ho Hs. unfold slice. f_equal. lia.
Qed.

(** C6, as the code has it: a copy instruction never fails for its range.
    The iteration that runs it appends the part of
    [base[offset : offset + size]] that lies within the base, which is
    [min size (len base - offset)] bytes long, and goes on with the rest of
    the program. *)
Theorem copy_clamps_to_base n base c rest target offset size data_ptr :
  128 <= b2z c ->
  copy_operands (c :: rest) = Ok (offset, size, data_ptr) ->
  delta_loop (S n) base (c :: rest) target
  = delta_loop n base (drop data_ptr (c :: rest))
      (target ++ take (Z.to_nat size) (drop (Z.to_nat offset) base)) /\
  length (take (Z.to_nat size) (drop (Z.to_nat offset) base))
  = Nat.min (Z.to_nat size) (length base - Z.to_nat offset).
Proof.
  intros Hc Hop. pose proof (copy_operands_inv _ _ _ _ Hop) as (Ho & Hs & _). split.
  - rewrite (delta_loop_copy n base c rest target offset size data_ptr Hc Hop).
    rewrite slice_take_drop by assumption. reflexivity.
  - rewrite length_take, length_drop. reflexivity.
Qed.

Lemma copy_clamps_to_base_witness :
  128 <= b2z x91 /\
  copy_operands [x91; x01; x0a] = Ok (1, 10, 3%nat) /\
  delta_loop 3 (bs "abc") [x91; x01; x0a] [] = delta_loop 2 (bs "abc") [] (bs "bc") /\
  length (bs "bc") = Nat.min 10 (3 - 1).
Proof.
  split; [vm_compute; discriminate|]. split; [reflexivity|].
  exact (copy_clamps_to_base 2 (bs "abc") x91 [x01; x0a] [] 1 10 3%nat
           ltac:(vm_compute; discriminate) eq_refl).
Defined.

(** C6 fails as stated: the copy instruction [offset = 1, size = 10] ranges
    over [1, 11) of a base of three bytes, and the program returns the two
    bytes there are. *)
Lemma copy_beyond_base_succeeds :
  copy_operands [x91; x01; x0a] = Ok (1, 10, 3%nat) /\
  (Z.of_nat (length (bs "abc")) < 1 + 10) /\
  apply_delta (bs "abc") [x91; x01; x0a] = Ok (bs "bc").
Proof. split; [reflexivity|]. split; [vm_compute; reflexivity|reflexivity]. Qed.

(** *** The [ref_delta] case *)

Lemma split1_head sep l : forall h t, split1 sep l = h :: t -> sep ∉ h.
Proof.
  induction l as [|b l IH]; intros h t Hs; cbn [split1] in Hs.
  - injection Hs as <- _. apply not_elem_of_nil.
  - destruct (decide (b = sep)) as [->|Hne].
    + injection Hs as <- _. apply not_elem_of_nil.
    + destruct (split1 sep l) as [|h' t'] eqn:E.
      * injection Hs as <- _. rewrite elem_of_cons, elem_of_nil. intros [?|?]; congruence.
      * injection Hs as <- _. rewrite elem_of_cons. intros [?|?]; [congruence|].
        eapply IH; eauto.
Qed.

Lemma split_all_pieces sep l : forall piece,
  piece ∈ split_all sep l -> (sep ∉ piece) /\ forall b, b ∈ piece -> b ∈ l.
Proof.
  induction l as [|b l IH]; intros piece Hin; cbn [split_all] in Hin.
  - apply list_elem_of_singleton in Hin as ->. split; [apply not_elem_of_nil|auto].
  - destruct (decide (b = sep)) as [->|Hne].
    + apply elem_of_cons in Hin as [->|Hin].
      * split; [apply not_elem_of_nil|]. intros b Hb. inversion Hb.
      * destruct (IH _ Hin) as [H1 H2]. split; [exact H1|].
        intros b Hb. apply elem_of_cons. auto.
    + destruct (split_all sep l) as [|h t] eqn:E.
      * apply list_elem_of_singleton in Hin as ->. split.
        -- rewrite elem_of_cons, elem_of_nil. intros [?|?]; congruence.
        -- intros b' Hb'. apply list_elem_of_singleton in Hb' as ->. apply elem_of_cons. auto.
      * apply elem_of_cons in Hin as [->|Hin].
        -- destruct (IH h) as [H1 H2]; [apply elem_of_cons; auto|]. split.
           ++ rewrite elem_of_cons. intros [?|?]; [congruence|auto].
           ++ intros b' Hb'. apply elem_of_cons in Hb' as [->|Hb']; apply elem_of_cons; auto.
        -- destruct (IH piece) as [H1 H2]; [apply elem_of_cons; auto|]. split; [exact H1|].
           intros b' Hb'. apply elem_of_cons. auto.
Qed.

Lemma encode_string_of_bytes (l : bytes) : encode (string_of_list_byte l) = l.
Proof. apply list_byte_of_string_of_list_byte. Qed.

(** The type that [read_object] returns is text without blank or NUL. *)
Lemma read_object_plain `{Zlib} cwd sha parent fs tip content :
  read_object cwd sha parent fs = Ok (tip, content) -> plain_category tip.
Proof.
  unfold read_object.
  destruct (read_bytes cwd fs _) as [raw|e]; [|discriminate]. cbn [mbind result_bind].
  destruct (decompress raw) as [inflated|e]; [|discriminate]. cbn [mbind result_bind].
  destruct (split1 x00 inflated) as [|head [|c [|x xs]]] eqn:E1; try discriminate.
  cbn [unpack2 mbind result_bind].
  destruct (split_all x20 head) as [|t [|l [|x xs]]] eqn:E2; try discriminate.
  cbn [unpack2 mbind result_bind]. unfold decode.
  destruct (utf8_valid t) eqn:Ev; [|discriminate].
  cbn [mbind result_bind mret result_ret]. intros [= <- <-].
  pose proof (split1_head _ _ _ _ E1) as Hh.
  destruct (split_all_pieces x20 head t) as [Ht1 Ht2]; [rewrite E2; apply elem_of_cons; auto|].
  unfold plain_category. rewrite encode_string_of_bytes.
  split; [exact Ev|]. split; [|exact Ht1]. intros H0. apply Hh, Ht2, H0.
Qed.

(** C2: when the [ref_delta] case succeeds, the base object was read from
    the store under the OID that follows the entry header, the delta's
    program was applied to its payload, and the output was stored by
    [create_object] with the base's type: its OID is the SHA-1 of its framed
    form, and reading that OID back gives the base's type and the output.
    The program of the example turns "The quick brown fox" into "The
    quicklazy brown fox". *)
Theorem ref_delta_stored `{ZlibLaws} cwd pack_file parent fs rest fs' :
  unpack_ref_delta cwd pack_file parent fs = Ok (rest, fs') ->
  (exists delta base_tip base_content target oid,
     decompress_stream (drop 20 pack_file) = Ok (delta, rest) /\
     read_object cwd (hex (take 20 pack_file)) parent fs = Ok (base_tip, base_content) /\
     delta_result base_content delta = Ok target /\
     create_object cwd base_tip target parent fs = Ok (oid, fs') /\
     oid = sha1_hexdigest (frame base_tip target) /\
     read_object cwd oid parent fs' = Ok (base_tip, target)) /\
  delta_result fox_base fox_delta = Ok fox_target.
Proof.
  intros Hu. split; [|reflexivity]. unfold unpack_ref_delta in Hu.
  destruct (decompress_stream (drop 20 pack_file)) as [[delta rest0]|e] eqn:Ed;
    [|discriminate Hu]. cbn [mbind result_bind] in Hu.
  destruct (read_object cwd _ parent fs) as [[base_tip base_content]|e] eqn:Er;
    [|discriminate Hu]. cbn [mbind result_bind] in Hu.
  destruct (next_size delta) as [[s1 d1]|e] eqn:E1; [|discriminate Hu].
  cbn [mbind result_bind] in Hu.
  destruct (next_size d1) as [[s2 program]|e] eqn:E2; [|discriminate Hu].
  cbn [mbind result_bind] in Hu.
  destruct (apply_delta base_content program) as [target|e] eqn:Ea; [|discriminate Hu].
  cbn [mbind result_bind] in Hu.
  destruct (create_object cwd base_tip target parent fs) as [[oid fs1]|e] eqn:Ec;
    [|discriminate Hu]. cbn [mbind result_bind mret result_ret] in Hu.
  injection Hu as <- <-.
  exists delta, base_tip, base_content, target, oid.
  split; [reflexivity|]. split; [reflexivity|]. split.
  { unfold delta_result. rewrite E1. cbn [mbind result_bind]. rewrite E2. exact Ea. }
  split; [exact Ec|]. split.
  - apply create_object_inv in Ec as [Ho _]. exact Ho.
  - exact (get_put_plain cwd base_tip target parent fs oid fs1
             (read_object_plain cwd _ parent fs base_tip base_content Er) Ec).
Qed.

Lemma ref_delta_stored_witness :
  match unpack_ref_delta repo fox_entry (getcwd repo) fox_repo with
  | Ok (rest, fs') =>
      rest = bs "next" /\
      read_object repo (sha1_hexdigest (frame "blob" fox_target)) (getcwd repo) fs'
      = Ok ("blob"%string, fox_target)
  | Err _ => False
  end.
Proof.
  assert (Hok : (λ r, match r with Ok (rest, _) => bool_decide (rest = bs "next") | Err _ => false end)
                (unpack_ref_delta repo fox_entry (getcwd repo) fox_repo) = true)
    by (vm_compute; reflexivity).
  assert (Hbase : read_object repo (hex (take 20 fox_entry)) (getcwd repo) fox_repo
                  = Ok ("blob"%string, fox_base)) by (vm_compute; reflexivity).
  assert (Hdelta : fst <$> decompress_stream (drop 20 fox_entry) = Ok fox_delta)
    by (vm_compute; reflexivity).
  destruct (unpack_ref_delta repo fox_entry (getcwd repo) fox_repo) as [[rest fs']|e] eqn:E;
    [|discriminate Hok].
  cbv beta iota in Hok. apply bool_decide_eq_true in Hok. split; [exact Hok|].
  destruct (ref_delta_stored repo fox_entry (getcwd repo) fox_repo rest fs' E)
    as [(delta & tip & base & target & oid & Hd & Hr & Hres & _ & Ho & Hget) Hfox].
  rewrite Hbase in Hr. injection Hr as <- <-.
  rewrite Hd in Hdelta. injection Hdelta as ->.
  rewrite Hfox in Hres. injection Hres as <-.
  rewrite <- Ho. exact Hget.
Defined.

(** ** Tree capture *)

(** *** The order of names *)

Lemma bytes_ltb_irrefl a : bytes_ltb a a = false.
Proof.
  induction a as [|x a IH]; [reflexivity|]. cbn [bytes_ltb].
  rewrite Z.ltb_irrefl. exact IH.
Qed.

Lemma bytes_ltb_trans a : forall b c,
  bytes_ltb a b = true -> bytes_ltb b c = true -> bytes_ltb a c = true.
Proof.
  induction a as [|x a IH]; intros [|y b] [|z c]; cbn [bytes_ltb]; try congruence.
  repeat case Z.ltb_spec; intros; try lia; try congruence; eauto.
Qed.

Lemma bytes_ltb_connex a : forall b,
  bytes_ltb a b = false -> bytes_ltb b a = false -> a = b.
Proof.
  induction a as [|x a IH]; intros [|y b]; cbn [bytes_ltb]; try congruence.
  repeat case Z.ltb_spec; intros; try lia; try congruence.
  f_equal; [apply b2z_inj; lia|eauto].
Qed.

Lemma bytes_ltb_asym a b : bytes_ltb a b = true -> bytes_ltb b a = false.
Proof.
  intros Hab. destruct (bytes_ltb b a) eqn:Hba; [|reflexivity].
  rewrite <- (bytes_ltb_irrefl a). symmetry. eapply bytes_ltb_trans; eassumption.
Qed.

Lemma bytes_leb_trans a b c :
  bytes_leb a b = true -> bytes_leb b c = true -> bytes_leb a c = true.
Proof.
  unfold bytes_leb. rewrite !negb_true_iff. intros Hba Hcb.
  destruct (bytes_ltb c a) eqn:Hca; [|reflexivity].
  destruct (bytes_ltb a b) eqn:Hab.
  - assert (bytes_ltb c b = true) by (eapply bytes_ltb_trans; eassumption). congruence.
  - rewrite (bytes_ltb_connex a b Hab Hba) in Hca. congruence.
Qed.

Section SortedBy.
Context {A : Type} (key : A -> string).

Lemma insert_by_Forall (P : A -> Prop) x l :
  P x -> Forall P l -> Forall P (insert_by key x l).
Proof.
  intros Hx Hl. induction Hl as [|y l Hy Hl IH]; cbn [insert_by].
  - constructor; [exact Hx|constructor].
  - destruct (str_ltb (key y) (key x)); constructor; auto.
Qed.

Lemma insert_by_ascending x l : ascending key l -> ascending key (insert_by key x l).
Proof.
  unfold ascending. intros Hl. induction Hl as [|y l Hl IH Hy]; cbn [insert_by].
  - constructor; constructor.
  - destruct (str_ltb (key y) (key x)) eqn:Hlt.
    + constructor; [exact IH|]. apply insert_by_Forall; [|exact Hy].
      unfold bytes_leb. rewrite negb_true_iff. apply bytes_ltb_asym. exact Hlt.
    + assert (Hxy : bytes_leb (encode (key x)) (encode (key y)) = true)
        by (unfold bytes_leb; rewrite negb_true_iff; exact Hlt).
      constructor; [constructor; assumption|]. constructor; [exact Hxy|].
      eapply Forall_impl; [exact Hy|]. intros z Hyz. eapply bytes_leb_trans; eassumption.
Qed.

Lemma sorted_by_ascending l : ascending key (sorted_by key l).
Proof.
  induction l as [|x l IH]; cbn [sorted_by]; [constructor|].
  apply insert_by_ascending, IH.
Qed.

Lemma insert_by_perm x l : insert_by key x l ≡ₚ x :: l.
Proof.
  induction l as [|y l IH]; cbn [insert_by]; [reflexivity|].
  destruct (str_ltb (key y) (key x)); [|reflexivity].
  rewrite IH. apply Permutation_swap.
Qed.

Lemma sorted_by_perm l : sorted_by key l ≡ₚ l.
Proof.
  induction l as [|x l IH]; cbn [sorted_by]; [reflexivity|].
  rewrite insert_by_perm, IH. reflexivity.
Qed.

Lemma ascending_filter (P : A -> bool) l :
  ascending key l -> ascending key (List.filter P l).
Proof.
  unfold ascending. intros Hl. induction Hl as [|y l Hl IH Hy]; cbn [List.filter].
  - constructor.
  - destruct (P y); [|exact IH]. constructor; [exact IH|].
    rewrite List.Forall_forall in *. intros z Hz. apply Hy.
    apply List.filter_In in Hz. tauto.
Qed.

End SortedBy.

(** *** What [write_tree] emits for a directory *)

Lemma filter_perm {A} (P : A -> bool) (l l' : list A) :
  l ≡ₚ l' -> List.filter P l ≡ₚ List.filter P l'.
Proof.
  induction 1 as [|x l l' Hl IH|x y l|l1 l2 l3 H1 IH1 H2 IH2]; cbn [List.filter].
  - reflexivity.
  - destruct (P x); [rewrite IH|]; trivial.
  - destruct (P x), (P y); trivial. apply Permutation_swap.
  - etrans; eassumption.
Qed.

Section Capture.
Context `{Zlib}.
Variable cwd : list string.

Lemma write_entries_names rec path contents : forall acc fs entries fs',
  write_entries cwd rec path contents acc fs = Ok (entries, fs') ->
  map e_name entries = map e_name acc ++ List.filter not_git contents.
Proof.
  induction contents as [|item contents IH]; intros acc fs entries fs' Hw;
    cbn [write_entries List.filter] in *.
  - injection Hw as <- <-. rewrite app_nil_r. reflexivity.
  - unfold not_git at 1. destruct (String.eqb item ".git"); cbn [negb]; [eauto|].
    destruct (rec (path ++ [item]) fs) as [[sha fs1]|e]; [|discriminate Hw].
    cbn [mbind result_bind] in Hw.
    destruct (int16 0 sha) as [v|e]; [|discriminate Hw]. cbn [mbind result_bind] in Hw.
    destruct (to_bytes 20 v) as [oid|e]; [|discriminate Hw]. cbn [mbind result_bind] in Hw.
    apply IH in Hw. rewrite Hw, map_app, <- app_assoc. reflexivity.
Qed.

Lemma write_tree_dir_inv n path fs oid fs' :
  is_file cwd fs path = false ->
  write_tree cwd (S n) path fs = Ok (oid, fs') ->
  exists names entries fs1 fs2,
    listdir cwd fs path = Ok names /\
    write_entries cwd (write_tree cwd n) path
      (sorted_by (sort_key (fun x => is_file cwd fs (path ++ [x]))) names) [] fs
    = Ok (entries, fs1) /\
    oid = sha1_hexdigest (frame "tree" (concat (map entry_bytes entries))) /\
    mkdir_parents cwd fs1 (path_parent (tree_object_path oid)) = Ok fs2 /\
    write_bytes cwd fs2 (tree_object_path oid)
      (compress Z_DEFAULT_COMPRESSION (frame "tree" (concat (map entry_bytes entries))))
    = Ok fs'.
Proof.
  intros Hf Hw. cbn [write_tree] in Hw. rewrite Hf in Hw.
  destruct (listdir cwd fs path) as [names|e]; [|discriminate Hw].
  cbn [mbind result_bind] in Hw.
  destruct (write_entries cwd _ path _ [] fs) as [[entries fs1]|e] eqn:Ee; [|discriminate Hw].
  cbn [mbind result_bind] in Hw.
  fold (tree_object_path (sha1_hexdigest (frame "tree" (concat (map entry_bytes entries)))))
    in Hw.
  destruct (mkdir_parents cwd fs1 _) as [fs2|e] eqn:Em; [|discriminate Hw].
  cbn [mbind result_bind] in Hw.
  destruct (write_bytes cwd fs2 _ _) as [fs3|e] eqn:Ew; [|discriminate Hw].
  cbn [mbind result_bind mret result_ret] in Hw. injection Hw as <- <-.
  exists names, entries, fs1, fs2. auto.
Qed.

End Capture.

(** C3: the entries of the tree object that [write_tree] writes for a
    directory are the names listed in it other than [.git], in ascending
    byte order of the key that is the name for a regular file and the name
    followed by [/] otherwise.
    So the file [foo] comes before the directory [foo-bar], and the file
    [foo-bar] before the directory [foo]. *)
Theorem tree_entries_ascending `{Zlib} cwd n path fs oid fs' :
  is_file cwd fs path = false ->
  write_tree cwd (S n) path fs = Ok (oid, fs') ->
  (exists names entries,
     listdir cwd fs path = Ok names /\
     oid = sha1_hexdigest (frame "tree" (concat (map entry_bytes entries))) /\
     read_bytes cwd fs' (tree_object_path oid)
     = Ok (compress Z_DEFAULT_COMPRESSION (frame "tree" (concat (map entry_bytes entries)))) /\
     map e_name entries ≡ₚ List.filter not_git names /\
     ascending (sort_key (fun x => is_file cwd fs (path ++ [x]))) (map e_name entries)) /\
  (forall isfile : string -> bool,
     isfile "foo" = true -> isfile "foo-bar" = false ->
     sorted_by (sort_key isfile) ["foo-bar"; "foo"]%string = ["foo"; "foo-bar"]%string /\
     sorted_by (sort_key isfile) ["foo"; "foo-bar"]%string = ["foo"; "foo-bar"]%string) /\
  (forall isfile : string -> bool,
     isfile "foo" = false -> isfile "foo-bar" = true ->
     sorted_by (sort_key isfile) ["foo-bar"; "foo"]%string = ["foo-bar"; "foo"]%string /\
     sorted_by (sort_key isfile) ["foo"; "foo-bar"]%string = ["foo-bar"; "foo"]%string).
Proof.
  intros Hf Hw. split; [|split].
  - destruct (write_tree_dir_inv cwd n path fs oid fs' Hf Hw)
      as (names & entries & fs1 & fs2 & Hl & He & Ho & _ & Hwr).
    apply write_entries_names in He. cbn [map app] in He.
    exists names, entries. split; [exact Hl|]. split; [exact Ho|].
    split; [eapply write_bytes_read, Hwr|]. rewrite He. split.
    + apply filter_perm, sorted_by_perm.
    + apply ascending_filter, sorted_by_ascending.
  - intros isfile H1 H2. cbn [sorted_by insert_by]. unfold sort_key. rewrite H1, H2.
    split; reflexivity.
  - intros isfile H1 H2. cbn [sorted_by insert_by]. unfold sort_key. rewrite H1, H2.
    split; reflexivity.
Qed.

Lemma tree_entries_ascending_witness :
  is_file repo foo_file_repo (getcwd repo) = false /\
  fst <$> write_tree repo 2 (getcwd repo) foo_file_repo
  = Ok (sha1_hexdigest (frame "tree"
          (entry_bytes (Entry "100644" "foo" blob_A_oid)
           ++ entry_bytes (Entry "40000" "foo-bar" empty_tree_digest)))) /\
  fst <$> write_tree repo 2 (getcwd repo) foo_dir_repo
  = Ok (sha1_hexdigest (frame "tree"
          (entry_bytes (Entry "100644" "foo-bar" blob_A_oid)
           ++ entry_bytes (Entry "40000" "foo" empty_tree_digest)))) /\
  match write_tree repo 2 (getcwd repo) foo_file_repo with
  | Ok (oid, fs') =>
      exists names entries,
        listdir repo foo_file_repo (getcwd repo) = Ok names /\
        oid = sha1_hexdigest (frame "tree" (concat (map entry_bytes entries))) /\
        read_bytes repo fs' (tree_object_path oid)
        = Ok (compress Z_DEFAULT_COMPRESSION
                (frame "tree" (concat (map entry_bytes entries)))) /\
        map e_name entries ≡ₚ List.filter not_git names /\
        ascending (sort_key (fun x => is_file repo foo_file_repo (getcwd repo ++ [x])))
          (map e_name entries)
  | Err _ => False
  end.
Proof.
  split; [reflexivity|].
  split; [vm_compute; reflexivity|]. split; [vm_compute; reflexivity|].
  assert (Hok : is_ok (write_tree repo 2 (getcwd repo) foo_file_repo) = true)
    by (vm_compute; reflexivity).
  destruct (write_tree repo 2 (getcwd repo) foo_file_repo) as [[oid fs']|e] eqn:E;
    [|discriminate Hok].
  exact (proj1 (tree_entries_ascending repo 1 (getcwd repo) foo_file_repo oid fs' eq_refl E)).
Defined.

(** C9 (what the code does, against the claim): the tree object that
    [write_tree] writes for a directory is deflated at
    [Z_DEFAULT_COMPRESSION], the default of [zlib.compress], not at
    [Z_BEST_SPEED] as [create_object] does; with the stored codec the two
    levels give different bytes for the empty tree. *)
Theorem tree_object_default_level `{Zlib} cwd n path fs oid fs' :
  is_file cwd fs path = false ->
  write_tree cwd (S n) path fs = Ok (oid, fs') ->
  (exists tree_entries,
     oid = sha1_hexdigest (frame "tree" tree_entries) /\
     read_bytes cwd fs' (tree_object_path oid)
     = Ok (compress Z_DEFAULT_COMPRESSION (frame "tree" tree_entries))) /\
  Z_DEFAULT_COMPRESSION <> Z_BEST_SPEED /\
  Stored.deflate Z_DEFAULT_COMPRESSION (frame "tree" [])
  <> Stored.deflate Z_BEST_SPEED (frame "tree" []).
Proof.
  intros Hf Hw. split; [|split; [discriminate|vm_compute; discriminate]].
  destruct (write_tree_dir_inv cwd n path fs oid fs' Hf Hw)
    as (names & entries & fs1 & fs2 & _ & _ & Ho & _ & Hwr).
  exists (concat (map entry_bytes entries)). split; [exact Ho|].
  eapply write_bytes_read, Hwr.
Qed.

Lemma tree_object_default_level_witness :
  is_file repo init_repo (getcwd repo) = false /\
  write_tree repo 1 (getcwd repo) init_repo = Ok (empty_tree_oid, captured_repo) /\
  exists tree_entries,
    empty_tree_oid = sha1_hexdigest (frame "tree" tree_entries) /\
    read_bytes repo captured_repo (tree_object_path empty_tree_oid)
    = Ok (Stored.deflate Z_DEFAULT_COMPRESSION (frame "tree" tree_entries)).
Proof.
  split; [reflexivity|]. split; [exact write_tree_empty_repo|].
  exact (proj1 (tree_object_default_level repo 0 (getcwd repo) init_repo empty_tree_oid
                  captured_repo eq_refl write_tree_empty_repo)).
Defined.

(** ** Checkout *)

Section Checkout.
Context `{Zlib}.
Variable cwd : list string.

Lemma rendered_refl fs : rendered cwd fs fs [].
Proof.
  split; [apply kind_ext_refl|]. split; [|auto].
  intros p Hp. inversion Hp.
Qed.

Lemma rendered_trans fs fs1 fs2 w1 w2 :
  rendered cwd fs fs1 w1 -> rendered cwd fs1 fs2 w2 -> rendered cwd fs fs2 (w1 ++ w2).
Proof.
  intros (He1 & Hf1 & Hk1) (He2 & Hf2 & Hk2).
  split; [eapply kind_ext_trans; eassumption|]. split.
  - intros p Hp. apply elem_of_app in Hp as [Hp|Hp]; [|auto].
    eapply is_file_mono; [exact He2|auto].
  - intros k v Hk Hn. rewrite fmap_app in Hn. apply not_elem_of_app in Hn as [Hn1 Hn2]. auto.
Qed.

Lemma rendered_mkdir fs p fs' : mkdir_parents cwd fs p = Ok fs' -> rendered cwd fs fs' [].
Proof.
  intros Hm. apply mkdir_loop_post in Hm as (Hs & He & _).
  split; [exact He|]. split.
  - intros q Hq. inversion Hq.
  - intros k v Hk _. eapply lookup_weaken; eassumption.
Qed.

Lemma read_bytes_is_file fs p data : read_bytes cwd fs p = Ok data -> is_file cwd fs p = true.
Proof.
  unfold read_bytes, is_file. destruct (resolve cwd fs p) as [k|e]; [|discriminate].
  cbn [mbind result_bind]. destruct (node_at fs k) as [[d|]|]; try discriminate. reflexivity.
Qed.

Lemma rendered_write fs p data fs' :
  write_bytes cwd fs p data = Ok fs' -> rendered cwd fs fs' [p].
Proof.
  intros Hw. split; [eapply write_bytes_kind_ext, Hw|]. split.
  - intros q Hq. apply list_elem_of_singleton in Hq as ->.
    eapply read_bytes_is_file, write_bytes_read, Hw.
  - intros k v Hk Hn. apply write_bytes_inv in Hw as (_ & _ & ->).
    rewrite lookup_insert_ne; [exact Hk|].
    intros <-. apply Hn. cbn. apply elem_of_cons. auto.
Qed.

Lemma render_entries_rendered rec parent directory :
  (forall d s fs fs' w, rec d s fs = Ok (fs', w) -> rendered cwd fs fs' w) ->
  forall fuel tree_data fs fs' w,
    render_entries cwd rec fuel parent directory tree_data fs = Ok (fs', w) ->
    rendered cwd fs fs' w.
Proof.
  intros Hrec fuel. induction fuel as [|n IH]; intros tree_data fs fs' w Hr;
    destruct tree_data as [|b0 tree_data]; cbn [render_entries] in Hr;
    try (injection Hr as <- <-; apply rendered_refl); [discriminate Hr|].
  destruct (unpack2 (split1 x20 (b0 :: tree_data))) as [[mode td1]|e]; [|discriminate Hr].
  cbn [mbind result_bind] in Hr.
  destruct (unpack2 (split1 x00 td1)) as [[name td2]|e]; [|discriminate Hr].
  cbn [mbind result_bind] in Hr.
  destruct (decide (mode = bs "40000")) as [Hm|Hm].
  - destruct (decode name) as [name'|e]; [|discriminate Hr]. cbn [mbind result_bind] in Hr.
    destruct (rec (path_div directory name') (hex (take 20 td2)) fs) as [[fs1 w1]|e] eqn:E1;
      [|discriminate Hr]. cbn [mbind result_bind] in Hr.
    destruct (render_entries cwd rec n parent directory (drop 20 td2) fs1)
      as [[fs2 w2]|e] eqn:E2; [|discriminate Hr].
    cbn [mbind result_bind mret result_ret] in Hr. injection Hr as <- <-.
    eapply rendered_trans; eauto.
  - destruct (decide (mode = bs "100644")) as [Hm'|Hm']; [|discriminate Hr].
    destruct (read_object cwd (hex (take 20 td2)) parent fs) as [[t content]|e];
      [|discriminate Hr]. cbn [mbind result_bind] in Hr.
    destruct (decode name) as [name'|e]; [|discriminate Hr]. cbn [mbind result_bind] in Hr.
    destruct (write_bytes cwd fs (path_div directory name') content) as [fs1|e] eqn:E1;
      [|discriminate Hr]. cbn [mbind result_bind] in Hr.
    destruct (render_entries cwd rec n parent directory (drop 20 td2) fs1)
      as [[fs2 w2]|e] eqn:E2; [|discriminate Hr].
    cbn [mbind result_bind mret result_ret] in Hr. injection Hr as <- <-.
    change (path_div directory name' :: w2) with ([path_div directory name'] ++ w2).
    eapply rendered_trans; [eapply rendered_write, E1|eauto].
Qed.

Lemma render_tree_log_rendered parent fuel : forall directory sha fs fs' w,
  render_tree_log cwd fuel parent directory sha fs = Ok (fs', w) -> rendered cwd fs fs' w.
Proof.
  induction fuel as [|n IH]; intros directory sha fs fs' w Hr; cbn [render_tree_log] in Hr;
    [discriminate Hr|].
  destruct (mkdir_parents cwd fs directory) as [fs1|e] eqn:Em; [|discriminate Hr].
  cbn [mbind result_bind] in Hr.
  destruct (read_object cwd sha parent fs1) as [[t tree_data]|e]; [|discriminate Hr].
  cbn [mbind result_bind] in Hr.
  change w with ([] ++ w).
  eapply rendered_trans; [eapply rendered_mkdir, Em|].
  eapply render_entries_rendered; [exact (IH)|exact Hr].
Qed.

(** One iteration of the loop on a blob entry whose target is already a
    regular file: the file is written over and the loop goes on. *)
Lemma render_entries_over rec n parent directory name oid rest fs t content name' old :
  x00 ∉ name -> length oid = 20%nat ->
  read_object cwd (hex oid) parent fs = Ok (t, content) ->
  decode name = Ok name' ->
  read_bytes cwd fs (path_div directory name') = Ok old ->
  render_entries cwd rec (S n) parent directory
    (bs "100644" ++ x20 :: name ++ x00 :: oid ++ rest) fs
  = '(fs2, w2) ← render_entries cwd rec n parent directory rest
                   (<[locate cwd (path_div directory name') := File content]> fs);
    mret (fs2, path_div directory name' :: w2).
Proof.
  intros Hname Hoid Hobj Hdec Hold.
  change (bs "100644" ++ x20 :: name ++ x00 :: oid ++ rest)
    with (x31 :: bs "00644" ++ x20 :: name ++ x00 :: oid ++ rest).
  cbn [render_entries].
  change (x31 :: bs "00644" ++ x20 :: name ++ x00 :: oid ++ rest)
    with (bs "100644" ++ x20 :: name ++ x00 :: oid ++ rest).
  rewrite split1_app by (apply (bool_decide_unpack _); vm_compute; exact I).
  cbn [unpack2 mbind result_bind].
  rewrite split1_app by exact Hname. cbn [unpack2 mbind result_bind].
  rewrite take_app_length', drop_app_length' by (symmetry; exact Hoid).
  rewrite decide_False by (vm_compute; discriminate).
  rewrite decide_True by reflexivity.
  rewrite Hobj. cbn [mbind result_bind]. rewrite Hdec. cbn [mbind result_bind].
  rewrite (write_bytes_over _ _ _ _ _ Hold). reflexivity.
Qed.

End Checkout.

(** The run of the example writes [README] only, and [notes] keeps its
    content. *)
Example checkout_keeps_notes :
  snd <$> render_tree_log repo 2 (getcwd repo) (getcwd repo) readme_tree_oid checkout_repo
  = Ok [getcwd repo ++ ["README"%string]] /\
  (fs' ← render_tree repo 2 (getcwd repo) (getcwd repo) readme_tree_oid checkout_repo;
   read_bytes repo fs' (getcwd repo ++ ["notes"%string])) = Ok (bs "keep").
Proof. split; vm_compute; reflexivity. Qed.

(** ** The bounds of the model's loops are not reached *)

Lemma path_parent_length p : path_parent p <> p -> S (length (path_parent p)) = length p.
Proof.
  destruct p as [|a [|b p]]; cbn [path_parent]; [congruence| |].
  - destruct (String.eqb a "/"); [congruence|reflexivity].
  - intros _. rewrite (app_removelast_last a (l := a :: b :: p)) at 2 by discriminate.
    rewrite length_app. cbn [length]. lia.
Qed.

Lemma walk_error fs e : forall ps cur,
  walk fs cur ps = Err e -> e = FileNotFoundError \/ e = NotADirectoryError.
Proof.
  induction ps as [|q ps IH]; intros cur Hq; cbn [walk] in Hq; [discriminate|].
  destruct (node_at fs cur) as [[d|]|]; [injection Hq; auto|eauto|injection Hq; auto].
Qed.

Lemma os_mkdir_error cwd fs p e :
  os_mkdir cwd fs p = Err e ->
  e = FileNotFoundError \/ e = NotADirectoryError \/ e = FileExistsError.
Proof.
  unfold os_mkdir. destruct (resolve cwd fs p) as [k|e0] eqn:E; cbn [mbind result_bind].
  - destruct (node_at fs k); intros [= <-]; auto.
  - intros [= <-]. revert E. unfold resolve. destruct p as [|a ps]; [discriminate|].
    destruct (String.eqb a "/"); intros Hw; apply walk_error in Hw; tauto.
Qed.

Lemma mkdir_exist_ok_bound cwd fs p : mkdir_exist_ok cwd fs p <> Err OutOfFuel.
Proof.
  unfold mkdir_exist_ok. destruct (os_mkdir cwd fs p) as [fs1|e] eqn:E; [discriminate|].
  apply os_mkdir_error in E as [-> | [-> | ->]]; [discriminate| |];
    destruct (is_dir cwd fs p); discriminate.
Qed.

Lemma mkdir_loop_bound cwd fuel : forall fs p,
  (length p <= fuel)%nat -> mkdir_loop cwd fuel fs p <> Err OutOfFuel.
Proof.
  induction fuel as [|n IH]; intros fs p Hlen; cbn [mkdir_loop];
    (destruct (os_mkdir cwd fs p) as [fs1|e] eqn:E; [discriminate|]);
    apply os_mkdir_error in E as [-> | [-> | ->]];
    try (destruct (is_dir cwd fs p); discriminate);
    (destruct (decide (path_parent p = p)) as [Hp|Hp]; [discriminate|]);
    apply path_parent_length in Hp; [lia|].
  specialize (IH fs (path_parent p)).
  destruct (mkdir_loop cwd n fs (path_parent p)) as [fs1|e1]; cbn [mbind result_bind].
  - apply mkdir_exist_ok_bound.
  - intros [= ->]. apply IH; [lia|reflexivity].
Qed.

Lemma mkdir_parents_bound cwd fs p : mkdir_parents cwd fs p <> Err OutOfFuel.
Proof. apply mkdir_loop_bound. reflexivity. Qed.

Lemma split1_rest sep l : forall a b, unpack2 (split1 sep l) = Ok (a, b) ->
  (length b < length l)%nat.
Proof.
  induction l as [|c l IH]; intros a b Hs; cbn [split1] in Hs; [discriminate Hs|].
  destruct (decide (c = sep)).
  - injection Hs as _ <-. cbn [length]. lia.
  - destruct (split1 sep l) as [|h [|t [|x xs]]] eqn:E; try discriminate Hs.
    injection Hs as _ <-. specialize (IH h t eq_refl). cbn [length]. lia.
Qed.

(** With at least [length tree_data] iterations allowed, the loop of
    [render_tree] gives the same result whatever the bound. *)
Lemma render_entries_fuel `{Zlib} cwd rec parent directory : forall n m tree_data fs,
  (length tree_data <= n)%nat -> (length tree_data <= m)%nat ->
  render_entries cwd rec n parent directory tree_data fs
  = render_entries cwd rec m parent directory tree_data fs.
Proof.
  induction n as [|n IH]; intros m tree_data fs Hn Hm;
    destruct tree_data as [|b0 tree_data]; try (destruct m; reflexivity);
    [cbn [length] in Hn; lia|].
  destruct m as [|m]; [cbn [length] in Hm; lia|].
  cbn [render_entries].
  destruct (unpack2 (split1 x20 (b0 :: tree_data))) as [[mode td1]|e] eqn:E1; [|reflexivity].
  cbn [mbind result_bind].
  destruct (unpack2 (split1 x00 td1)) as [[name td2]|e] eqn:E2; [|reflexivity].
  cbn [mbind result_bind].
  apply split1_rest in E1. apply split1_rest in E2.
  assert (Hd : (length (drop 20 td2) <= n)%nat /\ (length (drop 20 td2) <= m)%nat)
    by (rewrite length_drop; cbn [length] in *; lia).
  destruct Hd as [Hdn Hdm].
  destruct (decide (mode = bs "40000")) as [Hm1|Hm1].
  - destruct (decode name) as [name'|e]; [|reflexivity]. cbn [mbind result_bind].
    destruct (rec (path_div directory name') (hex (take 20 td2)) fs) as [[fs1 w1]|e];
      [|reflexivity]. cbn [mbind result_bind].
    rewrite (IH m (drop 20 td2) fs1 Hdn Hdm). reflexivity.
  - destruct (decide (mode = bs "100644")) as [Hm2|Hm2]; [|reflexivity].
    destruct (read_object cwd (hex (take 20 td2)) parent fs) as [[t content]|e];
      [|reflexivity]. cbn [mbind result_bind].
    destruct (decode name) as [name'|e]; [|reflexivity]. cbn [mbind result_bind].
    destruct (write_bytes cwd fs (path_div directory name') content) as [fs1|e];
      [|reflexivity]. cbn [mbind result_bind].
    rewrite (IH m (drop 20 td2) fs1 Hdn Hdm). reflexivity.
Qed.

(** ** [create_object] succeeds on a store in good order *)

Lemma hex_digit_hex n : 0 <= n < 16 -> hex_char (hex_digit n) = true.
Proof.
  intros Hn. apply (Z_range_forallb (fun z => hex_char (hex_digit z)) 0 16);
    [reflexivity|lia].
Qed.

Lemma hex_hex_string l : hex_string (hex l) = true.
Proof.
  induction l as [|b l IH]; [reflexivity|]. cbn [hex hex_string].
  pose proof (b2z_range b) as Hb.
  rewrite !hex_digit_hex, IH; [reflexivity| |].
  - apply Z.mod_pos_bound. lia.
  - split; [apply Z.div_pos; lia|apply Z.div_lt_upper_bound; lia].
Qed.

Lemma hex_char_plain c :
  hex_char c = true -> Ascii.eqb c slash = false /\ Ascii.eqb c "."%char = false.
Proof.
  intros Hc. split.
  - destruct (Ascii.eqb_spec c slash) as [->|]; [discriminate Hc|reflexivity].
  - destruct (Ascii.eqb_spec c "."%char) as [->|]; [discriminate Hc|reflexivity].
Qed.

Lemma hex_string_components s : hex_string s = true -> components s = [s].
Proof.
  induction s as [|c s IH]; [reflexivity|]. cbn [hex_string components].
  intros Hs. apply andb_true_iff in Hs as [Hc Hs].
  rewrite (proj1 (hex_char_plain c Hc)), (IH Hs). reflexivity.
Qed.

(** A non-empty string of hexadecimal digits is one path part, and is
    neither [.] nor [..]. *)
Lemma hex_string_part p c s :
  hex_string (String c s) = true ->
  path_div p (String c s) = p ++ [String c s] /\
  forall cur, step cur (String c s) = cur ++ [String c s].
Proof.
  intros Hs. pose proof (hex_string_components _ Hs) as Hcomp.
  cbn [hex_string] in Hs. apply andb_true_iff in Hs as [Hc Hs].
  destruct (hex_char_plain c Hc) as [Hsl Hdot].
  assert (Hpre : String.prefix "/" (String c s) = false).
  { cbn [String.prefix]. destruct (ascii_dec "/" c) as [<-|]; [discriminate Hc|reflexivity]. }
  assert (Heq : forall t, String.eqb (String c s) (String "." t) = false).
  { intros t. cbn [String.eqb]. rewrite Hdot. reflexivity. }
  split.
  - unfold path_div, parse_path. rewrite Hpre, Hcomp. cbn [app].
    rewrite filter_cons, filter_nil. unfold is_part.
    change "."%string with (String "." EmptyString). rewrite Heq. reflexivity.
  - intros cur. unfold step.
    change ".."%string with (String "." (String "." EmptyString)).
    change "."%string with (String "." EmptyString). rewrite !Heq. reflexivity.
Qed.

Lemma substring_all s : substring 0 (String.length s) s = s.
Proof. induction s as [|c s IH]; [reflexivity|]. cbn. rewrite IH. reflexivity. Qed.

(** The two parts of a digest's fan-out path. *)
Lemma sha1_hexdigest_parts content :
  exists c1 s1 c2 s2,
    str_take 2 (sha1_hexdigest content) = String c1 s1 /\
    str_drop 2 (sha1_hexdigest content) = String c2 s2 /\
    hex_string (String c1 s1) = true /\ hex_string (String c2 s2) = true.
Proof.
  unfold sha1_hexdigest.
  assert (Hlen : length (SHA1.digest content) = 20%nat) by reflexivity.
  destruct (SHA1.digest content) as [|b1 [|b2 rest]]; try discriminate Hlen.
  pose proof (hex_hex_string (b1 :: b2 :: rest)) as Hh.
  cbn [hex] in *. cbn [hex_string] in Hh.
  repeat (apply andb_true_iff in Hh as [? Hh]).
  eexists _, _, _, _. split; [reflexivity|]. split.
  - unfold str_drop. cbn [String.length Nat.sub substring]. rewrite substring_all. reflexivity.
  - cbn [hex_string]. split; repeat (apply andb_true_iff; split); trivial.
Qed.

Section PutSucceeds.
Context `{Zlib}.
Variable cwd : list string.

Lemma walk_snoc fs ps : forall cur x,
  walk fs cur (ps ++ [x])
  = (k ← walk fs cur ps;
     match node_at fs k with
     | Some Dir => Ok (step k x)
     | Some (File _) => Err NotADirectoryError
     | None => Err FileNotFoundError
     end).
Proof.
  induction ps as [|q ps IH]; intros cur x; cbn [app walk mbind result_bind].
  - destruct (node_at fs cur) as [[d|]|]; reflexivity.
  - destruct (node_at fs cur) as [[d|]|]; [reflexivity|apply IH|reflexivity].
Qed.

Lemma resolve_snoc fs q x k :
  q <> [] -> resolve cwd fs q = Ok k -> node_at fs k = Some Dir ->
  resolve cwd fs (q ++ [x]) = Ok (step k x).
Proof.
  intros Hq Hr Hk. destruct q as [|a ps]; [congruence|]. unfold resolve in *.
  cbn [app]. destruct (String.eqb a "/").
  - rewrite walk_snoc, Hr. cbn [mbind result_bind]. rewrite Hk. reflexivity.
  - change (a :: ps ++ [x]) with ((a :: ps) ++ [x]).
    rewrite walk_snoc, Hr. cbn [mbind result_bind]. rewrite Hk. reflexivity.
Qed.

Lemma is_dir_inv fs p :
  is_dir cwd fs p = true ->
  resolve cwd fs p = Ok (locate cwd p) /\ node_at fs (locate cwd p) = Some Dir.
Proof.
  unfold is_dir. destruct (resolve cwd fs p) as [k|e] eqn:E; [|discriminate].
  pose proof (resolve_locate _ _ _ _ E) as ->.
  destruct (node_at fs (locate cwd p)) as [[d|]|]; try discriminate. auto.
Qed.

(** When the objects directory exists, the fan-out entry is absent or a
    directory and the object's path is not a directory, [create_object]
    returns the OID. *)
Lemma create_object_succeeds category data parent fs :
  let oid := sha1_hexdigest (frame category data) in
  let objects := path_div (path_div parent ".git") "objects" in
  let fan_out := step (locate cwd objects) (str_take 2 oid) in
  is_dir cwd fs objects = true ->
  (forall d, node_at fs fan_out <> Some (File d)) ->
  node_at fs (step fan_out (str_drop 2 oid)) <> Some Dir ->
  exists fs', create_object cwd category data parent fs = Ok (oid, fs').
Proof.
  intros oid objects fan_out Hobj Hfan Hfile.
  destruct (sha1_hexdigest_parts (frame category data))
    as (c1 & s1 & c2 & s2 & Haa & Hrr & Hh1 & Hh2).
  fold oid in Haa, Hrr. subst fan_out. rewrite Haa in Hfan, Hfile. rewrite Hrr in Hfile.
  set (fan_out := step (locate cwd objects) (String c1 s1)) in *.
  apply is_dir_inv in Hobj as [Hres Hdir].
  assert (Hne : objects <> []).
  { assert (Ho : objects = parent ++ [".git"; "objects"]%string).
    { unfold objects, path_div.
      change (String.prefix "/" ".git") with false.
      change (String.prefix "/" "objects") with false.
      change (parse_path ".git") with [".git"%string].
      change (parse_path "objects") with ["objects"%string].
      cbv beta iota. rewrite <- app_assoc. reflexivity. }
    rewrite Ho. intros E. apply app_eq_nil in E as [_ E]. discriminate E. }
  unfold create_object. fold oid. unfold object_path. fold objects.
  rewrite Haa, Hrr.
  rewrite (proj1 (hex_string_part objects c1 s1 Hh1)).
  rewrite (proj1 (hex_string_part (objects ++ [String c1 s1]) c2 s2 Hh2)).
  assert (Hpar : path_parent ((objects ++ [String c1 s1]) ++ [String c2 s2])
                 = objects ++ [String c1 s1]).
  { destruct objects as [|a [|b l]]; [congruence|reflexivity|].
    cbn [app path_parent]. change (a :: b :: (l ++ [String c1 s1]) ++ [String c2 s2])
      with ((a :: b :: l ++ [String c1 s1]) ++ [String c2 s2]).
    apply removelast_last. }
  rewrite Hpar.
  assert (Hrf : resolve cwd fs (objects ++ [String c1 s1]) = Ok fan_out)
    by (apply resolve_snoc; assumption).
  assert (Hmk : exists fs1, mkdir_parents cwd fs (objects ++ [String c1 s1]) = Ok fs1).
  { unfold mkdir_parents.
    destruct (node_at fs fan_out) as [[d|]|] eqn:En; [destruct (Hfan d eq_refl)| |].
    - exists fs. apply mkdir_parents_existing. unfold is_dir. rewrite Hrf, En. reflexivity.
    - exists (<[fan_out := Dir]> fs).
      destruct (length (objects ++ [String c1 s1])); cbn [mkdir_loop];
        unfold os_mkdir; rewrite Hrf; cbn [mbind result_bind]; rewrite En; reflexivity. }
  destruct Hmk as [fs1 Hmk]. rewrite Hmk. cbn [mbind result_bind].
  pose proof (mkdir_loop_post _ _ _ _ _ Hmk) as (Hsub & Hext & Hd1).
  apply is_dir_inv in Hd1 as [Hr1 Hn1].
  pose proof (resolve_locate _ _ _ _ Hrf) as Hloc. rewrite <- Hloc in Hr1, Hn1.
  assert (Hrw : resolve cwd fs1 ((objects ++ [String c1 s1]) ++ [String c2 s2])
                = Ok (step fan_out (String c2 s2))).
  { apply resolve_snoc; [|assumption..]. destruct objects; discriminate. }
  unfold write_bytes. rewrite Hrw. cbn [mbind result_bind].
  destruct (node_at fs1 (step fan_out (String c2 s2))) as [[d|]|] eqn:En;
    [eexists; reflexivity| |eexists; reflexivity].
  exfalso. apply Hfile.
  destruct (node_at fs fan_out) as [[d|]|] eqn:Ef; [destruct (Hfan d eq_refl)| |].
  - rewrite (mkdir_parents_existing cwd fs (objects ++ [String c1 s1])) in Hmk
      by (unfold is_dir; rewrite Hrf, Ef; reflexivity).
    injection Hmk as <-. exact En.
  - assert (Hmk' : mkdir_parents cwd fs (objects ++ [String c1 s1])
                   = Ok (<[fan_out := Dir]> fs)).
    { unfold mkdir_parents.
      destruct (length (objects ++ [String c1 s1])); cbn [mkdir_loop];
        unfold os_mkdir; rewrite Hrf; cbn [mbind result_bind]; rewrite Ef; reflexivity. }
    rewrite Hmk' in Hmk. injection Hmk as <-.
    rewrite node_at_insert in En by (intros E; rewrite E in Ef; discriminate Ef).
    destruct (decide (fan_out = step fan_out (String c2 s2))) as [E|]; [|exact En].
    rewrite (proj2 (hex_string_part [] c2 s2 Hh2)) in E.
    apply (f_equal length) in E. rewrite length_app in E. cbn [length] in E. lia.
Qed.

End PutSucceeds.

(** X2: with the objects directory in good order, storing an object of a
    valid type succeeds and reading its OID gives it back. *)
Corollary get_put_on_store `{ZlibLaws} cwd t data parent fs :
  let oid := sha1_hexdigest (frame t data) in
  let objects := path_div (path_div parent ".git") "objects" in
  let fan_out := step (locate cwd objects) (str_take 2 oid) in
  In t valid_types ->
  is_dir cwd fs objects = true ->
  (forall d, node_at fs fan_out <> Some (File d)) ->
  node_at fs (step fan_out (str_drop 2 oid)) <> Some Dir ->
  exists fs', create_object cwd t data parent fs = Ok (oid, fs') /\
              read_object cwd oid parent fs' = Ok (t, data).
Proof.
  intros oid objects fan_out Ht Hobj Hfan Hfile.
  destruct (create_object_succeeds cwd t data parent fs Hobj Hfan Hfile) as [fs' Hc].
  exists fs'. split; [exact Hc|].
  exact (get_put_plain cwd t data parent fs oid fs' (valid_type_plain t Ht) Hc).
Qed.

(** An entry whose header carries type 7 is handled by the [ref_delta]
    case. *)
Lemma unpack_entry_ref_delta `{Zlib} cwd pack_file size rest parent fs :
  next_size_and_type pack_file = Ok ("ref_delta"%string, size, rest) ->
  unpack_entry cwd pack_file parent fs = unpack_ref_delta cwd rest parent fs.
Proof. intros Hh. unfold unpack_entry. rewrite Hh. reflexivity. Qed.

(** ** More on the object store *)

Section StoreFrame.
Context `{Zlib}.
Variable cwd : list string.

Lemma os_mkdir_new fs p fs' :
  os_mkdir cwd fs p = Ok fs' ->
  forall k v, fs' !! k = Some v -> fs !! k = Some v \/ v = Dir.
Proof.
  intros Hm k v Hk. apply os_mkdir_inv in Hm as (_ & _ & ->).
  rewrite lookup_insert in Hk. destruct (decide (locate cwd p = k)); [right|left]; congruence.
Qed.

Lemma mkdir_exist_ok_new fs p fs' :
  mkdir_exist_ok cwd fs p = Ok fs' ->
  forall k v, fs' !! k = Some v -> fs !! k = Some v \/ v = Dir.
Proof.
  unfold mkdir_exist_ok. destruct (os_mkdir cwd fs p) as [fs1|e] eqn:E.
  - intros [= <-]. eapply os_mkdir_new, E.
  - destruct (is_dir cwd fs p); destruct e; intros [= <-]; auto.
Qed.

Lemma mkdir_loop_new fuel : forall fs p fs',
  mkdir_loop cwd fuel fs p = Ok fs' ->
  forall k v, fs' !! k = Some v -> fs !! k = Some v \/ v = Dir.
Proof.
  induction fuel as [|n IH]; intros fs p fs'; cbn [mkdir_loop];
    destruct (os_mkdir cwd fs p) as [fs1|e] eqn:E.
  1,3: intros [= <-]; eapply os_mkdir_new, E.
  - destruct (is_dir cwd fs p); destruct e; try discriminate;
      try (destruct (decide (path_parent p = p)); discriminate); intros [= <-]; auto.
  - destruct e; try (destruct (is_dir cwd fs p); [|discriminate]; intros [= <-]; auto).
    destruct (decide (path_parent p = p)); [discriminate|].
    destruct (mkdir_loop cwd n fs (path_parent p)) as [fs2|e2] eqn:E2; [|discriminate].
    cbn [mbind result_bind]. intros Hm k v Hk.
    destruct (mkdir_exist_ok_new _ _ _ Hm k v Hk) as [Hk2|Hd]; [|auto].
    eapply IH; eassumption.
Qed.

Lemma create_object_elsewhere category data parent fs oid fs' :
  create_object cwd category data parent fs = Ok (oid, fs') ->
  forall k v, fs !! k = Some v -> k <> locate cwd (object_path parent oid) ->
              fs' !! k = Some v.
Proof.
  intros Hc. apply create_object_inv in Hc as (_ & fs1 & Hm & Hw).
  pose proof (mkdir_loop_post _ _ _ _ _ Hm) as (Hsub & _ & _).
  apply write_bytes_inv in Hw as (_ & _ & ->).
  intros k v Hk Hne. rewrite lookup_insert_ne by congruence.
  eapply lookup_weaken; eassumption.
Qed.

End StoreFrame.

(** X1: a successful [create_object] changes nothing but the object file:
    every node that existed elsewhere is as it was, directories and regular
    files keep their kind, and whatever else is new is a directory. *)
Theorem create_object_frame `{Zlib} cwd category data parent fs oid fs' :
  create_object cwd category data parent fs = Ok (oid, fs') ->
  kind_ext fs fs' /\
  (forall k v, fs !! k = Some v -> k <> locate cwd (object_path parent oid) ->
               fs' !! k = Some v) /\
  (forall k v, fs' !! k = Some v -> k <> locate cwd (object_path parent oid) ->
               fs !! k = Some v \/ v = Dir).
Proof.
  intros Hc. split; [eapply create_object_kind_ext, Hc|].
  split; [exact (create_object_elsewhere cwd _ _ _ _ _ _ Hc)|].
  apply create_object_inv in Hc as (_ & fs1 & Hm & Hw).
  pose proof (mkdir_loop_new _ _ _ _ _ Hm) as Hnew.
  apply write_bytes_inv in Hw as (_ & _ & ->).
  intros k v Hk Hne. rewrite lookup_insert_ne in Hk by congruence. eauto.
Qed.

Lemma create_object_frame_witness :
  match create_object repo "blob" (bs "hello") (getcwd repo) init_repo with
  | Ok (oid, fs') =>
      kind_ext init_repo fs' /\
      (forall k v, init_repo !! k = Some v ->
                   k <> locate repo (object_path (getcwd repo) oid) -> fs' !! k = Some v) /\
      (forall k v, fs' !! k = Some v ->
                   k <> locate repo (object_path (getcwd repo) oid) ->
                   init_repo !! k = Some v \/ v = Dir)
  | Err _ => False
  end.
Proof.
  assert (Hok : is_ok (create_object repo "blob" (bs "hello") (getcwd repo) init_repo) = true)
    by (vm_compute; reflexivity).
  destruct (create_object repo "blob" (bs "hello") (getcwd repo) init_repo)
    as [[oid fs']|e] eqn:E; [|discriminate Hok].
  exact (create_object_frame repo "blob" (bs "hello") (getcwd repo) init_repo oid fs' E).
Defined.

Lemma get_put_on_store_witness :
  exists fs',
    create_object repo "blob" (bs "hello") (getcwd repo) init_repo
    = Ok (sha1_hexdigest (frame "blob" (bs "hello")), fs') /\
    read_object repo (sha1_hexdigest (frame "blob" (bs "hello"))) (getcwd repo) fs'
    = Ok ("blob"%string, bs "hello").
Proof.
  apply (get_put_on_store repo "blob" (bs "hello") (getcwd repo) init_repo).
  - left. reflexivity.
  - reflexivity.
  - intros d. vm_compute. discriminate.
  - vm_compute. discriminate.
Defined.

Lemma locate_snoc cwd p x : p <> [] -> locate cwd (p ++ [x]) = step (locate cwd p) x.
Proof.
  destruct p as [|a ps]; [congruence|]. intros _. unfold locate. cbn [app].
  destruct (String.eqb a "/").
  - apply fold_left_app.
  - change (a :: ps ++ [x]) with ((a :: ps) ++ [x]). apply fold_left_app.
Qed.

Lemma sha1_hexdigest_split content :
  exists a b t,
    sha1_hexdigest content = String a (String b t) /\
    str_take 2 (sha1_hexdigest content) = String a (String b EmptyString) /\
    str_drop 2 (sha1_hexdigest content) = t /\
    hex_string (String a (String b EmptyString)) = true /\ hex_string t = true /\
    t <> EmptyString.
Proof.
  unfold sha1_hexdigest.
  assert (Hlen : length (SHA1.digest content) = 20%nat) by reflexivity.
  destruct (SHA1.digest content) as [|b1 [|b2 rest]]; try discriminate Hlen.
  pose proof (hex_hex_string (b1 :: b2 :: rest)) as Hh.
  cbn [hex] in *. cbn [hex_string] in Hh.
  repeat (apply andb_true_iff in Hh as [? Hh]).
  eexists _, _, _. split; [reflexivity|]. split; [reflexivity|]. split.
  { unfold str_drop. cbn [String.length Nat.sub substring]. rewrite substring_all.
    reflexivity. }
  split; [cbn [hex_string]; repeat (apply andb_true_iff; split); trivial|].
  split; [cbn [hex_string]; repeat (apply andb_true_iff; split); trivial|discriminate].
Qed.

(** The objects directory of [parent], as parts. *)
Lemma objects_parts parent :
  path_div (path_div parent ".git") "objects" = parent ++ [".git"; "objects"]%string.
Proof.
  unfold path_div.
  change (String.prefix "/" ".git") with false.
  change (String.prefix "/" "objects") with false.
  change (parse_path ".git") with [".git"%string].
  change (parse_path "objects") with ["objects"%string].
  cbv beta iota. rewrite <- app_assoc. reflexivity.
Qed.

(** Where the object file of a digest is. *)
Lemma object_location cwd parent content :
  object_path parent (sha1_hexdigest content)
  = parent ++ [".git"; "objects"; str_take 2 (sha1_hexdigest content);
               str_drop 2 (sha1_hexdigest content)]%string /\
  locate cwd (object_path parent (sha1_hexdigest content))
  = locate cwd (parent ++ [".git"; "objects"]%string)
    ++ [str_take 2 (sha1_hexdigest content); str_drop 2 (sha1_hexdigest content)].
Proof.
  destruct (sha1_hexdigest_split content) as (a & b & t & _ & Ha & Ht & Hh1 & Hh2 & Hne).
  destruct t as [|c t]; [congruence|].
  unfold object_path. rewrite objects_parts, Ha, Ht.
  rewrite (proj1 (hex_string_part _ _ _ Hh1)), (proj1 (hex_string_part _ _ _ Hh2)).
  split; [rewrite <- !app_assoc; reflexivity|].
  rewrite !locate_snoc.
  - rewrite (proj2 (hex_string_part [] _ _ Hh1)), (proj2 (hex_string_part [] _ _ Hh2)).
    rewrite <- app_assoc. reflexivity.
  - intros E. apply app_eq_nil in E as [_ E]. discriminate E.
  - intros E. apply app_eq_nil in E as [_ E]. discriminate E.
Qed.

Lemma object_location_inj cwd parent c1 c2 :
  locate cwd (object_path parent (sha1_hexdigest c1))
  = locate cwd (object_path parent (sha1_hexdigest c2)) ->
  sha1_hexdigest c1 = sha1_hexdigest c2.
Proof.
  rewrite (proj2 (object_location cwd parent c1)), (proj2 (object_location cwd parent c2)).
  destruct (sha1_hexdigest_split c1) as (a & b & t & Hs1 & Ha & Ht & _).
  destruct (sha1_hexdigest_split c2) as (a' & b' & t' & Hs2 & Ha' & Ht' & _).
  rewrite Ha, Ha', Ht, Ht', Hs1, Hs2.
  intros E. apply app_inv_head in E. injection E as -> -> ->. reflexivity.
Qed.

Section StoreKeeps.
Context `{Zlib}.
Variable cwd : list string.

Lemma read_bytes_kept fs fs' p raw :
  kind_ext fs fs' ->
  (forall k v, fs !! k = Some v -> k <> locate cwd p -> fs' !! k = Some v) ->
  forall q, locate cwd q <> locate cwd p ->
  read_bytes cwd fs q = Ok raw -> read_bytes cwd fs' q = Ok raw.
Proof.
  intros Hext Hframe q Hne. unfold read_bytes.
  destruct (resolve cwd fs q) as [k|e] eqn:E; [|discriminate].
  rewrite (resolve_mono _ _ _ _ _ Hext E). cbn [mbind result_bind].
  pose proof (resolve_locate _ _ _ _ E) as ->.
  destruct (node_at fs (locate cwd q)) as [[d|]|] eqn:En; try discriminate.
  intros [= <-]. destruct (locate cwd q) as [|a k] eqn:Ek; [discriminate En|].
  cbn [node_at] in *. rewrite (Hframe _ _ En) by congruence. reflexivity.
Qed.

(** The file of an object stays as it is when an object with another id
    is stored. *)
Lemma object_file_kept content0 category data parent fs oid fs' raw :
  read_bytes cwd fs (object_path parent (sha1_hexdigest content0)) = Ok raw ->
  create_object cwd category data parent fs = Ok (oid, fs') ->
  sha1_hexdigest content0 <> oid ->
  read_bytes cwd fs' (object_path parent (sha1_hexdigest content0)) = Ok raw.
Proof.
  intros Hr Hc Hne.
  pose proof (create_object_kind_ext _ _ _ _ _ _ _ Hc) as Hext.
  pose proof (create_object_elsewhere cwd _ _ _ _ _ _ Hc) as Hframe.
  pose proof (proj1 (create_object_inv _ _ _ _ _ _ _ Hc)) as Ho. subst oid.
  eapply read_bytes_kept; [exact Hext|exact Hframe| |exact Hr].
  intros El. apply Hne. eapply object_location_inj, El.
Qed.

Lemma read_object_bytes sha parent fs fs' :
  read_bytes cwd fs' (object_path parent sha) = read_bytes cwd fs (object_path parent sha) ->
  read_object cwd sha parent fs' = read_object cwd sha parent fs.
Proof. unfold read_object. intros ->. reflexivity. Qed.

End StoreKeeps.

(** X3: storing an object leaves every object stored under another OID
    readable, with the same result. *)
Theorem put_keeps_objects `{Zlib} cwd category0 data0 category data parent fs oid fs' r :
  read_object cwd (sha1_hexdigest (frame category0 data0)) parent fs = Ok r ->
  create_object cwd category data parent fs = Ok (oid, fs') ->
  sha1_hexdigest (frame category0 data0) <> oid ->
  read_object cwd (sha1_hexdigest (frame category0 data0)) parent fs' = Ok r.
Proof.
  intros Hr Hc Hne. rewrite <- Hr. apply read_object_bytes.
  unfold read_object in Hr.
  destruct (read_bytes cwd fs (object_path parent _)) as [raw|e] eqn:E; [|discriminate Hr].
  exact (object_file_kept cwd _ _ _ _ _ _ _ raw E Hc Hne).
Qed.

Lemma put_keeps_objects_witness :
  match create_object repo "blob" (bs "hello") (getcwd repo) captured_repo with
  | Ok (oid, fs') =>
      read_object repo (sha1_hexdigest (frame "tree" [])) (getcwd repo) fs'
      = Ok ("tree"%string, [])
  | Err _ => False
  end.
Proof.
  assert (Hok : is_ok (create_object repo "blob" (bs "hello") (getcwd repo) captured_repo)
                = true) by (vm_compute; reflexivity).
  assert (Hne : bool_decide (sha1_hexdigest (frame "tree" [])
                             = sha1_hexdigest (frame "blob" (bs "hello"))) = false)
    by (vm_compute; reflexivity).
  destruct (create_object repo "blob" (bs "hello") (getcwd repo) captured_repo)
    as [[oid fs']|e] eqn:E; [|discriminate Hok].
  apply (put_keeps_objects repo "tree" [] "blob" (bs "hello") (getcwd repo) captured_repo
           oid fs' ("tree"%string, [])); [vm_compute; reflexivity|exact E|].
  rewrite (proj1 (create_object_inv _ _ _ _ _ _ _ E)).
  apply bool_decide_eq_false in Hne. exact Hne.
Defined.

(** ** More on pack decoding *)

Lemma b2z_z2b z : 0 <= z < 256 -> b2z (z2b z) = z.
Proof.
  intros Hz. unfold z2b. rewrite Z.mod_small by exact Hz.
  destruct (Byte.of_N (Z.to_N z)) as [b|] eqn:E.
  - unfold b2z. apply Byte.to_of_N in E. rewrite E. lia.
  - apply Byte.of_N_None_iff in E. lia.
Qed.

(** *** Sizes that do not end *)

Lemma size_loop_error rest : forall prev size off e,
  size_loop prev rest size off = Err e ->
  e = IndexError /\ Forall (fun b => 128 <= b2z b) (prev :: rest).
Proof.
  induction rest as [|c rest IH]; intros prev size off e; cbn [size_loop];
    rewrite byte_msb; destruct (b2z prev <? 128) eqn:E; try discriminate;
    apply Z.ltb_ge in E.
  - intros [= <-]. split; [reflexivity|]. constructor; [exact E|constructor].
  - intros Hs. apply IH in Hs as [-> Hall]. split; [reflexivity|].
    constructor; assumption.
Qed.

Lemma size_loop_unfinished rest : forall prev size off,
  Forall (fun b => 128 <= b2z b) (prev :: rest) ->
  size_loop prev rest size off = Err IndexError.
Proof.
  induction rest as [|c rest IH]; intros prev size off Hall; cbn [size_loop];
    rewrite byte_msb; inversion Hall as [|? ? Hp Hrest]; subst;
    (replace (b2z prev <? 128) with false by (symmetry; apply Z.ltb_ge; exact Hp)).
  - reflexivity.
  - apply IH, Hrest.
Qed.

(** X4: each of the two size decoders fails exactly when its input has no
    byte with the top bit clear, the empty input included, and then with
    [IndexError]; no other exception leaves them. *)
Theorem size_decoders_fail l :
  (next_size l = Err IndexError <-> Forall (fun b => 128 <= b2z b) l) /\
  (next_size_and_type l = Err IndexError <-> Forall (fun b => 128 <= b2z b) l) /\
  (forall e, next_size l = Err e -> e = IndexError) /\
  (forall e, next_size_and_type l = Err e -> e = IndexError).
Proof.
  destruct l as [|b0 rest]; cbn [next_size next_size_and_type].
  - repeat split; try constructor; congruence.
  - assert (Hty : forall e,
      ('(size, tail) ← size_loop b0 rest (Z.land (b2z b0) 15) 4;
       mret (type_name (Z.shiftr (Z.land (b2z b0) 112) 4), size, tail))
      = Err e -> size_loop b0 rest (Z.land (b2z b0) 15) 4 = Err e).
    { intros e. destruct (size_loop b0 rest _ 4) as [[size tail]|e']; [discriminate|].
      intros [= ->]. reflexivity. }
    split; [|split; [|split]].
    + split; [intros Hs; apply size_loop_error in Hs as [_ Hall]; exact Hall
             |apply size_loop_unfinished].
    + split.
      * intros Hs. apply Hty, size_loop_error in Hs as [_ Hall]. exact Hall.
      * intros Hall. rewrite (size_loop_unfinished _ _ _ _ Hall). reflexivity.
    + intros e Hs. apply size_loop_error in Hs as [-> _]. reflexivity.
    + intros e Hs. apply Hty, size_loop_error in Hs as [-> _]. reflexivity.
Qed.

Lemma size_decoders_fail_witness :
  next_size [x80; x81] = Err IndexError /\ next_size_and_type [] = Err IndexError.
Proof.
  split.
  - apply (proj2 (proj1 (size_decoders_fail [x80; x81]))).
    repeat constructor; vm_compute; discriminate.
  - apply (proj2 (proj1 (proj2 (size_decoders_fail [])))). constructor.
Defined.

(** *** Entries of a pack *)

Lemma is_base_type_valid tip : is_base_type tip = true -> In tip valid_types.
Proof.
  unfold is_base_type, valid_types. rewrite !orb_true_iff, !String.eqb_eq. cbn [In].
  intros [[[->| ->]| ->]| ->]; auto.
Qed.

Section Entries.
Context `{Zlib}.
Variable cwd : list string.

Lemma unpack_entry_base pack_file tip size body parent fs :
  next_size_and_type pack_file = Ok (tip, size, body) ->
  is_base_type tip = true ->
  unpack_entry cwd pack_file parent fs
  = ('(content, rest) ← decompress_stream body;
     '(_, fs1) ← create_object cwd tip content parent fs;
     mret (rest, fs1)).
Proof. intros Hh Hb. unfold unpack_entry. rewrite Hh. cbn [mbind result_bind]. rewrite Hb. reflexivity. Qed.

End Entries.

(** X5: an entry of a pack whose header carries one of the types commit,
    tree, blob and tag is inflated and stored under that type: when the
    entry is unpacked the object reads back as the header's type and the
    inflated content, and the rest of the pack is what follows the deflated
    stream.  The size that the header declares plays no part. *)
Theorem base_entry_stored `{ZlibLaws} cwd pack_file tip size body parent fs rest fs' :
  next_size_and_type pack_file = Ok (tip, size, body) ->
  is_base_type tip = true ->
  unpack_entry cwd pack_file parent fs = Ok (rest, fs') ->
  exists content,
    decompress_stream body = Ok (content, rest) /\
    create_object cwd tip content parent fs = Ok (sha1_hexdigest (frame tip content), fs') /\
    read_object cwd (sha1_hexdigest (frame tip content)) parent fs' = Ok (tip, content).
Proof.
  intros Hh Hb. rewrite (unpack_entry_base cwd _ _ _ _ _ _ Hh Hb).
  destruct (decompress_stream body) as [[content rest0]|e]; [|discriminate].
  cbn [mbind result_bind].
  destruct (create_object cwd tip content parent fs) as [[oid fs1]|e] eqn:Ec; [|discriminate].
  cbn [mbind result_bind mret result_ret]. intros [= <- <-].
  pose proof (proj1 (create_object_inv _ _ _ _ _ _ _ Ec)) as ->.
  exists content. split; [reflexivity|]. split; [exact Ec|].
  exact (get_put_plain cwd tip content parent fs _ fs1
           (valid_type_plain tip (is_base_type_valid tip Hb)) Ec).
Qed.

Lemma base_entry_stored_witness :
  match unpack_entry repo hello_entry (getcwd repo) init_repo with
  | Ok (rest, fs') =>
      exists content,
        decompress_stream (Stored.deflate Z_DEFAULT_COMPRESSION (bs "hello") ++ bs "next")
        = Ok (content, rest) /\
        create_object repo "blob" content (getcwd repo) init_repo
        = Ok (sha1_hexdigest (frame "blob" content), fs') /\
        read_object repo (sha1_hexdigest (frame "blob" content)) (getcwd repo) fs'
        = Ok ("blob"%string, content)
  | Err _ => False
  end.
Proof.
  assert (Hok : is_ok (unpack_entry repo hello_entry (getcwd repo) init_repo) = true)
    by (vm_compute; reflexivity).
  destruct (unpack_entry repo hello_entry (getcwd repo) init_repo) as [[rest fs']|e] eqn:E;
    [|discriminate Hok].
  exact (base_entry_stored repo hello_entry "blob" 9
           (Stored.deflate Z_DEFAULT_COMPRESSION (bs "hello") ++ bs "next")
           (getcwd repo) init_repo rest fs' eq_refl eq_refl E).
Defined.

(** X6: an entry whose header is complete and carries type 0, 5 or 6
    ([ofs_delta]) is not unpacked: [RuntimeError("Not implemented")]. *)
Theorem unsupported_entry `{Zlib} cwd first cs tail parent fs :
  chained first cs = true ->
  (b2z first / 16) mod 8 = 0 \/ (b2z first / 16) mod 8 = 5 \/ (b2z first / 16) mod 8 = 6 ->
  unpack_entry cwd (first :: cs ++ tail) parent fs = Err (RuntimeError "Not implemented").
Proof.
  intros Hch Hty. unfold unpack_entry, next_size_and_type.
  rewrite (size_loop_chained tail cs first _ 4) by (lia || exact Hch).
  cbn [mbind result_bind mret result_ret]. rewrite byte_type_bits.
  destruct Hty as [-> | [-> | ->]]; reflexivity.
Qed.

Lemma unsupported_entry_witness :
  unpack_entry repo (xe5 :: [x01] ++ bs "rest") (getcwd repo) init_repo
  = Err (RuntimeError "Not implemented").
Proof.
  apply (unsupported_entry repo xe5 [x01] (bs "rest") (getcwd repo) init_repo).
  - reflexivity.
  - right. right. reflexivity.
Defined.

(** *** Delta programs made of insert instructions *)

Lemma delta_loop_insert n base c rest target :
  b2z c < 128 ->
  delta_loop (S n) base (c :: rest) target
  = delta_loop n base (drop (Z.to_nat (b2z c)) rest)
      (target ++ take (Z.to_nat (b2z c)) rest).
Proof.
  intros Hc. cbn [delta_loop]. rewrite byte_msb.
  replace (b2z c <? 128) with true by (symmetry; apply Z.ltb_lt; exact Hc).
  unfold slice. rewrite Nat.add_1_r. cbn [drop]. rewrite drop_0.
  replace (S (Z.to_nat (b2z c)) - 1)%nat with (Z.to_nat (b2z c)) by lia.
  reflexivity.
Qed.

Lemma delta_loop_inserts base ds : forall fuel target n d,
  Forall (fun d => (length d <= 127)%nat) ds ->
  0 <= n <= 127 -> (length d <= Z.to_nat n)%nat ->
  (length (concat (map insert_instr ds) ++ z2b n :: d) <= fuel)%nat ->
  delta_loop fuel base (concat (map insert_instr ds) ++ z2b n :: d) target
  = Ok (target ++ concat ds ++ d).
Proof.
  induction ds as [|d0 ds IH]; intros fuel target n d Hall Hn Hd Hfuel;
    cbn [map concat app] in *.
  - destruct fuel as [|fuel]; [cbn [length] in Hfuel; lia|].
    rewrite delta_loop_insert by (rewrite b2z_z2b; lia).
    rewrite b2z_z2b by lia.
    rewrite drop_ge, take_ge by lia.
    destruct fuel; reflexivity.
  - inversion Hall as [|? ? Hd0 Hds]; subst.
    destruct fuel as [|fuel]; [cbn [length insert_instr app] in Hfuel; lia|].
    unfold insert_instr at 1. cbn [app].
    rewrite delta_loop_insert by (rewrite b2z_z2b; lia).
    rewrite b2z_z2b by lia. rewrite Nat2Z.id, <- app_assoc.
    rewrite drop_app_length, take_app_length.
    rewrite (IH fuel (target ++ d0) n d Hds Hn Hd).
    + rewrite <- !app_assoc. reflexivity.
    + unfold insert_instr at 1 in Hfuel. cbn [app length] in Hfuel.
      rewrite <- app_assoc, length_app in Hfuel. lia.
Qed.

(** X7: a delta program made only of insert instructions, of at most 127
    bytes each, yields the literals one after the other, whatever the base
    holds. *)
Theorem insert_only_delta base ds :
  Forall (fun d => (1 <= length d <= 127)%nat) ds ->
  apply_delta base (concat (map insert_instr ds)) = Ok (concat ds).
Proof.
  intros Hall. unfold apply_delta.
  destruct ds as [|d0 ds] using rev_ind; [reflexivity|].
  apply Forall_app in Hall as [Hds Hd0]. inversion Hd0 as [|? ? Hd _]; subst.
  rewrite map_app, !concat_app. cbn [map concat]. rewrite !app_nil_r.
  unfold insert_instr at 2 4.
  rewrite (delta_loop_inserts base ds _ [] (Z.of_nat (length d0)) d0); try lia.
  - reflexivity.
  - eapply Forall_impl; [exact Hds|]. cbv beta. intros. lia.
Qed.

Lemma insert_only_delta_witness :
  apply_delta (bs "base") (concat (map insert_instr [bs "ab"; bs "c"])) = Ok (bs "abc").
Proof.
  apply (insert_only_delta (bs "base") [bs "ab"; bs "c"]).
  repeat constructor.
Defined.

(** X8: an insert instruction at the end of a delta whose literal is
    shorter than the length it announces is not an error: the bytes that
    are there are appended and the program ends. *)
Theorem short_insert_accepted base ds n d :
  Forall (fun d => (1 <= length d <= 127)%nat) ds ->
  0 <= n <= 127 -> (length d < Z.to_nat n)%nat ->
  apply_delta base (concat (map insert_instr ds) ++ z2b n :: d) = Ok (concat ds ++ d).
Proof.
  intros Hall Hn Hd. unfold apply_delta.
  rewrite (delta_loop_inserts base ds _ [] n d); try lia.
  - reflexivity.
  - eapply Forall_impl; [exact Hall|]. cbv beta. intros. lia.
Qed.

Lemma short_insert_accepted_witness :
  apply_delta (bs "base") (concat (map insert_instr [bs "ab"]) ++ z2b 5 :: bs "c")
  = Ok (bs "ab" ++ bs "c").
Proof.
  apply (short_insert_accepted (bs "base") [bs "ab"] 5 (bs "c")).
  - repeat constructor.
  - lia.
  - cbn. lia.
Defined.

(** *** The operands of a copy instruction *)

Lemma read_fields_count c rest lo bits : forall acc data_ptr,
  match read_fields (c :: rest) lo bits acc data_ptr with
  | Ok (_, p) =>
      p = (data_ptr + length (List.filter (fun i => flag c (lo + i)) bits))%nat /\
      (data_ptr = p \/ p <= S (length rest))%nat
  | Err e =>
      e = IndexError /\
      (S (length rest) < data_ptr + length (List.filter (fun i => flag c (lo + i)) bits))%nat
  end.
Proof.
  induction bits as [|i bits IH]; intros acc data_ptr; cbn [read_fields List.filter].
  - cbn [length]. split; lia.
  - rewrite index_head. cbn [mbind result_bind].
    destruct (flag c (lo + i)) eqn:Ef; pose proof Ef as Et; unfold flag in Et.
    + apply negb_true_iff in Et. rewrite Et.
      unfold index. destruct ((c :: rest) !! data_ptr) as [b|] eqn:E;
        cbn [fmap option_fmap option_map of_option mbind result_bind].
      * apply lookup_lt_Some in E. cbn [length] in E.
        specialize (IH (Z.lor acc (Z.shiftl (b2z b) (i * 8))) (S data_ptr)).
        destruct (read_fields _ _ _ _ _) as [[v p]|e]; cbn [length];
          [lia|destruct IH as [-> IH]; split; [reflexivity|lia]].
      * apply lookup_ge_None in E. cbn [length] in *. split; [reflexivity|lia].
    + apply negb_false_iff in Et. rewrite Et. apply IH.
Qed.

(** X9: a copy instruction takes one operand byte for each of the seven
    flag bits set in its first byte; the operands are read when that many
    bytes follow, and otherwise the read fails with [IndexError]. *)
Theorem copy_operands_count c rest :
  match copy_operands (c :: rest) with
  | Ok (_, _, data_ptr) => data_ptr = S (operand_count c) /\ (operand_count c <= length rest)%nat
  | Err e => e = IndexError /\ (length rest < operand_count c)%nat
  end.
Proof.
  unfold copy_operands, operand_count.
  change [0; 1; 2; 3; 4; 5; 6] with ([0; 1; 2; 3] ++ map (fun i => 4 + i) [0; 1; 2]).
  rewrite List.filter_app, length_app.
  assert (Hm : forall l, length (List.filter (flag c) (map (fun i => 4 + i) l))
                         = length (List.filter (fun i => flag c (4 + i)) l)).
  { induction l as [|i l IHl]; [reflexivity|]. cbn [map List.filter].
    destruct (flag c (4 + i)); cbn [length]; rewrite IHl; reflexivity. }
  rewrite Hm.
  pose proof (read_fields_count c rest 0 [0; 1; 2; 3] 0 1) as H1.
  destruct (read_fields (c :: rest) 0 [0; 1; 2; 3] 0 1) as [[offset p1]|e];
    cbn [mbind result_bind].
  - pose proof (read_fields_count c rest 4 [0; 1; 2] 0 p1) as H2.
    destruct (read_fields (c :: rest) 4 [0; 1; 2] 0 p1) as [[size p2]|e];
      cbn [mbind result_bind mret result_ret].
    + assert (E : forall l, length (List.filter (fun i => flag c (0 + i)) l)
                            = length (List.filter (flag c) l)) by reflexivity.
      rewrite E in H1. lia.
    + assert (E : forall l, length (List.filter (fun i => flag c (0 + i)) l)
                            = length (List.filter (flag c) l)) by reflexivity.
      rewrite E in H1. split; [tauto|lia].
  - assert (E : forall l, length (List.filter (fun i => flag c (0 + i)) l)
                          = length (List.filter (flag c) l)) by reflexivity.
    rewrite E in H1. split; [tauto|lia].
Qed.

Lemma copy_operands_count_witness :
  match copy_operands (x91 :: [x01]) with
  | Ok (_, _, data_ptr) =>
      data_ptr = S (operand_count x91) /\ (operand_count x91 <= length [x01])%nat
  | Err e => e = IndexError /\ (length [x01] < operand_count x91)%nat
  end.
Proof. exact (copy_operands_count x91 [x01]). Defined.

Lemma delta_loop_error fuel : forall base content target e,
  delta_loop fuel base content target = Err e -> e = IndexError \/ e = OutOfFuel.
Proof.
  induction fuel as [|n IH]; intros base content target e; destruct content as [|c rest];
    cbn [delta_loop]; try discriminate.
  - intros [= <-]. auto.
  - destruct (Z.land (b2z c) 128 =? 0); [apply IH|].
    destruct (copy_operands (c :: rest)) as [[[offset size] p]|e'] eqn:E;
      cbn [mbind result_bind].
    + apply IH.
    + intros [= <-]. left. eapply copy_operands_error, E.
Qed.

(** X10: applying a delta program to a base either yields the target or
    fails with [IndexError]; it fails in no other way, and the bound on the
    loop of the model is not reached. *)
Theorem apply_delta_outcomes base content :
  (exists target, apply_delta base content = Ok target)
  \/ apply_delta base content = Err IndexError.
Proof.
  destruct (apply_delta base content) as [target|e] eqn:E; [eauto|right].
  destruct (delta_loop_error _ _ _ _ _ E) as [->| ->]; [reflexivity|].
  exfalso. exact (apply_delta_total _ _ E).
Qed.

Lemma apply_delta_outcomes_witness :
  (exists target, apply_delta fox_base [x90; x09] = Ok target)
  \/ apply_delta fox_base [x90; x09] = Err IndexError.
Proof. exact (apply_delta_outcomes fox_base [x90; x09]). Defined.

(** *** The head of a pack *)

Lemma unpack_u32_length l : length l <> 4%nat -> unpack_u32 l = Err StructError.
Proof. destruct l as [|a [|b [|c [|d [|e l]]]]]; cbn [length]; try reflexivity; lia. Qed.

(** X11: the first eight bytes of a pack, its signature and version, are
    not looked at; a pack of fewer than twelve bytes is refused with
    [struct.error]; and a pack that announces no object is accepted
    whatever follows the count. *)
Theorem pack_header_unchecked `{Zlib} cwd parent fs :
  (forall h1 h2 body, length h1 = 8%nat -> length h2 = 8%nat ->
     unpack_objects cwd (h1 ++ body) parent fs = unpack_objects cwd (h2 ++ body) parent fs) /\
  (forall pack_file, (length pack_file < 12)%nat ->
     unpack_objects cwd pack_file parent fs = Err StructError) /\
  (forall h rest, length h = 8%nat ->
     unpack_objects cwd (h ++ [x00; x00; x00; x00] ++ rest) parent fs = Ok (rest, fs)).
Proof.
  split; [|split].
  - intros h1 h2 body H1 H2. unfold unpack_objects.
    rewrite !(drop_app_length' h1), !(drop_app_length' h2) by congruence. reflexivity.
  - intros pack_file Hlen. unfold unpack_objects.
    rewrite unpack_u32_length; [reflexivity|].
    rewrite length_take, length_drop. lia.
  - intros h rest Hh. unfold unpack_objects.
    rewrite !(drop_app_length' h) by congruence. reflexivity.
Qed.

Lemma pack_header_unchecked_witness :
  unpack_objects repo (bs "PACK" ++ [x00; x00; x00; x02] ++ [x00; x00; x00; x00] ++ bs "sum")
    (getcwd repo) init_repo
  = unpack_objects repo (bs "JUNKJUNK" ++ [x00; x00; x00; x00] ++ bs "sum") (getcwd repo)
      init_repo /\
  unpack_objects repo (bs "PACK" ++ [x00; x00; x00; x02]) (getcwd repo) init_repo
  = Err StructError /\
  unpack_objects repo (bs "JUNKJUNK" ++ [x00; x00; x00; x00] ++ bs "sum") (getcwd repo)
    init_repo
  = Ok (bs "sum", init_repo).
Proof.
  pose proof (pack_header_unchecked repo (getcwd repo) init_repo) as (H1 & H2 & H3).
  split; [|split].
  - apply (H1 (bs "PACK" ++ [x00; x00; x00; x02]) (bs "JUNKJUNK")); reflexivity.
  - apply H2. cbn. lia.
  - apply (H3 (bs "JUNKJUNK")). reflexivity.
Defined.

(** ** More on checkout *)

Section CheckoutFails.
Context `{Zlib}.
Variable cwd : list string.

Lemma render_entries_fails rec n parent directory tree_data fs :
  tree_data <> [] ->
  (x20 ∉ tree_data ->
   render_entries cwd rec (S n) parent directory tree_data fs = Err ValueError) /\
  (forall mode rest, tree_data = mode ++ x20 :: rest -> x20 ∉ mode -> x00 ∉ rest ->
   render_entries cwd rec (S n) parent directory tree_data fs = Err ValueError) /\
  (forall mode name rest, tree_data = mode ++ x20 :: name ++ x00 :: rest ->
   x20 ∉ mode -> x00 ∉ name -> mode <> bs "40000" -> mode <> bs "100644" ->
   render_entries cwd rec (S n) parent directory tree_data fs
   = Err (RuntimeError "Not implemented")).
Proof.
  intros Hne. split; [|split].
  - intros Hsp. destruct tree_data as [|b l]; [congruence|].
    cbn [render_entries]. rewrite split1_absent by exact Hsp. reflexivity.
  - intros mode rest -> Hm Hr.
    destruct (mode ++ x20 :: rest) as [|b l] eqn:E; [congruence|].
    cbn [render_entries]. rewrite <- E, split1_app by exact Hm.
    cbn [unpack2 mbind result_bind]. rewrite split1_absent by exact Hr. reflexivity.
  - intros mode name rest -> Hm Hn H1 H2.
    destruct (mode ++ x20 :: name ++ x00 :: rest) as [|b l] eqn:E; [congruence|].
    cbn [render_entries]. rewrite <- E, split1_app by exact Hm.
    cbn [unpack2 mbind result_bind]. rewrite split1_app by exact Hn.
    cbn [unpack2 mbind result_bind].
    rewrite decide_False by exact H1. rewrite decide_False by exact H2. reflexivity.
Qed.

Lemma render_tree_log_existing fuel parent directory sha fs t tree_data :
  is_dir cwd fs directory = true ->
  read_object cwd sha parent fs = Ok (t, tree_data) ->
  render_tree_log cwd (S fuel) parent directory sha fs
  = render_entries cwd (render_tree_log cwd fuel parent) (length tree_data) parent directory
      tree_data fs.
Proof.
  intros Hd Hr. cbn [render_tree_log]. rewrite (mkdir_parents_existing _ _ _ Hd).
  cbn [mbind result_bind]. rewrite Hr. reflexivity.
Qed.

End CheckoutFails.

(** X12: [render_tree] on a directory that exists, for tree data that is
    not empty: without a blank, or with no NUL after the first blank, it
    fails with [ValueError]; and when the first entry has a mode other than
    [40000] and [100644], an executable [100755] say, it fails with
    [RuntimeError("Not implemented")]. *)
Theorem render_tree_failures `{Zlib} cwd fuel parent directory sha fs t tree_data :
  is_dir cwd fs directory = true ->
  read_object cwd sha parent fs = Ok (t, tree_data) ->
  tree_data <> [] ->
  (x20 ∉ tree_data ->
   render_tree cwd (S fuel) parent directory sha fs = Err ValueError) /\
  (forall mode rest, tree_data = mode ++ x20 :: rest -> x20 ∉ mode -> x00 ∉ rest ->
   render_tree cwd (S fuel) parent directory sha fs = Err ValueError) /\
  (forall mode name rest, tree_data = mode ++ x20 :: name ++ x00 :: rest ->
   x20 ∉ mode -> x00 ∉ name -> mode <> bs "40000" -> mode <> bs "100644" ->
   render_tree cwd (S fuel) parent directory sha fs = Err (RuntimeError "Not implemented")).
Proof.
  intros Hd Hr Hne. unfold render_tree.
  rewrite (render_tree_log_existing cwd _ _ _ _ _ _ _ Hd Hr).
  destruct (length tree_data) as [|n] eqn:El; [destruct tree_data; [congruence|discriminate El]|].
  pose proof (render_entries_fails cwd (render_tree_log cwd fuel parent) n parent directory
                tree_data fs Hne) as (H1 & H2 & H3).
  split; [|split].
  - intros Hsp. rewrite (H1 Hsp). reflexivity.
  - intros mode rest E Hm Hrest. rewrite (H2 mode rest E Hm Hrest). reflexivity.
  - intros mode name rest E Hm Hn Hm1 Hm2. rewrite (H3 mode name rest E Hm Hn Hm1 Hm2).
    reflexivity.
Qed.

Lemma render_tree_failures_witness :
  render_tree repo 1 (getcwd repo) (getcwd repo) (sha1_hexdigest (frame "tree" exec_tree))
    exec_repo
  = Err (RuntimeError "Not implemented").
Proof.
  assert (Hd : is_dir repo exec_repo (getcwd repo) = true) by (vm_compute; reflexivity).
  assert (Hr : read_object repo (sha1_hexdigest (frame "tree" exec_tree)) (getcwd repo)
                 exec_repo = Ok ("tree"%string, exec_tree)) by (vm_compute; reflexivity).
  assert (Hne : exec_tree <> []) by discriminate.
  apply (proj2 (proj2 (render_tree_failures repo 0 (getcwd repo) (getcwd repo) _ exec_repo
                         "tree" exec_tree Hd Hr Hne))
           (bs "100755") (bs "run") (SHA1.digest (frame "blob" readme_blob))).
  - reflexivity.
  - apply (bool_decide_unpack _). vm_compute. exact I.
  - apply (bool_decide_unpack _). vm_compute. exact I.
  - discriminate.
  - discriminate.
Defined.

(** ** Path strings *)

Lemma components_nonempty s : components s <> [].
Proof.
  destruct s as [|c s]; cbn [components]; [discriminate|].
  destruct (Ascii.eqb c slash); [discriminate|]. destruct (components s); discriminate.
Qed.

Lemma components_app s t :
  components (s ++ String slash t) = components s ++ components t.
Proof.
  induction s as [|c s IH].
  - reflexivity.
  - change (String c s +:+ String slash t) with (String c (s +:+ String slash t)).
    cbn [components]. rewrite IH. destruct (Ascii.eqb c slash); [reflexivity|].
    pose proof (components_nonempty s) as Hs.
    destruct (components s) as [|h tl]; [congruence|]. reflexivity.
Qed.

Lemma str_ends_slash_app s c t :
  str_ends_slash (s ++ String c t) = str_ends_slash (String c t).
Proof.
  induction s as [|a s IH]; [reflexivity|].
  change (String a s +:+ String c t) with (String a (s +:+ String c t)).
  destruct s as [|b s]; exact IH.
Qed.

Lemma hex_string_no_slash s : hex_string s = true -> str_ends_slash s = false.
Proof.
  induction s as [|c s IH]; [reflexivity|]. cbn [hex_string].
  intros Hh. apply andb_true_iff in Hh as [Hc Hs].
  destruct s as [|b s]; [exact (proj1 (hex_char_plain c Hc))|]. exact (IH Hs).
Qed.

Lemma hex_string_is_part c s : hex_string (String c s) = true -> is_part (String c s) = true.
Proof.
  intros Hh. cbn [hex_string] in Hh. apply andb_true_iff in Hh as [Hc _].
  unfold is_part. cbn [String.eqb]. destruct (hex_char_plain c Hc) as [_ Hdot].
  rewrite Hdot. reflexivity.
Qed.

Lemma prefix_slash c s : Ascii.eqb c slash = false -> String.prefix "/" (String c s) = false.
Proof.
  intros Hc. cbn [String.prefix]. destruct (ascii_dec "/" c) as [<-|Hne]; [|reflexivity].
  discriminate Hc.
Qed.

(** The path strings that the commands build from an object id all name
    the parts [.git], [objects], the first two digits, the other digits. *)
Lemma object_path_strings content :
  let sha := sha1_hexdigest content in
  let parts := [".git"; "objects"; str_take 2 sha; str_drop 2 sha]%string in
  os_parts (".git/objects/" ++ str_take 2 sha ++ "/" ++ str_drop 2 sha) = parts /\
  os_path_join (os_path_join ".git/objects" (str_take 2 sha)) (str_drop 2 sha)
  = (".git/objects/" ++ str_take 2 sha ++ "/" ++ str_drop 2 sha)%string /\
  tree_object_path sha = parts /\
  (".git/objects/" ++ str_take 2 sha ++ "/" ++ str_drop 2 sha)%string <> EmptyString.
Proof.
  intros sha parts.
  destruct (sha1_hexdigest_split content) as (a & b & t & _ & Ha & Ht & Hh1 & Hh2 & Hne).
  subst parts sha. unfold tree_object_path. rewrite Ha, Ht. destruct t as [|c t]; [congruence|]. clear Ha Ht Hne.
  set (aa := String a (String b EmptyString)) in *. set (rr := String c t) in *.
  assert (Hjoin : os_path_join (os_path_join ".git/objects" aa) rr
                  = (".git/objects/" ++ aa ++ "/" ++ rr)%string).
  { assert (H1 : os_path_join ".git/objects" aa = (".git/objects/" ++ aa)%string).
    { unfold os_path_join, aa.
      destruct (hex_char_plain a) as [Hs _];
        [cbn [hex_string] in Hh1; apply andb_true_iff in Hh1 as [Hh1 _]; exact Hh1|].
      rewrite (prefix_slash _ _ Hs). reflexivity. }
    rewrite H1. unfold os_path_join at 1. unfold rr at 1.
    destruct (hex_char_plain c) as [Hs _];
      [cbn [hex_string] in Hh2; apply andb_true_iff in Hh2 as [Hh2 _]; exact Hh2|].
    rewrite (prefix_slash _ _ Hs).
    replace (String.eqb (".git/objects/" ++ aa) "") with false by reflexivity.
    cbn [orb].
    change (".git/objects/" ++ aa)%string
      with ((".git/objects/" ++ String a EmptyString) ++ String b EmptyString)%string.
    rewrite str_ends_slash_app.
    replace (str_ends_slash (String b "")) with false.
    2:{ symmetry. apply hex_string_no_slash. cbn [hex_string] in *.
        apply andb_true_iff in Hh1 as [_ Hh1]. exact Hh1. }
    unfold aa. reflexivity. }
  assert (Hcomp : components (".git/objects/" ++ aa ++ "/" ++ rr)
                  = [".git"; "objects"; aa; rr]%string).
  { change (".git/objects/" ++ aa ++ "/" ++ rr)%string
      with (".git/objects" ++ String slash (aa ++ String slash rr))%string.
    rewrite !components_app, (hex_string_components aa Hh1), (hex_string_components rr Hh2).
    reflexivity. }
  assert (Hend : str_ends_slash (".git/objects/" ++ aa ++ "/" ++ rr) = false).
  { change (".git/objects/" ++ aa ++ "/" ++ rr)%string
      with ((".git/objects/" ++ aa ++ "/") ++ String c t)%string.
    rewrite str_ends_slash_app. apply hex_string_no_slash, Hh2. }
  assert (Hos : os_parts (".git/objects/" ++ aa ++ "/" ++ rr)
                = [".git"; "objects"; aa; rr]%string).
  { unfold os_parts. rewrite Hcomp, Hend.
    replace (String.prefix "/" (".git/objects/" ++ aa ++ "/" ++ rr)) with false by reflexivity.
    reflexivity. }
  split; [exact Hos|]. split; [exact Hjoin|]. split; [|discriminate].
  unfold parse_path. rewrite Hcomp.
  replace (String.prefix "/" (".git/objects/" ++ aa ++ "/" ++ rr)) with false by reflexivity.
  cbn [app]. rewrite !filter_cons, filter_nil.
  assert (Hp1 : is_part aa = true) by exact (hex_string_is_part _ _ Hh1).
  assert (Hp2 : is_part rr = true) by exact (hex_string_is_part _ _ Hh2).
  rewrite Hp1, Hp2. reflexivity.
Qed.

Lemma walk_app fs p : forall cur q,
  walk fs cur (p ++ q) = (k ← walk fs cur p; walk fs k q).
Proof.
  induction p as [|a p IH]; intros cur q; cbn [app walk]; [reflexivity|].
  destruct (node_at fs cur) as [[d|]|]; try reflexivity. apply IH.
Qed.

(** From the working directory, the absolute path of a name below it and
    the relative one lead to the same place. *)
Lemma resolve_at_home cwd fs a q :
  at_home cwd fs -> String.eqb a "/" = false ->
  resolve cwd fs (getcwd cwd ++ a :: q) = resolve cwd fs (a :: q).
Proof.
  unfold at_home, getcwd, resolve. cbn [app]. change (String.eqb "/" "/") with true.
  cbv iota. intros Hh Ha. rewrite Ha, walk_app, Hh. reflexivity.
Qed.

Lemma at_home_mono cwd fs fs' : kind_ext fs fs' -> at_home cwd fs -> at_home cwd fs'.
Proof. intros Hext Hh. eapply resolve_mono; eassumption. Qed.

Lemma read_bytes_resolve cwd fs p q :
  resolve cwd fs p = resolve cwd fs q -> read_bytes cwd fs p = read_bytes cwd fs q.
Proof. unfold read_bytes. intros ->. reflexivity. Qed.

(** ** [init] *)

Section Init.
Context `{Zlib}.
Variable cwd : list string.

Lemma os_mkdir_existing fs p : is_dir cwd fs p = true -> os_mkdir cwd fs p = Err FileExistsError.
Proof.
  unfold os_mkdir, is_dir. destruct (resolve cwd fs p) as [k|e]; [|discriminate].
  cbn [mbind result_bind]. destruct (node_at fs k); [reflexivity|discriminate].
Qed.

Lemma init_inv fs out fs' :
  init cwd fs = Ok (out, fs') ->
  exists fs1 fs2 fs3,
    os_mkdir cwd fs [".git"%string] = Ok fs1 /\
    os_mkdir cwd fs1 [".git"; "objects"]%string = Ok fs2 /\
    os_mkdir cwd fs2 [".git"; "refs"]%string = Ok fs3 /\
    write_bytes cwd fs3 [".git"; "HEAD"]%string (encode head_text) = Ok fs' /\
    out = init_message.
Proof.
  unfold init.
  change (os_parts ".git") with [".git"%string].
  change (os_parts ".git/objects") with [".git"; "objects"]%string.
  change (os_parts ".git/refs") with [".git"; "refs"]%string.
  change (os_parts ".git/HEAD") with [".git"; "HEAD"]%string.
  destruct (os_mkdir cwd fs _) as [fs1|e] eqn:E1; [|discriminate]. cbn [mbind result_bind].
  destruct (os_mkdir cwd fs1 _) as [fs2|e] eqn:E2; [|discriminate]. cbn [mbind result_bind].
  destruct (os_mkdir cwd fs2 _) as [fs3|e] eqn:E3; [|discriminate]. cbn [mbind result_bind].
  destruct (write_bytes cwd fs3 _ _) as [fs4|e] eqn:E4; [|discriminate].
  cbn [mbind result_bind mret result_ret]. intros [= <- <-].
  exists fs1, fs2, fs3. auto.
Qed.

Lemma init_frame fs out fs' :
  init cwd fs = Ok (out, fs') ->
  is_dir cwd fs' [".git"; "objects"]%string = true /\
  kind_ext fs fs' /\
  (forall k, k ∉ (locate cwd <$> git_paths) -> fs' !! k = fs !! k).
Proof.
  intros Hi. apply init_inv in Hi as (fs1 & fs2 & fs3 & H1 & H2 & H3 & H4 & ->).
  pose proof (os_mkdir_post _ _ _ _ H1) as (_ & He1 & _).
  pose proof (os_mkdir_post _ _ _ _ H2) as (_ & He2 & Hd2).
  pose proof (os_mkdir_post _ _ _ _ H3) as (_ & He3 & _).
  pose proof (write_bytes_kind_ext _ _ _ _ _ H4) as He4.
  split; [eapply is_dir_mono; [exact He4|]; eapply is_dir_mono; [exact He3|exact Hd2]|].
  split.
  { eapply kind_ext_trans; [exact He1|]. eapply kind_ext_trans; [exact He2|].
    eapply kind_ext_trans; [exact He3|exact He4]. }
  intros k Hk. unfold git_paths in Hk. rewrite !fmap_cons, fmap_nil in Hk.
  rewrite !not_elem_of_cons in Hk. destruct Hk as (N1 & N2 & N3 & N4 & _).
  apply os_mkdir_inv in H1 as (_ & _ & ->). apply os_mkdir_inv in H2 as (_ & _ & ->).
  apply os_mkdir_inv in H3 as (_ & _ & ->). apply write_bytes_inv in H4 as (_ & _ & ->).
  rewrite !lookup_insert_ne by congruence. reflexivity.
Qed.

Lemma node_at_snoc (fs : files) k x : node_at fs (k ++ [x]) = fs !! (k ++ [x]).
Proof. destruct k; reflexivity. Qed.

Lemma os_mkdir_child fs q x :
  q <> [] -> is_dir cwd fs q = true -> (forall cur, step cur x = cur ++ [x]) ->
  fs !! (locate cwd q ++ [x]) = None ->
  os_mkdir cwd fs (q ++ [x]) = Ok (<[locate cwd q ++ [x] := Dir]> fs).
Proof.
  intros Hq Hd Hx Hn. apply is_dir_inv in Hd as [Hr Hnode].
  unfold os_mkdir. rewrite (resolve_snoc _ _ _ _ _ Hq Hr Hnode). cbn [mbind result_bind].
  rewrite Hx, node_at_snoc, Hn. reflexivity.
Qed.

Lemma init_succeeds fs :
  node_at fs cwd = Some Dir ->
  (forall k, fs !! (cwd ++ ".git"%string :: k) = None) ->
  exists fs', init cwd fs = Ok (init_message, fs').
Proof.
  intros Hcwd Hnone.
  assert (H1 : os_mkdir cwd fs [".git"%string] = Ok (<[cwd ++ [".git"%string] := Dir]> fs)).
  { unfold os_mkdir, resolve. change (String.eqb ".git" "/") with false. cbv iota.
    cbn [walk]. rewrite Hcwd. change (step cwd ".git") with (cwd ++ [".git"%string]).
    cbn [mbind result_bind]. rewrite node_at_snoc, (Hnone []). reflexivity. }
  set (fs1 := <[cwd ++ [".git"%string] := Dir]> fs) in *.
  pose proof (os_mkdir_post _ _ _ _ H1) as (_ & He1 & Hd1).
  assert (Hl : locate cwd [".git"%string] = cwd ++ [".git"%string]) by reflexivity.
  assert (H2 : os_mkdir cwd fs1 [".git"; "objects"]%string
               = Ok (<[(cwd ++ [".git"%string]) ++ ["objects"%string] := Dir]> fs1)).
  { rewrite <- Hl. apply (os_mkdir_child fs1 [".git"%string] "objects");
      [discriminate|exact Hd1|reflexivity|].
    rewrite Hl. unfold fs1. rewrite lookup_insert_ne by
      (intros E; apply (f_equal length) in E; rewrite !length_app in E; cbn in E; lia).
    rewrite <- app_assoc. apply Hnone. }
  set (fs2 := <[(cwd ++ [".git"%string]) ++ ["objects"%string] := Dir]> fs1) in *.
  pose proof (os_mkdir_post _ _ _ _ H2) as (_ & He2 & Hd2).
  assert (H3 : os_mkdir cwd fs2 [".git"; "refs"]%string
               = Ok (<[(cwd ++ [".git"%string]) ++ ["refs"%string] := Dir]> fs2)).
  { rewrite <- Hl. apply (os_mkdir_child fs2 [".git"%string] "refs");
      [discriminate|eapply is_dir_mono; [exact He2|exact Hd1]|reflexivity|].
    rewrite Hl. unfold fs2, fs1.
    rewrite lookup_insert_ne by (intros E; apply app_inv_head in E; discriminate E).
    rewrite lookup_insert_ne by
      (intros E; apply (f_equal length) in E; rewrite !length_app in E; cbn in E; lia).
    rewrite <- app_assoc. apply Hnone. }
  set (fs3 := <[(cwd ++ [".git"%string]) ++ ["refs"%string] := Dir]> fs2) in *.
  pose proof (os_mkdir_post _ _ _ _ H3) as (_ & He3 & Hd3).
  assert (Hg3 : is_dir cwd fs3 [".git"%string] = true).
  { eapply is_dir_mono; [exact He3|]. eapply is_dir_mono; [exact He2|exact Hd1]. }
  assert (H4 : exists fs4, write_bytes cwd fs3 [".git"; "HEAD"]%string (encode head_text)
                           = Ok fs4).
  { apply is_dir_inv in Hg3 as [Hr Hnode]. unfold write_bytes.
    change [".git"; "HEAD"]%string with ([".git"%string] ++ ["HEAD"%string]).
    rewrite (resolve_snoc _ _ [".git"%string] "HEAD" _ ltac:(discriminate) Hr Hnode).
    cbn [mbind result_bind]. rewrite Hl.
    change (step (cwd ++ [".git"%string]) "HEAD") with ((cwd ++ [".git"%string]) ++ ["HEAD"%string]).
    rewrite node_at_snoc. unfold fs3, fs2, fs1.
    rewrite lookup_insert_ne by (intros E; apply app_inv_head in E; discriminate E).
    rewrite lookup_insert_ne by (intros E; apply app_inv_head in E; discriminate E).
    rewrite lookup_insert_ne by
      (intros E; apply (f_equal length) in E; rewrite !length_app in E; cbn in E; lia).
    rewrite <- app_assoc. cbn [app]. rewrite (Hnone ["HEAD"%string]). eauto. }
  destruct H4 as [fs4 H4]. exists fs4. unfold init.
  change (os_parts ".git") with [".git"%string].
  change (os_parts ".git/objects") with [".git"; "objects"]%string.
  change (os_parts ".git/refs") with [".git"; "refs"]%string.
  change (os_parts ".git/HEAD") with [".git"; "HEAD"]%string.
  rewrite H1. cbn [mbind result_bind]. rewrite H2. cbn [mbind result_bind].
  rewrite H3. cbn [mbind result_bind]. fold head_text. rewrite H4. reflexivity.
Qed.

End Init.

Lemma git_paths_depth cwd k :
  (length cwd + 2 < length k)%nat -> k ∉ (locate cwd <$> git_paths).
Proof.
  intros Hlen Hin. unfold git_paths in Hin. rewrite !fmap_cons, fmap_nil in Hin.
  rewrite !elem_of_cons in Hin.
  assert (E1 : locate cwd [".git"%string] = cwd ++ [".git"%string]) by reflexivity.
  assert (E2 : forall x : string, locate cwd [".git"%string; x] = step (cwd ++ [".git"%string]) x)
    by reflexivity.
  destruct Hin as [->|[->|[->|[->|Hin]]]]; [..|inversion Hin];
    rewrite ?E1, ?E2 in Hlen; unfold step in Hlen; cbn [String.eqb Ascii.eqb Bool.eqb] in Hlen;
    rewrite ?length_app in Hlen; cbn [length] in Hlen; lia.
Qed.

Lemma is_dir_resolve cwd fs p q :
  resolve cwd fs p = resolve cwd fs q -> is_dir cwd fs p = is_dir cwd fs q.
Proof. unfold is_dir. intros ->. reflexivity. Qed.

Section InitStore.
Context `{Zlib}.
Variable cwd : list string.

Lemma store_after_init `{!ZlibLaws} fs out fs1 t data :
  at_home cwd fs ->
  (forall k, fs !! (cwd ++ ".git"%string :: k) = None) ->
  init cwd fs = Ok (out, fs1) ->
  In t valid_types ->
  exists fs2,
    create_object cwd t data (getcwd cwd) fs1 = Ok (sha1_hexdigest (frame t data), fs2) /\
    read_object cwd (sha1_hexdigest (frame t data)) (getcwd cwd) fs2 = Ok (t, data).
Proof.
  intros Hhome Hnone Hi Ht.
  pose proof (init_frame cwd fs out fs1 Hi) as (Hobj & Hext & Hframe).
  pose proof (at_home_mono _ _ _ Hext Hhome) as Hhome1.
  assert (Hres : resolve cwd fs1 (path_div (path_div (getcwd cwd) ".git") "objects")
                 = resolve cwd fs1 [".git"; "objects"]%string).
  { rewrite objects_parts. apply resolve_at_home; [exact Hhome1|reflexivity]. }
  assert (Hobj' : is_dir cwd fs1 (path_div (path_div (getcwd cwd) ".git") "objects") = true).
  { rewrite (is_dir_resolve _ _ _ _ Hres). exact Hobj. }
  assert (Hloc : locate cwd (path_div (path_div (getcwd cwd) ".git") "objects")
                 = (cwd ++ [".git"%string]) ++ ["objects"%string]).
  { pose proof (proj1 (is_dir_inv _ _ _ Hobj')) as R1.
    pose proof (proj1 (is_dir_inv _ _ _ Hobj)) as R2.
    rewrite Hres, R2 in R1.
    transitivity (locate cwd [".git"; "objects"]%string); [congruence|reflexivity]. }
  destruct (sha1_hexdigest_split (frame t data))
    as (a & b & r & _ & Ha & Hr & Hh1 & Hh2 & Hne).
  destruct r as [|c r]; [congruence|].
  assert (Hnew : forall k, fs1 !! (((cwd ++ [".git"%string]) ++ ["objects"%string]) ++ k)
                           = None \/ k = []).
  { intros k. destruct k as [|x k]; [auto|left]. rewrite Hframe.
    - rewrite <- !app_assoc. apply Hnone.
    - apply git_paths_depth. rewrite !length_app. cbn [length]. lia. }
  destruct (create_object_succeeds cwd t data (getcwd cwd) fs1 Hobj') as [fs2 Hc].
  - intros d. rewrite Hloc, Ha, (proj2 (hex_string_part [] _ _ Hh1)), node_at_snoc.
    destruct (Hnew [String a (String b EmptyString)]) as [->|E]; [discriminate|discriminate E].
  - rewrite Hloc, Ha, Hr, (proj2 (hex_string_part [] _ _ Hh1)),
      (proj2 (hex_string_part [] _ _ Hh2)), node_at_snoc, <- app_assoc.
    destruct (Hnew ([String a (String b EmptyString)] ++ [String c r])) as [->|E];
      [discriminate|discriminate E].
  - exists fs2. split; [exact Hc|].
    exact (get_put_plain cwd t data (getcwd cwd) fs1 _ fs2 (valid_type_plain t Ht) Hc).
Qed.

Lemma cat_file_stored `{!ZlibLaws} category data fs oid fs' :
  at_home cwd fs -> (x00 ∉ encode category) ->
  create_object cwd category data (getcwd cwd) fs = Ok (oid, fs') ->
  cat_file cwd oid fs' = decode data.
Proof.
  intros Hhome Hnul Hc.
  pose proof (at_home_mono _ _ _ (create_object_kind_ext _ _ _ _ _ _ _ Hc) Hhome) as Hhome'.
  pose proof (create_object_stored _ _ _ _ _ _ _ Hc) as Hr.
  pose proof (proj1 (create_object_inv _ _ _ _ _ _ _ Hc)) as ->.
  destruct (object_path_strings (frame category data)) as (Hos & _ & _ & Hne).
  unfold cat_file, open_rb. apply String.eqb_neq in Hne. rewrite Hne, Hos.
  rewrite (proj1 (object_location cwd (getcwd cwd) (frame category data))) in Hr.
  erewrite <- read_bytes_resolve; [|apply resolve_at_home; [exact Hhome'|reflexivity]].
  rewrite Hr. cbn [mbind result_bind].
  rewrite decompress_compress by (unfold Z_BEST_SPEED; lia). cbn [mbind result_bind].
  rewrite frame_split, split1_app.
  - reflexivity.
  - unfold header_bytes. rewrite elem_of_app, elem_of_cons.
    intros [?|[?|?]]; [auto|discriminate|]. eapply decimal_no_nul; eassumption.
Qed.

Lemma hash_object_inv file fs oid fs' :
  hash_object cwd file fs = Ok (oid, fs') ->
  exists data, open_rb cwd fs file = Ok data /\
               create_object cwd "blob" data (getcwd cwd) fs = Ok (oid, fs').
Proof.
  unfold hash_object. destruct (open_rb cwd fs file) as [data|e]; [|discriminate].
  cbn [mbind result_bind]. eauto.
Qed.

End InitStore.

(** X13: when [init] succeeds it prints its message, [.git], [.git/objects]
    and [.git/refs] are directories, [.git/HEAD] holds the reference to the
    branch [main], no other node of the file system has changed, and a
    second [init] fails with [FileExistsError]. *)
Theorem init_creates cwd fs out fs' :
  init cwd fs = Ok (out, fs') ->
  out = init_message /\
  is_dir cwd fs' [".git"%string] = true /\
  is_dir cwd fs' [".git"; "objects"]%string = true /\
  is_dir cwd fs' [".git"; "refs"]%string = true /\
  read_bytes cwd fs' [".git"; "HEAD"]%string = Ok (encode head_text) /\
  kind_ext fs fs' /\
  (forall k, k ∉ (locate cwd <$> git_paths) -> fs' !! k = fs !! k) /\
  init cwd fs' = Err FileExistsError.
Proof.
  intros Hi. apply (init_inv cwd) in Hi as (fs1 & fs2 & fs3 & H1 & H2 & H3 & H4 & ->).
  pose proof (os_mkdir_post _ _ _ _ H1) as (_ & He1 & Hd1).
  pose proof (os_mkdir_post _ _ _ _ H2) as (_ & He2 & Hd2).
  pose proof (os_mkdir_post _ _ _ _ H3) as (_ & He3 & Hd3).
  pose proof (write_bytes_kind_ext _ _ _ _ _ H4) as He4.
  assert (Hg : is_dir cwd fs' [".git"%string] = true).
  { eapply is_dir_mono; [exact He4|]. eapply is_dir_mono; [exact He3|].
    eapply is_dir_mono; [exact He2|exact Hd1]. }
  split; [reflexivity|]. split; [exact Hg|]. split.
  { eapply is_dir_mono; [exact He4|]. eapply is_dir_mono; [exact He3|exact Hd2]. }
  split; [eapply is_dir_mono; [exact He4|exact Hd3]|].
  split; [eapply write_bytes_read, H4|]. split.
  { eapply kind_ext_trans; [exact He1|]. eapply kind_ext_trans; [exact He2|].
    eapply kind_ext_trans; [exact He3|exact He4]. }
  split.
  - intros k Hk. unfold git_paths in Hk. rewrite !fmap_cons, fmap_nil in Hk.
    rewrite !not_elem_of_cons in Hk. destruct Hk as (N1 & N2 & N3 & N4 & _).
    apply os_mkdir_inv in H1 as (_ & _ & ->). apply os_mkdir_inv in H2 as (_ & _ & ->).
    apply os_mkdir_inv in H3 as (_ & _ & ->). apply write_bytes_inv in H4 as (_ & _ & ->).
    rewrite !lookup_insert_ne by congruence. reflexivity.
  - unfold init. change (os_parts ".git") with [".git"%string].
    rewrite (os_mkdir_existing cwd _ _ Hg). reflexivity.
Qed.

Lemma init_creates_witness :
  match init repo empty_repo with
  | Ok (out, fs') =>
      out = init_message /\
      is_dir repo fs' [".git"%string] = true /\
      is_dir repo fs' [".git"; "objects"]%string = true /\
      is_dir repo fs' [".git"; "refs"]%string = true /\
      read_bytes repo fs' [".git"; "HEAD"]%string = Ok (encode head_text) /\
      kind_ext empty_repo fs' /\
      (forall k, k ∉ (locate repo <$> git_paths) -> fs' !! k = empty_repo !! k) /\
      init repo fs' = Err FileExistsError
  | Err _ => False
  end.
Proof.
  assert (Hok : is_ok (init repo empty_repo) = true) by (vm_compute; reflexivity).
  destruct (init repo empty_repo) as [[out fs']|e] eqn:E; [|discriminate Hok].
  exact (init_creates repo empty_repo out fs' E).
Defined.

(** X14: in a working directory that exists, is where its own path leads
    and has nothing named [.git], [init] succeeds, and on the repository it
    leaves every object of a valid type can be stored and read back. *)
Theorem init_then_store `{ZlibLaws} cwd fs :
  at_home cwd fs -> node_at fs cwd = Some Dir ->
  (forall k, fs !! (cwd ++ ".git"%string :: k) = None) ->
  exists fs1,
    init cwd fs = Ok (init_message, fs1) /\
    forall t data, In t valid_types ->
      exists fs2,
        create_object cwd t data (getcwd cwd) fs1 = Ok (sha1_hexdigest (frame t data), fs2) /\
        read_object cwd (sha1_hexdigest (frame t data)) (getcwd cwd) fs2 = Ok (t, data).
Proof.
  intros Hhome Hcwd Hnone. destruct (init_succeeds cwd fs Hcwd Hnone) as [fs1 Hi].
  exists fs1. split; [exact Hi|]. intros t data Ht.
  exact (store_after_init cwd fs _ fs1 t data Hhome Hnone Hi Ht).
Qed.

Lemma init_then_store_witness :
  exists fs1,
    init repo empty_repo = Ok (init_message, fs1) /\
    forall t data, In t valid_types ->
      exists fs2,
        create_object repo t data (getcwd repo) fs1 = Ok (sha1_hexdigest (frame t data), fs2) /\
        read_object repo (sha1_hexdigest (frame t data)) (getcwd repo) fs2 = Ok (t, data).
Proof.
  apply (init_then_store repo empty_repo).
  - reflexivity.
  - reflexivity.
  - intros k. apply lookup_singleton_ne. discriminate.
Defined.

(** X15: [cat-file -p] prints the payload of an object that [create_object]
    has stored from the working directory whenever the payload is text,
    whatever the type of the object, and fails with [UnicodeDecodeError]
    when it is not text. *)
Theorem cat_file_any_type `{ZlibLaws} cwd category data fs oid fs' :
  at_home cwd fs -> (x00 ∉ encode category) ->
  create_object cwd category data (getcwd cwd) fs = Ok (oid, fs') ->
  cat_file cwd oid fs' = decode data /\
  (utf8_valid data = false -> cat_file cwd oid fs' = Err UnicodeDecodeError).
Proof.
  intros Hhome Hnul Hc.
  pose proof (cat_file_stored cwd category data fs oid fs' Hhome Hnul Hc) as Hcat.
  split; [exact Hcat|]. intros Hv. rewrite Hcat. unfold decode. rewrite Hv. reflexivity.
Qed.

Lemma cat_file_any_type_witness :
  match create_object repo "commit" (bs "tree 1234") (getcwd repo) init_repo with
  | Ok (oid, fs') => cat_file repo oid fs' = Ok "tree 1234"%string
  | Err _ => False
  end.
Proof.
  assert (Hok : is_ok (create_object repo "commit" (bs "tree 1234") (getcwd repo) init_repo)
                = true) by (vm_compute; reflexivity).
  destruct (create_object repo "commit" (bs "tree 1234") (getcwd repo) init_repo)
    as [[oid fs']|e] eqn:E; [|discriminate Hok].
  refine (proj1 (cat_file_any_type repo "commit" (bs "tree 1234") init_repo oid fs'
                   eq_refl _ E)).
  apply (bool_decide_unpack _). vm_compute. exact I.
Defined.

(** X16: [hash-object -w file] followed by [cat-file -p] of the id it
    prints: the id is that of the blob of the file's bytes, the object
    reads back as that blob, and [cat-file] prints the file's text. *)
Theorem hash_object_cat_file `{ZlibLaws} cwd file fs oid fs' :
  at_home cwd fs ->
  hash_object cwd file fs = Ok (oid, fs') ->
  exists data,
    open_rb cwd fs file = Ok data /\
    oid = sha1_hexdigest (frame "blob" data) /\
    read_object cwd oid (getcwd cwd) fs' = Ok ("blob"%string, data) /\
    cat_file cwd oid fs' = decode data.
Proof.
  intros Hhome Hh. apply hash_object_inv in Hh as (data & Ho & Hc).
  exists data. split; [exact Ho|]. split; [exact (proj1 (create_object_inv _ _ _ _ _ _ _ Hc))|].
  split.
  - exact (get_put_plain cwd "blob" data (getcwd cwd) fs oid fs'
             (valid_type_plain "blob" ltac:(left; reflexivity)) Hc).
  - apply (cat_file_stored cwd "blob" data fs oid fs' Hhome); [|exact Hc].
    apply (bool_decide_unpack _). vm_compute. exact I.
Qed.

Lemma hash_object_cat_file_witness :
  match hash_object repo "notes" checkout_repo with
  | Ok (oid, fs') =>
      exists data,
        open_rb repo checkout_repo "notes" = Ok data /\
        oid = sha1_hexdigest (frame "blob" data) /\
        read_object repo oid (getcwd repo) fs' = Ok ("blob"%string, data) /\
        cat_file repo oid fs' = decode data
  | Err _ => False
  end.
Proof.
  assert (Hok : is_ok (hash_object repo "notes" checkout_repo) = true)
    by (vm_compute; reflexivity).
  destruct (hash_object repo "notes" checkout_repo) as [[oid fs']|e] eqn:E;
    [|discriminate Hok].
  exact (hash_object_cat_file repo "notes" checkout_repo oid fs' eq_refl E).
Defined.

(** ** From [commit-tree] to the checkout *)

Lemma commit_data_tree tree_sha commit_sha message now :
  length (encode tree_sha) = 40%nat ->
  slice (commit_data tree_sha commit_sha message now) 5 (40 + 5) = encode tree_sha.
Proof.
  intros Hlen. unfold commit_data, slice. cbn [concat].
  change (bs "tree ") with [x74; x72; x65; x65; x20].
  cbn [app drop]. replace (40 + 5 - 5)%nat with 40%nat by reflexivity.
  rewrite <- !app_assoc. apply take_app_length'. symmetry. exact Hlen.
Qed.

(** X17: the checkout at the end of [clone] finds the tree of a commit that
    [commit-tree] wrote: when the tree id given to [commit-tree] is text of
    40 bytes, [render_tree] is run on that id. *)
Theorem checkout_reads_tree_id `{ZlibLaws} cwd fuel tree_sha commit_sha message now fs
    oid fs' :
  length (encode tree_sha) = 40%nat -> utf8_valid (encode tree_sha) = true ->
  commit_tree cwd tree_sha commit_sha message now fs = Ok (oid, fs') ->
  read_object cwd oid (getcwd cwd) fs'
  = Ok ("commit"%string, commit_data tree_sha commit_sha message now) /\
  checkout cwd fuel oid (getcwd cwd) fs'
  = render_tree_log cwd fuel (getcwd cwd) (getcwd cwd) tree_sha fs'.
Proof.
  intros Hlen Hv Hc. unfold commit_tree in Hc.
  assert (Hr : read_object cwd oid (getcwd cwd) fs'
               = Ok ("commit"%string, commit_data tree_sha commit_sha message now)).
  { exact (get_put_plain cwd "commit" _ (getcwd cwd) fs oid fs'
             (valid_type_plain "commit" ltac:(right; right; left; reflexivity)) Hc). }
  split; [exact Hr|]. unfold checkout. rewrite Hr. cbn [mbind result_bind].
  rewrite (commit_data_tree _ _ _ _ Hlen), (decode_encode _ Hv). reflexivity.
Qed.

Lemma checkout_reads_tree_id_witness :
  match commit_tree repo empty_tree_oid some_oid "first" 1700000000 captured_repo with
  | Ok (oid, fs') =>
      read_object repo oid (getcwd repo) fs'
      = Ok ("commit"%string, commit_data empty_tree_oid some_oid "first" 1700000000) /\
      checkout repo 1 oid (getcwd repo) fs'
      = render_tree_log repo 1 (getcwd repo) (getcwd repo) empty_tree_oid fs'
  | Err _ => False
  end.
Proof.
  assert (Hok : is_ok (commit_tree repo empty_tree_oid some_oid "first" 1700000000
                         captured_repo) = true) by (vm_compute; reflexivity).
  destruct (commit_tree repo empty_tree_oid some_oid "first" 1700000000 captured_repo)
    as [[oid fs']|e] eqn:E; [|discriminate Hok].
  exact (checkout_reads_tree_id repo 1 empty_tree_oid some_oid "first" 1700000000
           captured_repo oid fs' eq_refl eq_refl E).
Defined.

(** ** More on tree capture *)

(** X18: on a path that is a regular file [write_tree] stores the file's
    bytes as a blob: the id is the blob's, and the object reads back as
    [("blob", data)]. *)
Theorem write_tree_file `{ZlibLaws} cwd n path fs oid fs' :
  is_file cwd fs path = true ->
  write_tree cwd (S n) path fs = Ok (oid, fs') ->
  exists data,
    read_bytes cwd fs path = Ok data /\
    oid = sha1_hexdigest (frame "blob" data) /\
    read_object cwd oid (getcwd cwd) fs' = Ok ("blob"%string, data).
Proof.
  intros Hf Hw. cbn [write_tree] in Hw. rewrite Hf in Hw.
  destruct (read_bytes cwd fs path) as [data|e]; [|discriminate Hw].
  cbn [mbind result_bind] in Hw. exists data. split; [reflexivity|].
  split; [exact (proj1 (create_object_inv _ _ _ _ _ _ _ Hw))|].
  exact (get_put_plain cwd "blob" data (getcwd cwd) fs oid fs'
           (valid_type_plain "blob" ltac:(left; reflexivity)) Hw).
Qed.

Lemma write_tree_file_witness :
  match write_tree repo 1 (getcwd repo ++ ["notes"%string]) checkout_repo with
  | Ok (oid, fs') =>
      exists data,
        read_bytes repo checkout_repo (getcwd repo ++ ["notes"%string]) = Ok data /\
        oid = sha1_hexdigest (frame "blob" data) /\
        read_object repo oid (getcwd repo) fs' = Ok ("blob"%string, data)
  | Err _ => False
  end.
Proof.
  assert (Hok : is_ok (write_tree repo 1 (getcwd repo ++ ["notes"%string]) checkout_repo)
                = true) by (vm_compute; reflexivity).
  destruct (write_tree repo 1 (getcwd repo ++ ["notes"%string]) checkout_repo)
    as [[oid fs']|e] eqn:E; [|discriminate Hok].
  exact (write_tree_file repo 0 (getcwd repo ++ ["notes"%string]) checkout_repo oid fs'
           eq_refl E).
Defined.

(** *** The 20 bytes of an entry *)

Lemma hex_value_digit b :
  hex_value (hex_digit (b2z b / 16)) = Some (b2z b / 16) /\
  hex_value (hex_digit (b2z b mod 16)) = Some (b2z b mod 16).
Proof. destruct b; split; reflexivity. Qed.

Lemma int16_hex l : forall acc,
  int16 acc (hex l) = Ok (fold_left (fun a b => 256 * a + b2z b) l acc).
Proof.
  induction l as [|b l IH]; intros acc; cbn [hex int16 fold_left]; [reflexivity|].
  destruct (hex_value_digit b) as [-> ->]. rewrite IH. do 2 f_equal.
  pose proof (Z.div_mod (b2z b) 16 ltac:(lia)). lia.
Qed.

Lemma be_value_snoc l b : be_value (l ++ [b]) = 256 * be_value l + b2z b.
Proof. unfold be_value. rewrite fold_left_app. reflexivity. Qed.

Lemma be_value_range l : 0 <= be_value l < 2 ^ (8 * Z.of_nat (length l)).
Proof.
  induction l as [|b l IH] using rev_ind; [cbn; lia|].
  rewrite be_value_snoc, length_app. cbn [length].
  replace (8 * Z.of_nat (length l + 1)) with (8 * Z.of_nat (length l) + 8) by lia.
  rewrite Z.pow_add_r by lia. pose proof (b2z_range b). lia.
Qed.

Lemma be_bytes_step n v b :
  0 <= b < 256 -> SHA1.be_bytes (S n) (256 * v + b) = SHA1.be_bytes n v ++ [b].
Proof.
  intros Hb. unfold SHA1.be_bytes.
  change (seq 0 (S n)) with (0%nat :: seq 1 n). cbn [rev]. rewrite map_app. cbn [map].
  f_equal.
  - rewrite <- seq_shift, <- !map_rev, map_map. apply map_ext. intros i.
    rewrite !Z.shiftr_div_pow2 by lia.
    replace (8 * Z.of_nat (S i)) with (8 + 8 * Z.of_nat i) by lia.
    rewrite Z.pow_add_r, <- Z.div_div by lia. f_equal.
    f_equal. change (2 ^ 8) with 256.
    rewrite Z.mul_comm, Z.div_add_l by lia. rewrite Z.div_small by lia. lia.
  - f_equal. change (8 * Z.of_nat 0) with 0. rewrite Z.shiftr_0_r.
    rewrite Z.add_comm, Z.mul_comm, Z.mod_add by lia. apply Z.mod_small. exact Hb.
Qed.

Lemma be_bytes_value l : map z2b (SHA1.be_bytes (length l) (be_value l)) = l.
Proof.
  induction l as [|b l IH] using rev_ind; [reflexivity|].
  rewrite be_value_snoc, length_app. cbn [length]. rewrite Nat.add_1_r.
  rewrite be_bytes_step by apply b2z_range.
  rewrite map_app, IH. cbn [map]. rewrite z2b_b2z. reflexivity.
Qed.

(** X19: the id of a child goes into its tree entry as
    [int(sha, 16).to_bytes(20, "big")]; for the hexadecimal text of 20 bytes
    this is those bytes, so the conversion raises neither [ValueError] nor
    [OverflowError] on a digest, and the [.hex()] of [render_tree] and
    [ls-tree] gives the id back. *)
Theorem entry_oid_roundtrip l :
  length l = 20%nat ->
  (n ← int16 0 (hex l); to_bytes 20 n) = Ok l /\
  (forall content,
     (n ← int16 0 (sha1_hexdigest content); to_bytes 20 n) = Ok (SHA1.digest content)).
Proof.
  assert (Hgen : forall l, length l = 20%nat -> (n ← int16 0 (hex l); to_bytes 20 n) = Ok l).
  { clear l. intros l Hlen. rewrite int16_hex. cbn [mbind result_bind]. fold (be_value l).
    unfold to_bytes. pose proof (be_value_range l) as Hr. rewrite Hlen in Hr.
    replace (be_value l <? 2 ^ (8 * Z.of_nat 20)) with true by (symmetry; apply Z.ltb_lt; lia).
    rewrite <- Hlen at 1. rewrite be_bytes_value. reflexivity. }
  intros Hlen. split; [exact (Hgen l Hlen)|].
  intros content. apply Hgen. reflexivity.
Qed.

Lemma entry_oid_roundtrip_witness :
  (n ← int16 0 (hex blob_A_oid); to_bytes 20 n) = Ok blob_A_oid.
Proof. exact (proj1 (entry_oid_roundtrip blob_A_oid eq_refl)). Defined.

(** ** [ls-tree] *)

Lemma str_app_nil_r (s : string) : (s ++ "")%string = s.
Proof.
  induction s as [|c s IH]; [reflexivity|].
  change (String c s +:+ "") with (String c (s +:+ "")). rewrite IH. reflexivity.
Qed.

Lemma str_app_assoc (s t u : string) : ((s ++ t) ++ u)%string = (s ++ t ++ u)%string.
Proof.
  induction s as [|c s IH]; [reflexivity|].
  change ((String c s +:+ t) +:+ u) with (String c ((s +:+ t) +:+ u)).
  rewrite IH. reflexivity.
Qed.

Lemma is_word_inv l :
  is_word l = true ->
  l <> [] /\ forallb (fun b => negb (is_space b)) l = true /\ (x00 ∉ l).
Proof.
  intros Hw. split; [intros ->; discriminate Hw|].
  assert (Hall : forallb (fun b => negb (is_space b) && negb (b2z b =? 0)) l = true)
    by (destruct l; [discriminate Hw|exact Hw]).
  clear Hw. induction l as [|b l IH]; [split; [reflexivity|apply not_elem_of_nil]|].
  cbn [forallb] in *. apply andb_true_iff in Hall as [Hb Hall].
  apply andb_true_iff in Hb as [Hs Hz]. destruct (IH Hall) as [IH1 IH2].
  split; [rewrite Hs, IH1; reflexivity|].
  apply not_elem_of_cons. split; [|exact IH2].
  intros <-. discriminate Hz.
Qed.

Lemma split_ws_from_run w : forall acc rest,
  forallb (fun b => negb (is_space b)) w = true ->
  split_ws_from acc (w ++ rest) = split_ws_from (acc ++ w) rest.
Proof.
  induction w as [|b w IH]; intros acc rest Hw; cbn [app forallb split_ws_from] in *.
  - rewrite app_nil_r. reflexivity.
  - apply andb_true_iff in Hw as [Hb Hw]. apply negb_true_iff in Hb. rewrite Hb.
    rewrite IH by exact Hw. rewrite <- app_assoc. reflexivity.
Qed.

Lemma split_ws_from_last w :
  w <> [] -> forallb (fun b => negb (is_space b)) w = true -> split_ws_from [] w = [w].
Proof.
  intros Hne Hw. rewrite <- (app_nil_r w) at 1. rewrite split_ws_from_run by exact Hw.
  cbn [app split_ws_from]. destruct w; [congruence|reflexivity].
Qed.

Lemma split_ws_from_word w rest :
  w <> [] -> forallb (fun b => negb (is_space b)) w = true ->
  split_ws_from [] (w ++ x20 :: rest) = w :: split_ws_from [] rest.
Proof.
  intros Hne Hw. rewrite split_ws_from_run by exact Hw. cbn [app split_ws_from].
  change (is_space x20) with true. cbv iota. destruct w; [congruence|reflexivity].
Qed.

Lemma split_ws_two m n :
  is_word m = true -> is_word n = true -> split_ws (m ++ x20 :: n) = [m; n].
Proof.
  intros Hm Hn. apply is_word_inv in Hm as (Hm1 & Hm2 & _).
  apply is_word_inv in Hn as (Hn1 & Hn2 & _). unfold split_ws.
  rewrite split_ws_from_word, split_ws_from_last by assumption. reflexivity.
Qed.

Lemma split_ws_three m n1 n2 :
  is_word m = true -> is_word n1 = true -> is_word n2 = true ->
  split_ws (m ++ x20 :: n1 ++ x20 :: n2) = [m; n1; n2].
Proof.
  intros Hm H1 H2. apply is_word_inv in Hm as (Hm1 & Hm2 & _).
  apply is_word_inv in H1 as (Ha & Hb & _). apply is_word_inv in H2 as (Hc & Hd & _).
  unfold split_ws. rewrite !split_ws_from_word, split_ws_from_last by assumption.
  reflexivity.
Qed.

Lemma entry_bytes_parts e :
  entry_bytes e = (encode (e_mode e) ++ x20 :: encode (e_name e)) ++ x00 :: e_oid e.
Proof.
  unfold entry_bytes. rewrite !encode_app.
  change (encode " ") with [x20]. change (encode NUL) with [x00].
  rewrite <- !app_assoc. reflexivity.
Qed.

Lemma listable_inv e :
  listable e = true ->
  is_word (encode (e_mode e)) = true /\ utf8_valid (encode (e_mode e)) = true /\
  is_word (encode (e_name e)) = true /\ utf8_valid (encode (e_name e)) = true /\
  length (e_oid e) = 20%nat.
Proof.
  unfold listable, listable_name. rewrite !andb_true_iff, Nat.eqb_eq. tauto.
Qed.

(** One round of the loop on data that has a NUL. *)
Lemma ls_tree_loop_head n name_only head rest out :
  (x00 ∉ head) ->
  ls_tree_loop (S n) name_only (head ++ x00 :: rest) out
  = ('(mode, name) ← unpack2 (split_ws head);
     mode_text ← decode mode;
     line ← (if name_only then decode name
             else
               mode_text0 ← decode mode;
               name_text ← decode name;
               mret (mode_text0 ++ " "
                     ++ (if String.eqb mode_text "040000" then "tree" else "blob") ++ " "
                     ++ hex (take 20 rest) ++ " " ++ name_text)%string);
     ls_tree_loop n name_only (drop 20 rest) (out ++ line ++ NL)%string).
Proof.
  intros Hnul. destruct (head ++ x00 :: rest) as [|b l] eqn:E.
  { apply app_eq_nil in E as [_ E]. discriminate E. }
  cbn [ls_tree_loop]. rewrite <- E, split1_app by exact Hnul. reflexivity.
Qed.

Lemma ls_tree_loop_entry n name_only e rest out :
  listable e = true ->
  ls_tree_loop (S n) name_only (entry_bytes e ++ rest) out
  = ls_tree_loop n name_only rest (out ++ ls_line name_only e ++ NL)%string.
Proof.
  intros He. apply listable_inv in He as (Hm & Hmv & Hn & Hnv & Ho).
  pose proof (is_word_inv _ Hm) as (Hm1 & _ & Hm0).
  pose proof (is_word_inv _ Hn) as (_ & _ & Hn0).
  rewrite entry_bytes_parts, <- app_assoc. cbn [app]. rewrite ls_tree_loop_head.
  2:{ rewrite elem_of_app, elem_of_cons. intros [?|[?|?]]; [auto|discriminate|auto]. }
  rewrite (split_ws_two _ _ Hm Hn). cbn [unpack2 mbind result_bind].
  rewrite (decode_encode _ Hmv). cbn [mbind result_bind].
  rewrite (take_app_length' _ _ _ (eq_sym Ho)), (drop_app_length' _ _ _ (eq_sym Ho)).
  unfold ls_line. destruct name_only.
  - rewrite (decode_encode _ Hnv). reflexivity.
  - rewrite (decode_encode _ Hnv). reflexivity.
Qed.

Lemma entry_bytes_length e : (0 < length (entry_bytes e))%nat.
Proof. rewrite entry_bytes_parts, length_app. cbn [length]. lia. Qed.

Lemma ls_tree_loop_entries name_only entries : forall fuel out,
  forallb listable entries = true ->
  (length (concat (map entry_bytes entries)) <= fuel)%nat ->
  ls_tree_loop fuel name_only (concat (map entry_bytes entries)) out
  = Ok (out ++ concat_lines (map (ls_line name_only) entries))%string.
Proof.
  induction entries as [|e entries IH]; intros fuel out Hall Hfuel;
    cbn [map concat concat_lines forallb] in *.
  - rewrite str_app_nil_r. destruct fuel; reflexivity.
  - apply andb_true_iff in Hall as [He Hall]. rewrite length_app in Hfuel.
    pose proof (entry_bytes_length e) as Hpos.
    destruct fuel as [|n]; [lia|]. rewrite (ls_tree_loop_entry _ _ _ _ _ He).
    rewrite IH by (exact Hall || lia). rewrite !str_app_assoc. reflexivity.
Qed.

Lemma to_bytes_length len n l : to_bytes len n = Ok l -> length l = len.
Proof.
  unfold to_bytes. destruct (n <? _); [|discriminate]. intros [= <-].
  unfold SHA1.be_bytes. rewrite !length_map, length_rev, length_seq. reflexivity.
Qed.

Lemma frame_split1 category data :
  (x00 ∉ encode category) ->
  split1 x00 (frame category data) = [header_bytes category (length data); data].
Proof.
  intros Hnul. rewrite frame_split. apply split1_app.
  unfold header_bytes. rewrite elem_of_app, elem_of_cons.
  intros [?|[?|?]]; [auto|discriminate|]. eapply decimal_no_nul; eassumption.
Qed.

Section ListTree.
Context `{Zlib}.
Variable cwd : list string.

Lemma write_entries_modes rec path contents : forall acc fs entries fs',
  write_entries cwd rec path contents acc fs = Ok (entries, fs') ->
  Forall captured_mode acc -> Forall captured_mode entries.
Proof.
  induction contents as [|item contents IH]; intros acc fs entries fs' Hw Hacc;
    cbn [write_entries] in Hw.
  - injection Hw as <- <-. exact Hacc.
  - destruct (String.eqb item ".git"); [eauto|].
    destruct (rec (path ++ [item]) fs) as [[sha fs1]|e]; [|discriminate Hw].
    cbn [mbind result_bind] in Hw.
    destruct (int16 0 sha) as [v|e]; [|discriminate Hw]. cbn [mbind result_bind] in Hw.
    destruct (to_bytes 20 v) as [oid|e] eqn:Et; [|discriminate Hw].
    cbn [mbind result_bind] in Hw. apply IH in Hw; [exact Hw|].
    apply Forall_app. split; [exact Hacc|]. constructor; [|constructor].
    split; [|exact (to_bytes_length _ _ _ Et)]. cbn [e_mode].
    destruct (is_file cwd fs (path ++ [item])); auto.
Qed.

(** What [ls-tree] does with an object file in place: the entries that
    follow the header are listed. *)
Lemma ls_tree_reads `{!ZlibLaws} name_only category data lvl fs :
  -1 <= lvl <= 9 -> (x00 ∉ encode category) ->
  read_bytes cwd fs (tree_object_path (sha1_hexdigest (frame category data)))
  = Ok (compress lvl (frame category data)) ->
  ls_tree cwd name_only (sha1_hexdigest (frame category data)) fs
  = ls_tree_loop (length data) name_only data "".
Proof.
  intros Hlvl Hnul Hr.
  destruct (object_path_strings (frame category data)) as (Hos & Hjoin & Htree & Hne).
  unfold ls_tree, open_rb. rewrite Hjoin. apply String.eqb_neq in Hne. rewrite Hne, Hos.
  rewrite Htree in Hr. rewrite Hr. cbn [mbind result_bind].
  rewrite decompress_compress by exact Hlvl. cbn [mbind result_bind].
  rewrite frame_split1 by exact Hnul. reflexivity.
Qed.

Lemma ls_tree_written `{!ZlibLaws} name_only n path fs oid fs' names :
  is_file cwd fs path = false ->
  listdir cwd fs path = Ok names ->
  forallb listable_name names = true ->
  write_tree cwd (S n) path fs = Ok (oid, fs') ->
  exists entries,
    oid = sha1_hexdigest (frame "tree" (concat (map entry_bytes entries))) /\
    map e_name entries
    = List.filter not_git
        (sorted_by (sort_key (fun x => is_file cwd fs (path ++ [x]))) names) /\
    Forall captured_mode entries /\
    ls_tree cwd name_only oid fs' = Ok (concat_lines (map (ls_line name_only) entries)).
Proof.
  intros Hf Hl Hnames Hw.
  destruct (write_tree_dir_inv cwd n path fs oid fs' Hf Hw)
    as (names' & entries & fs1 & fs2 & Hl' & He & Ho & _ & Hwr).
  rewrite Hl in Hl'. injection Hl' as <-.
  pose proof (write_entries_names _ _ _ _ _ _ _ _ He) as Hn. cbn [map app] in Hn.
  pose proof (write_entries_modes _ _ _ _ _ _ _ He ltac:(constructor)) as Hm.
  exists entries. split; [exact Ho|]. split; [exact Hn|]. split; [exact Hm|].
  apply write_bytes_read in Hwr. subst oid.
  rewrite (ls_tree_reads name_only "tree" _ Z_DEFAULT_COMPRESSION fs');
    [|unfold Z_DEFAULT_COMPRESSION; lia|apply (bool_decide_unpack _); vm_compute; exact I
     |exact Hwr].
  apply (ls_tree_loop_entries name_only entries _ ""); [|reflexivity].
  apply forallb_forall. intros e Hin. unfold listable.
  assert (Hname : listable_name (e_name e) = true).
  { rewrite forallb_forall in Hnames. apply Hnames.
    assert (Hin' : In (e_name e) (map e_name entries)) by (apply in_map; exact Hin).
    rewrite Hn in Hin'. apply List.filter_In in Hin' as [Hin' _].
    apply list_elem_of_In. apply list_elem_of_In in Hin'.
    rewrite sorted_by_perm in Hin'. exact Hin'. }
  rewrite Forall_forall in Hm. destruct (Hm e) as [Hmode Hlen].
  { apply list_elem_of_In. exact Hin. }
  rewrite Hname, Hlen. destruct Hmode as [-> | ->]; reflexivity.
Qed.

End ListTree.

(** X20: [ls-tree --name-only] on the id that [write_tree] returned for a
    directory prints the names listed in the directory other than [.git],
    one per line, in the order of the sort key, provided each name is text
    of one word (no blank, no NUL). *)
Theorem ls_tree_name_only `{ZlibLaws} cwd n path fs oid fs' names :
  is_file cwd fs path = false ->
  listdir cwd fs path = Ok names ->
  forallb listable_name names = true ->
  write_tree cwd (S n) path fs = Ok (oid, fs') ->
  ls_tree cwd true oid fs'
  = Ok (concat_lines
          (List.filter not_git
             (sorted_by (sort_key (fun x => is_file cwd fs (path ++ [x]))) names))).
Proof.
  intros Hf Hl Hnames Hw.
  destruct (ls_tree_written cwd true n path fs oid fs' names Hf Hl Hnames Hw)
    as (entries & _ & Hn & _ & Hls).
  rewrite Hls, <- Hn. reflexivity.
Qed.

Lemma ls_tree_name_only_witness :
  match write_tree repo 2 (getcwd repo) foo_file_repo with
  | Ok (oid, fs') => ls_tree repo true oid fs' = Ok ("foo" ++ NL ++ "foo-bar" ++ NL)%string
  | Err _ => False
  end.
Proof.
  assert (Hok : is_ok (write_tree repo 2 (getcwd repo) foo_file_repo) = true)
    by (vm_compute; reflexivity).
  assert (Hl : listdir repo foo_file_repo (getcwd repo) = Ok [".git"; "foo-bar"; "foo"]%string)
    by (vm_compute; reflexivity).
  destruct (write_tree repo 2 (getcwd repo) foo_file_repo) as [[oid fs']|e] eqn:E;
    [|discriminate Hok].
  exact (ls_tree_name_only repo 1 (getcwd repo) foo_file_repo oid fs'
           [".git"; "foo-bar"; "foo"]%string eq_refl Hl eq_refl E).
Defined.

(** X21: the full listing of [ls-tree] on the id that [write_tree] returned
    for a directory has, for each entry, the mode, the word [blob], the id
    of the child in hexadecimal and the name.  The modes are [100644] and
    [40000], and since the listing says [tree] for the mode [040000] only,
    directories are listed as [blob] too. *)
Theorem ls_tree_labels_blob `{ZlibLaws} cwd n path fs oid fs' names :
  is_file cwd fs path = false ->
  listdir cwd fs path = Ok names ->
  forallb listable_name names = true ->
  write_tree cwd (S n) path fs = Ok (oid, fs') ->
  exists entries,
    oid = sha1_hexdigest (frame "tree" (concat (map entry_bytes entries))) /\
    map e_name entries
    = List.filter not_git
        (sorted_by (sort_key (fun x => is_file cwd fs (path ++ [x]))) names) /\
    Forall (fun e => e_mode e = "100644"%string \/ e_mode e = "40000"%string) entries /\
    ls_tree cwd false oid fs'
    = Ok (concat_lines
            (map (fun e => e_mode e ++ " blob " ++ hex (e_oid e) ++ " " ++ e_name e)%string
                 entries)).
Proof.
  intros Hf Hl Hnames Hw.
  destruct (ls_tree_written cwd false n path fs oid fs' names Hf Hl Hnames Hw)
    as (entries & Ho & Hn & Hm & Hls).
  exists entries. split; [exact Ho|]. split; [exact Hn|]. split.
  { eapply Forall_impl; [exact Hm|]. intros e [He _]. exact He. }
  rewrite Hls. do 2 f_equal. apply map_ext_in. intros e Hin.
  rewrite Forall_forall in Hm. destruct (Hm e) as [Hmode _].
  { apply list_elem_of_In. exact Hin. }
  unfold ls_line. destruct Hmode as [-> | ->]; reflexivity.
Qed.

Lemma ls_tree_foo_example :
  ('(oid, fs') ← write_tree repo 2 (getcwd repo) foo_file_repo; ls_tree repo false oid fs')
  = Ok ("100644 blob " ++ hex blob_A_oid ++ " foo" ++ NL
        ++ "40000 blob " ++ hex empty_tree_digest ++ " foo-bar" ++ NL)%string.
Proof. vm_compute. reflexivity. Qed.

Lemma ls_tree_labels_blob_witness :
  match write_tree repo 2 (getcwd repo) foo_file_repo with
  | Ok (oid, fs') =>
      exists entries,
        oid = sha1_hexdigest (frame "tree" (concat (map entry_bytes entries))) /\
        map e_name entries
        = List.filter not_git
            (sorted_by (sort_key (fun x => is_file repo foo_file_repo (getcwd repo ++ [x])))
               [".git"; "foo-bar"; "foo"]%string) /\
        Forall (fun e => e_mode e = "100644"%string \/ e_mode e = "40000"%string) entries /\
        ls_tree repo false oid fs'
        = Ok (concat_lines
                (map (fun e => e_mode e ++ " blob " ++ hex (e_oid e) ++ " " ++ e_name e)%string
                     entries))
  | Err _ => False
  end.
Proof.
  assert (Hok : is_ok (write_tree repo 2 (getcwd repo) foo_file_repo) = true)
    by (vm_compute; reflexivity).
  assert (Hl : listdir repo foo_file_repo (getcwd repo) = Ok [".git"; "foo-bar"; "foo"]%string)
    by (vm_compute; reflexivity).
  destruct (write_tree repo 2 (getcwd repo) foo_file_repo) as [[oid fs']|e] eqn:E;
    [|discriminate Hok].
  exact (ls_tree_labels_blob repo 1 (getcwd repo) foo_file_repo oid fs'
           [".git"; "foo-bar"; "foo"]%string eq_refl Hl eq_refl E).
Defined.

Lemma unpack2_error {A} (xs : list A) e : unpack2 xs = Err e -> e = ValueError.
Proof. destruct xs as [|a [|b [|c xs]]]; cbn; congruence. Qed.

Lemma decode_error l e : decode l = Err e -> e = UnicodeDecodeError.
Proof. unfold decode. destruct (utf8_valid l); congruence. Qed.

(** The bound on the loop of [ls-tree] is not reached. *)
Lemma ls_tree_loop_bound name_only fuel : forall tree_data out,
  (length tree_data <= fuel)%nat -> ls_tree_loop fuel name_only tree_data out <> Err OutOfFuel.
Proof.
  induction fuel as [|n IH]; intros tree_data out Hlen; destruct tree_data as [|b l];
    cbn [ls_tree_loop]; try discriminate; [cbn [length] in Hlen; lia|].
  destruct (unpack2 (split1 x00 (b :: l))) as [[mode_and_name rest]|e] eqn:Es;
    [|apply unpack2_error in Es as ->; discriminate].
  cbn [mbind result_bind]. apply split1_rest in Es.
  destruct (unpack2 (split_ws mode_and_name)) as [[mode name]|e] eqn:Ew;
    [|apply unpack2_error in Ew as ->; discriminate].
  cbn [mbind result_bind].
  destruct (decode mode) as [mode_text|e] eqn:Em;
    [|apply decode_error in Em as ->; discriminate].
  cbn [mbind result_bind].
  assert (Hrest : (length (drop 20 rest) <= n)%nat).
  { rewrite length_drop. cbn [length] in *. lia. }
  destruct (decode name) as [name_text|e] eqn:En;
    [|apply decode_error in En as ->; destruct name_only; discriminate].
  destruct name_only; cbn [mbind result_bind mret result_ret]; apply IH, Hrest.
Qed.

(** X22: a tree object in place whose first entry has a name of two words,
    [my file] say, makes [ls-tree] fail with [ValueError], with or without
    [--name-only]. *)
Theorem ls_tree_blank_name `{ZlibLaws} cwd name_only lvl mode w1 w2 oid rest fs :
  let data := entry_bytes (Entry mode (w1 ++ " " ++ w2) oid) ++ rest in
  -1 <= lvl <= 9 ->
  is_word (encode mode) = true -> is_word (encode w1) = true -> is_word (encode w2) = true ->
  read_bytes cwd fs (tree_object_path (sha1_hexdigest (frame "tree" data)))
  = Ok (compress lvl (frame "tree" data)) ->
  ls_tree cwd name_only (sha1_hexdigest (frame "tree" data)) fs = Err ValueError.
Proof.
  intros data Hlvl Hm H1 H2 Hr.
  rewrite (ls_tree_reads cwd name_only "tree" data lvl fs Hlvl); [| |exact Hr].
  2:{ apply (bool_decide_unpack _). vm_compute. exact I. }
  pose proof (is_word_inv _ Hm) as (_ & _ & Hm0).
  pose proof (is_word_inv _ H1) as (_ & _ & Ha0).
  pose proof (is_word_inv _ H2) as (_ & _ & Hb0).
  assert (Hdata : data = (encode mode ++ x20 :: encode w1 ++ x20 :: encode w2)
                         ++ x00 :: oid ++ rest).
  { subst data. rewrite entry_bytes_parts. cbn [e_mode e_name e_oid].
    rewrite !encode_app. change (encode " ") with [x20]. rewrite <- !app_assoc. reflexivity. }
  rewrite Hdata. destruct (length _) as [|n] eqn:El.
  { rewrite !length_app in El. cbn [length] in El. lia. }
  rewrite ls_tree_loop_head.
  2:{ rewrite elem_of_app, elem_of_cons, elem_of_app, elem_of_cons.
      intros [?|[?|[?|[?|?]]]]; auto; discriminate. }
  rewrite (split_ws_three _ _ _ Hm H1 H2). reflexivity.
Qed.

Lemma ls_tree_blank_name_witness :
  ls_tree repo true (sha1_hexdigest (frame "tree" blank_tree)) blank_repo = Err ValueError.
Proof.
  assert (Hr : read_bytes repo blank_repo
                 (tree_object_path (sha1_hexdigest (frame "tree" blank_tree)))
               = Ok (compress Z_BEST_SPEED (frame "tree" blank_tree)))
    by (vm_compute; reflexivity).
  refine (ls_tree_blank_name repo true Z_BEST_SPEED "100644" "my" "file" blob_A_oid []
            blank_repo _ eq_refl eq_refl eq_refl _).
  - unfold Z_BEST_SPEED. lia.
  - rewrite app_nil_r. exact Hr.
Defined.

(** *** A pack of whole objects *)

Section Pack.
Context `{Zlib}.
Variable cwd : list string.

Lemma base_objects_step n pack objs rest parent fs rest' fs' :
  base_objects (S n) pack = Some (objs, rest) ->
  unpack_entries cwd (S n) pack parent fs = Ok (rest', fs') ->
  exists tip content pack' objs' fs1,
    objs = (tip, content) :: objs' /\ is_base_type tip = true /\
    base_objects n pack' = Some (objs', rest) /\
    create_object cwd tip content parent fs = Ok (object_id (tip, content), fs1) /\
    unpack_entries cwd n pack' parent fs1 = Ok (rest', fs').
Proof.
  cbn [base_objects unpack_entries].
  destruct (next_size_and_type pack) as [[[tip size] body]|e] eqn:Eh; [|discriminate].
  destruct (is_base_type tip) eqn:Eb; [|discriminate].
  rewrite (unpack_entry_base cwd _ _ _ _ _ _ Eh Eb).
  destruct (decompress_stream body) as [[content pack']|e]; [|discriminate].
  destruct (base_objects n pack') as [[objs' rest0]|] eqn:Eo; [|discriminate].
  intros [= <- <-]. cbn [mbind result_bind].
  destruct (create_object cwd tip content parent fs) as [[oid fs1]|e] eqn:Ec; [|discriminate].
  cbn [mbind result_bind mret result_ret]. intros Hu.
  pose proof (proj1 (create_object_inv _ _ _ _ _ _ _ Ec)) as ->.
  exists tip, content, pack', objs', fs1.
  split; [reflexivity|]. split; [exact Eb|]. split; [exact Eo|]. split; [exact Ec|exact Hu].
Qed.

Lemma unpack_entries_keep n : forall pack objs rest parent fs rest' fs' o raw,
  base_objects n pack = Some (objs, rest) ->
  unpack_entries cwd n pack parent fs = Ok (rest', fs') ->
  object_id o ∉ (object_id <$> objs) ->
  read_bytes cwd fs (object_path parent (object_id o)) = Ok raw ->
  read_bytes cwd fs' (object_path parent (object_id o)) = Ok raw.
Proof.
  induction n as [|n IH]; intros pack objs rest parent fs rest' fs' o raw Hb Hu Hnot Hr.
  - cbn in Hu. injection Hu as <- <-. exact Hr.
  - destruct (base_objects_step _ _ _ _ _ _ _ _ Hb Hu)
      as (tip & content & pack' & objs' & fs1 & -> & _ & Hb' & Hc & Hu').
    rewrite fmap_cons in Hnot. apply not_elem_of_cons in Hnot as [Hne Hnot].
    eapply IH; [exact Hb'|exact Hu'|exact Hnot|].
    exact (object_file_kept cwd _ tip content parent fs _ fs1 raw Hr Hc Hne).
Qed.

Lemma unpack_entries_base `{!ZlibLaws} n : forall pack objs rest parent fs rest' fs',
  base_objects n pack = Some (objs, rest) ->
  NoDup (object_id <$> objs) ->
  unpack_entries cwd n pack parent fs = Ok (rest', fs') ->
  rest' = rest /\ Forall (fun o => read_object cwd (object_id o) parent fs' = Ok o) objs.
Proof.
  induction n as [|n IH]; intros pack objs rest parent fs rest' fs' Hb Hnd Hu.
  - cbn in Hb, Hu. injection Hb as <- <-. injection Hu as <- <-. split; [reflexivity|constructor].
  - destruct (base_objects_step _ _ _ _ _ _ _ _ Hb Hu)
      as (tip & content & pack' & objs' & fs1 & -> & Hbase & Hb' & Hc & Hu').
    rewrite fmap_cons in Hnd. apply NoDup_cons in Hnd as [Hnot Hnd].
    destruct (IH _ _ _ _ _ _ _ Hb' Hnd Hu') as [-> Hall].
    split; [reflexivity|]. constructor; [|exact Hall].
    pose proof (get_put_plain cwd tip content parent fs _ fs1
                  (valid_type_plain tip (is_base_type_valid tip Hbase)) Hc) as Hr.
    rewrite <- Hr. apply read_object_bytes.
    pose proof (create_object_stored _ _ _ _ _ _ _ Hc) as Hraw. rewrite Hraw.
    exact (unpack_entries_keep n _ _ _ _ _ _ _ (tip, content) _ Hb' Hu' Hnot Hraw).
Qed.

End Pack.

(** X23: a pack whose entries all carry one of the types commit, tree, blob
    and tag, and whose objects have ids that differ: when [clone] has
    unpacked it, every object of the pack reads back from the store as its
    type and content, and what is left of the pack is what follows the
    last entry. *)
Theorem unpacked_objects_readable `{ZlibLaws} cwd pack_file parent fs count objs rest
    rest' fs' :
  unpack_u32 (take 4 (drop 8 pack_file)) = Ok count ->
  base_objects (Z.to_nat count) (drop 12 pack_file) = Some (objs, rest) ->
  NoDup (object_id <$> objs) ->
  unpack_objects cwd pack_file parent fs = Ok (rest', fs') ->
  rest' = rest /\ Forall (fun o => read_object cwd (object_id o) parent fs' = Ok o) objs.
Proof.
  intros Hcount Hb Hnd Hu. unfold unpack_objects in Hu. rewrite Hcount in Hu.
  cbn [mbind result_bind] in Hu. rewrite drop_drop in Hu.
  exact (unpack_entries_base cwd _ _ _ _ _ _ _ _ Hb Hnd Hu).
Qed.

Lemma unpacked_objects_readable_witness :
  match unpack_objects repo two_blob_pack (getcwd repo) init_repo with
  | Ok (rest', fs') =>
      rest' = bs "trailer" /\
      Forall (fun o => read_object repo (object_id o) (getcwd repo) fs' = Ok o)
        [("blob"%string, bs "hello"); ("blob"%string, bs "A")]
  | Err _ => False
  end.
Proof.
  assert (Hok : is_ok (unpack_objects repo two_blob_pack (getcwd repo) init_repo) = true)
    by (vm_compute; reflexivity).
  assert (Hb : base_objects (Z.to_nat 2) (drop 12 two_blob_pack)
               = Some ([("blob"%string, bs "hello"); ("blob"%string, bs "A")], bs "trailer"))
    by (vm_compute; reflexivity).
  assert (Hnd : bool_decide (NoDup (object_id <$> [("blob"%string, bs "hello");
                                                   ("blob"%string, bs "A")])) = true)
    by (vm_compute; reflexivity).
  destruct (unpack_objects repo two_blob_pack (getcwd repo) init_repo)
    as [[rest' fs']|e] eqn:E; [|discriminate Hok].
  exact (unpacked_objects_readable repo two_blob_pack (getcwd repo) init_repo 2 _ _ rest' fs'
           eq_refl Hb (bool_decide_eq_true_1 _ Hnd) E).
Defined.

(** ** [int] on bytes, and an advertisement *)

Example int_bytes16_ex :
  map int_bytes16 [bs "0032"; bs " 1a "; bs "-00f"; bs "0x1F"; bs "1_0"; bs "0x_1"; bs "+f"]
  = map Ok [50; 26; -15; 31; 16; 1; 15] /\
  map int_bytes16 [bs ""; bs "  "; bs "0x"; bs "_1"; bs "1__0"; bs "1_"; bs "- 1"; bs "12g";
                   bs "1 2"; [x31; x00]; bs "0x__1"; bs "+"]
  = repeat (Err ValueError) 12.
Proof. split; reflexivity. Qed.

Example fetch_refs_ex :
  fetch_refs (bs "001e# service=git-upload-pack" ++ [x0a]
              ++ bs "00000155aa39a3ee5e6b4b0d3255bfef95601890afd80709 HEAD" ++ [x00]
              ++ bs "multi_ack side-band-64k" ++ [x0a]
              ++ bs "003faa39a3ee5e6b4b0d3255bfef95601890afd80709 refs/heads/main" ++ [x0a]
              ++ bs "0000")
  = Ok [("HEAD", "aa39a3ee5e6b4b0d3255bfef95601890afd80709");
        ("refs/heads/main", "aa39a3ee5e6b4b0d3255bfef95601890afd80709")]%string.
Proof. vm_compute. reflexivity. Qed.

(** ** The reference advertisement *)

Lemma startswith_app_other p : forall l c m,
  c ∉ p -> startswith p (l ++ c :: m) = startswith p l.
Proof.
  induction p as [|a p IH]; intros l c m Hc; [reflexivity|].
  apply not_elem_of_cons in Hc as [Hca Hc].
  destruct l as [|b l]; cbn [app startswith].
  - rewrite decide_False by congruence. reflexivity.
  - destruct (decide (a = b)); [apply IH; exact Hc|reflexivity].
Qed.

Lemma endswith_field s a c name :
  c ∉ s -> endswith s (a ++ c :: name) = endswith s name.
Proof.
  intros Hc. unfold endswith. rewrite rev_app_distr. cbn [rev]. rewrite <- app_assoc.
  cbn [app]. apply startswith_app_other. intros Hin. apply Hc.
  apply list_elem_of_In, in_rev, list_elem_of_In. exact Hin.
Qed.

Lemma not_elem_of_drop {A} (x : A) n l : x ∉ l -> x ∉ drop n l.
Proof. intros Hn Hin. apply Hn. eapply subseteq_drop, Hin. Qed.

Lemma ref_item_fields pfx sha name tail :
  length pfx = 4%nat ->
  (x00 ∉ sha) -> (x20 ∉ sha) -> (x00 ∉ name) -> (x20 ∉ name) ->
  (4 <= length sha)%nat -> startswith (bs "#") sha = false ->
  tail = [] \/ (exists caps, tail = x00 :: caps) ->
  ref_item (pfx ++ sha ++ x20 :: name ++ tail)
  = (n ← decode name;
     s ← decode (if endswith (bs "HEAD") name then drop 4 sha else sha);
     mret (Some (n, s))).
Proof.
  intros Hpfx Hs0 Hs1 Hn0 Hn1 Hlen Hhash Htail. unfold ref_item.
  rewrite (drop_app_length' pfx) by (symmetry; exact Hpfx).
  destruct sha as [|b sha]; [cbn [length] in Hlen; lia|].
  cbn [app]. change (bs "#") with [x23] in *. cbn [startswith] in *.
  destruct (decide (x23 = b)) as [Hb|Hb]; [discriminate Hhash|].
  change (b :: sha ++ x20 :: name ++ tail) with ((b :: sha) ++ x20 :: name ++ tail).
  set (sha' := b :: sha) in *.
  assert (Hsplit : exists more, split_all x00 (sha' ++ x20 :: name ++ tail)
                                = (sha' ++ x20 :: name) :: more).
  { assert (Hnul : x00 ∉ sha' ++ x20 :: name).
    { rewrite elem_of_app, elem_of_cons. intros [?|[?|?]]; [auto|discriminate|auto]. }
    destruct Htail as [->|[caps ->]].
    - rewrite app_nil_r. rewrite split_all_absent by exact Hnul. eauto.
    - replace (sha' ++ x20 :: name ++ x00 :: caps) with ((sha' ++ x20 :: name) ++ x00 :: caps)
        by (rewrite <- app_assoc; reflexivity).
      rewrite split_all_app by exact Hnul. eauto. }
  destruct Hsplit as [more ->].
  assert (Hne : exists c rest, sha' ++ x20 :: name = c :: rest) by (unfold sha'; eauto).
  destruct Hne as (c & rest & Hne). rewrite Hne. rewrite <- Hne. clear c rest Hne.
  rewrite (endswith_field (bs "HEAD") sha' x20 name)
    by (apply (bool_decide_unpack _); vm_compute; exact I).
  assert (Hparts : forall a, (x20 ∉ a) -> split_all x20 (a ++ x20 :: name) = [a; name]).
  { intros a Ha. rewrite split_all_app by exact Ha.
    rewrite split_all_absent by exact Hn1. reflexivity. }
  destruct (endswith (bs "HEAD") name).
  - rewrite drop_app_le by exact Hlen. rewrite Hparts by (apply not_elem_of_drop; exact Hs1).
    reflexivity.
  - rewrite Hparts by exact Hs1. reflexivity.
Qed.

Lemma ref_item_none pfx :
  length pfx = 4%nat ->
  ref_item pfx = Ok None /\
  (forall rest, ref_item (pfx ++ x23 :: rest) = Ok None) /\
  (forall rest, ref_item (pfx ++ x00 :: rest) = Ok None).
Proof.
  intros Hpfx. unfold ref_item. split; [|split].
  - rewrite drop_ge by lia. reflexivity.
  - intros rest. rewrite (drop_app_length' pfx) by (symmetry; exact Hpfx). reflexivity.
  - intros rest. rewrite (drop_app_length' pfx) by (symmetry; exact Hpfx).
    change (startswith (bs "#") (x00 :: rest)) with false. cbv iota.
    cbn [split_all]. rewrite decide_True by reflexivity. reflexivity.
Qed.

Lemma ref_item_one_word pfx b word :
  length pfx = 4%nat -> b <> x23 -> (x00 ∉ b :: word) -> (x20 ∉ b :: word) ->
  ref_item (pfx ++ b :: word) = Err IndexError.
Proof.
  intros Hpfx Hb H0 H1. unfold ref_item.
  rewrite (drop_app_length' pfx) by (symmetry; exact Hpfx).
  change (bs "#") with [x23]. cbn [startswith]. rewrite decide_False by congruence.
  rewrite split_all_absent by exact H0.
  assert (Hsplit : forall l, (x20 ∉ l) -> exists p, split_all x20 l = [p]).
  { intros l Hl. rewrite split_all_absent by exact Hl. eauto. }
  destruct (endswith (bs "HEAD") (b :: word)).
  - destruct (Hsplit (drop 4 (b :: word))) as [p ->]; [apply not_elem_of_drop; exact H1|].
    reflexivity.
  - destruct (Hsplit (b :: word) H1) as [p ->]. reflexivity.
Qed.

(** X24: a line of the advertisement that, after its first four bytes,
    holds an id, a blank and a name, with or without capabilities after a
    NUL, adds the name with the id to [refs]; but when the name ends in
    [HEAD] the id loses its first four bytes, which is right for the first
    line of the advertisement, where the length of the next packet stands
    there, and removes four digits of the id of any other reference whose
    name ends in [HEAD]. *)
Theorem ref_line_item pfx sha name tail :
  length pfx = 4%nat ->
  (x00 ∉ sha) -> (x20 ∉ sha) -> (x00 ∉ name) -> (x20 ∉ name) ->
  (4 <= length sha)%nat -> startswith (bs "#") sha = false ->
  tail = [] \/ (exists caps, tail = x00 :: caps) ->
  ref_item (pfx ++ sha ++ x20 :: name ++ tail)
  = (n ← decode name;
     s ← decode (if endswith (bs "HEAD") name then drop 4 sha else sha);
     mret (Some (n, s))) /\
  (length (drop 4 sha) + 4 = length sha)%nat.
Proof.
  intros Hpfx Hs0 Hs1 Hn0 Hn1 Hlen Hhash Htail.
  split; [exact (ref_item_fields pfx sha name tail Hpfx Hs0 Hs1 Hn0 Hn1 Hlen Hhash Htail)|].
  rewrite length_drop. lia.
Qed.

Lemma ref_line_item_witness :
  ref_item (bs "003f" ++ bs some_oid ++ x20 :: bs "refs/remotes/origin/HEAD" ++ [])
  = Ok (Some ("refs/remotes/origin/HEAD"%string, "a3ee5e6b4b0d3255bfef95601890afd80709"%string)).
Proof.
  refine (proj1 (ref_line_item (bs "003f") (bs some_oid) (bs "refs/remotes/origin/HEAD") []
                   eq_refl _ _ _ _ _ eq_refl (or_introl eq_refl))).
  1-4: apply (bool_decide_unpack _); vm_compute; exact I.
  cbn. lia.
Defined.

(** X25: a line of the advertisement adds nothing to [refs] when it has
    four bytes or fewer, or when a [#] or a NUL follows its first four
    bytes; and a line whose text after the first four bytes has no blank
    makes [clone] fail with [IndexError]. *)
Theorem ref_item_skips pfx :
  length pfx = 4%nat ->
  (forall bs0, (length bs0 <= 4)%nat -> ref_item bs0 = Ok None) /\
  (forall rest, ref_item (pfx ++ x23 :: rest) = Ok None) /\
  (forall rest, ref_item (pfx ++ x00 :: rest) = Ok None) /\
  (forall b word, b <> x23 -> (x00 ∉ b :: word) -> (x20 ∉ b :: word) ->
     ref_item (pfx ++ b :: word) = Err IndexError).
Proof.
  intros Hpfx. destruct (ref_item_none pfx Hpfx) as (_ & H2 & H3).
  split; [|split; [exact H2|split; [exact H3|]]].
  - intros bs0 Hlen. unfold ref_item. rewrite drop_ge by exact Hlen. reflexivity.
  - intros b word. apply ref_item_one_word. exact Hpfx.
Qed.

Lemma ref_item_skips_witness :
  ref_item (bs "0000") = Ok None /\
  ref_item (bs "001e" ++ x23 :: bs " service=git-upload-pack") = Ok None /\
  ref_item (bs "001e" ++ x45 :: bs "RR") = Err IndexError.
Proof.
  destruct (ref_item_skips (bs "001e") eq_refl) as (H1 & H2 & _ & H4).
  split; [apply H1; cbn; lia|]. split; [apply H2|].
  apply H4; [discriminate|apply (bool_decide_unpack _); vm_compute; exact I..].
Defined.

(** ** The references on disk *)

Section RenderRefs.
Variable cwd : list string.

Lemma render_refs_rendered parent refs : forall fs fs',
  render_refs cwd parent refs fs = Ok fs' ->
  rendered cwd fs fs' (map (fun item => ref_path parent (fst item)) refs).
Proof.
  induction refs as [|[name sha] refs IH]; intros fs fs'; cbn [render_refs map].
  - intros [= <-]. apply rendered_refl.
  - fold (ref_path parent name).
    destruct (mkdir_parents cwd fs _) as [fs1|e] eqn:Em; [|discriminate].
    cbn [mbind result_bind].
    destruct (write_bytes cwd fs1 _ _) as [fs2|e] eqn:Ew; [|discriminate].
    cbn [mbind result_bind]. intros Hr.
    cbn [fst].
    eapply (rendered_trans cwd fs fs1 fs' []); [eapply rendered_mkdir, Em|].
    eapply (rendered_trans cwd fs1 fs2 fs' [ref_path parent name]);
      [eapply rendered_write, Ew|]. apply IH, Hr.
Qed.

Lemma render_refs_contents parent refs : forall fs fs',
  render_refs cwd parent refs fs = Ok fs' ->
  NoDup (map (fun item => locate cwd (ref_path parent (fst item))) refs) ->
  Forall (fun item => read_bytes cwd fs' (ref_path parent (fst item))
                      = Ok (encode (snd item ++ NL))) refs.
Proof.
  induction refs as [|[name sha] refs IH]; intros fs fs'; cbn [render_refs map].
  - constructor.
  - fold (ref_path parent name).
    destruct (mkdir_parents cwd fs _) as [fs1|e] eqn:Em; [|discriminate].
    cbn [mbind result_bind].
    destruct (write_bytes cwd fs1 _ _) as [fs2|e] eqn:Ew; [|discriminate].
    cbn [mbind result_bind]. intros Hr Hnd. apply NoDup_cons in Hnd as [Hnot Hnd].
    constructor; [|exact (IH fs2 fs' Hr Hnd)]. cbn [fst snd].
    pose proof (render_refs_rendered _ _ _ _ Hr) as (Hext & _ & Hframe).
    pose proof (write_bytes_read _ _ _ _ _ Ew) as Hread.
    unfold read_bytes in *.
    destruct (resolve cwd fs2 (ref_path parent name)) as [k|e] eqn:Ek; [|discriminate Hread].
    rewrite (resolve_mono _ _ _ _ _ Hext Ek). cbn [mbind result_bind] in *.
    pose proof (resolve_locate _ _ _ _ Ek) as ->.
    destruct (node_at fs2 (locate cwd (ref_path parent name))) as [[d|]|] eqn:En;
      try discriminate Hread.
    destruct (locate cwd (ref_path parent name)) as [|a k] eqn:El; [discriminate En|].
    cbn [node_at] in *. rewrite (Hframe _ _ En); [exact Hread|].
    rewrite <- list_fmap_compose. intros Hin. apply Hnot.
    rewrite <- El in Hin. exact Hin.
Qed.

End RenderRefs.

(** X26: when the loop that writes the references succeeds, every
    reference has a regular file at [parent/.git/name], the kinds of the
    nodes that existed are kept, and every node elsewhere is as it was; and
    when the references lead to places that differ, each file holds the id
    of its reference followed by a newline. *)
Theorem render_refs_files cwd parent refs fs fs' :
  render_refs cwd parent refs fs = Ok fs' ->
  rendered cwd fs fs' (map (fun item => ref_path parent (fst item)) refs) /\
  (NoDup (map (fun item => locate cwd (ref_path parent (fst item))) refs) ->
   Forall (fun item => read_bytes cwd fs' (ref_path parent (fst item))
                       = Ok (encode (snd item ++ NL))) refs).
Proof.
  intros Hr. split; [exact (render_refs_rendered cwd parent refs fs fs' Hr)|].
  exact (render_refs_contents cwd parent refs fs fs' Hr).
Qed.

Lemma render_refs_files_witness :
  match render_refs repo (getcwd repo) main_refs empty_repo with
  | Ok fs' =>
      rendered repo empty_repo fs' (map (fun item => ref_path (getcwd repo) (fst item)) main_refs)
      /\ Forall (fun item => read_bytes repo fs' (ref_path (getcwd repo) (fst item))
                             = Ok (encode (snd item ++ NL))) main_refs
  | Err _ => False
  end.
Proof.
  assert (Hok : is_ok (render_refs repo (getcwd repo) main_refs empty_repo) = true)
    by (vm_compute; reflexivity).
  assert (Hnd : bool_decide (NoDup (map (fun item => locate repo (ref_path (getcwd repo)
                                                                    (fst item))) main_refs))
                = true) by (vm_compute; reflexivity).
  destruct (render_refs repo (getcwd repo) main_refs empty_repo) as [fs'|e] eqn:E;
    [|discriminate Hok].
  destruct (render_refs_files repo (getcwd repo) main_refs empty_repo fs' E) as [H1 H2].
  split; [exact H1|exact (H2 (bool_decide_eq_true_1 _ Hnd))].
Defined.

(** ** Packet lines *)

Lemma hex_chars b :
  let h1 := byte_of_ascii (hex_digit (b2z b / 16)) in
  let h2 := byte_of_ascii (hex_digit (b2z b mod 16)) in
  is_space h1 = false /\ h1 <> x2b /\ h1 <> x2d /\ h1 <> x5f /\
  h2 <> x78 /\ h2 <> x58 /\ h2 <> x5f /\
  digit16 h1 = Some (b2z b / 16) /\ digit16 h2 = Some (b2z b mod 16).
Proof. destruct b; repeat split; (reflexivity || discriminate). Qed.

Lemma encode_hex_cons b l :
  encode (hex (b :: l))
  = byte_of_ascii (hex_digit (b2z b / 16)) :: byte_of_ascii (hex_digit (b2z b mod 16))
    :: encode (hex l).
Proof. reflexivity. Qed.

Lemma encode_hex_length l : length (encode (hex l)) = (2 * length l)%nat.
Proof.
  induction l as [|b l IH]; [reflexivity|]. rewrite encode_hex_cons. cbn [length].
  rewrite IH. lia.
Qed.

Lemma scan16_hex l : forall acc,
  scan16 false acc (encode (hex l)) = Ok (fold_left (fun a b => 256 * a + b2z b) l acc, []).
Proof.
  induction l as [|b l IH]; intros acc; [reflexivity|].
  rewrite encode_hex_cons. destruct (hex_chars b) as (_ & _ & _ & H1 & _ & _ & H2 & D1 & D2).
  cbn [scan16 fold_left]. rewrite decide_False by exact H1. rewrite D1.
  rewrite decide_False by exact H2. rewrite D2. rewrite IH. do 3 f_equal.
  pose proof (Z.div_mod (b2z b) 16 ltac:(lia)). lia.
Qed.

Lemma int_bytes16_hex l : l <> [] -> int_bytes16 (encode (hex l)) = Ok (be_value l).
Proof.
  destruct l as [|b l]; [congruence|]. intros _.
  pose proof (scan16_hex (b :: l) 0) as Hscan. rewrite encode_hex_cons in *.
  destruct (hex_chars b) as (Hs & Hp & Hm & Hu & Hx & HX & _ & _ & _).
  unfold int_bytes16. cbn [lstrip]. rewrite Hs.
  rewrite decide_False by exact Hp. rewrite decide_False by exact Hm.
  rewrite (bool_decide_eq_false_2 _ Hx), (bool_decide_eq_false_2 _ HX).
  rewrite andb_false_r. rewrite decide_False by exact Hu.
  rewrite Hscan. cbn [mbind result_bind length Nat.eqb lstrip]. f_equal.
  unfold be_value. lia.
Qed.

Lemma pkt_prefix payload rest :
  Z.of_nat (length payload) + 4 < 65536 ->
  int_bytes16 (take 4 (pkt_line payload ++ rest)) = Ok (Z.of_nat (length payload) + 4).
Proof.
  intros Hn. unfold pkt_line. set (n := Z.of_nat (length payload) + 4) in *.
  rewrite <- app_assoc, take_app_length' by (rewrite encode_hex_length; reflexivity).
  rewrite int_bytes16_hex by discriminate. f_equal.
  unfold be_value. cbn [fold_left].
  assert (0 <= n / 256 < 256) by (split; [apply Z.div_pos; lia|apply Z.div_lt_upper_bound; lia]).
  assert (0 <= n mod 256 < 256) by (apply Z.mod_pos_bound; lia).
  rewrite !b2z_z2b by assumption. pose proof (Z.div_mod n 256 ltac:(lia)). lia.
Qed.

Lemma pkt_line_length payload : length (pkt_line payload) = (4 + length payload)%nat.
Proof. unfold pkt_line. rewrite length_app, encode_hex_length. reflexivity. Qed.

Lemma pkt_loop_line fuel payload rest acc :
  Z.of_nat (length payload) + 4 < 65536 ->
  pkt_loop (S fuel) (pkt_line payload ++ rest) acc = pkt_loop fuel rest (acc ++ [payload]).
Proof.
  intros Hn. pose proof (pkt_line_length payload) as Hlen.
  destruct (pkt_line payload ++ rest) as [|b l] eqn:E.
  { apply (f_equal length) in E. rewrite length_app, Hlen in E. discriminate E. }
  cbn [pkt_loop]. rewrite <- E. rewrite (pkt_prefix _ _ Hn). cbn [mbind result_bind].
  replace (Z.of_nat (length payload) + 4 =? 0) with false by (symmetry; apply Z.eqb_neq; lia).
  assert (Hc : clamp (Z.of_nat (length (pkt_line payload ++ rest)))
                 (Z.of_nat (length payload) + 4) = length (pkt_line payload)).
  { unfold clamp. rewrite length_app, Hlen.
    replace (Z.of_nat (length payload) + 4 <? 0) with false by (symmetry; apply Z.ltb_ge; lia).
    lia. }
  assert (Hc4 : clamp (Z.of_nat (length (pkt_line payload ++ rest))) 4 = 4%nat).
  { unfold clamp. rewrite length_app, Hlen. change (4 <? 0) with false. cbv iota. lia. }
  unfold py_from, py_slice, slice. rewrite Hc, Hc4. rewrite drop_app_length.
  f_equal. f_equal. f_equal. unfold pkt_line at 2. rewrite <- app_assoc.
  rewrite drop_app_length' by (rewrite encode_hex_length; reflexivity).
  rewrite Hlen. apply take_app_length'. lia.
Qed.

Lemma pkt_loop_lines ps : forall fuel acc tail,
  Forall (fun p => Z.of_nat (length p) + 4 < 65536) ps ->
  tail = [] \/ (exists rest, tail = bs "0000" ++ rest) ->
  (length ps < fuel)%nat ->
  pkt_loop fuel (concat (map pkt_line ps) ++ tail) acc = Ok (acc ++ ps).
Proof.
  induction ps as [|p ps IH]; intros fuel acc tail Hall Htail Hfuel; cbn [map concat app].
  - rewrite app_nil_r. destruct Htail as [->|[rest ->]]; [destruct fuel; reflexivity|].
    destruct fuel as [|fuel]; [cbn [length] in Hfuel; lia|]. reflexivity.
  - inversion Hall as [|? ? Hp Hps]; subst.
    destruct fuel as [|fuel]; [cbn [length] in Hfuel; lia|].
    rewrite <- app_assoc, (pkt_loop_line _ _ _ _ Hp).
    rewrite IH by (assumption || cbn [length] in Hfuel; lia).
    rewrite <- app_assoc. reflexivity.
Qed.

Lemma join_band_lines first datas :
  join_lines (first :: map band_line datas) = concat (map snd datas).
Proof.
  unfold join_lines. cbn [drop]. rewrite drop_0. f_equal. rewrite map_map.
  apply map_ext. intros [band d]. reflexivity.
Qed.

(** X27: the loop that reads the reply to [git-upload-pack] cuts
    well-formed packet lines apart: it returns their payloads in order, and
    stops at the flush packet [0000] or at the end of the input.  What
    [clone] takes for the pack is the data of every line after the first
    without its first byte, the band, which is not looked at. *)
Theorem pkt_lines_cut ps tail fuel :
  Forall (fun p => Z.of_nat (length p) + 4 < 65536) ps ->
  tail = [] \/ (exists rest, tail = bs "0000" ++ rest) ->
  (length ps < fuel)%nat ->
  pkt_loop fuel (concat (map pkt_line ps) ++ tail) [] = Ok ps /\
  (forall first datas, ps = first :: map band_line datas ->
     join_lines <$> pkt_loop fuel (concat (map pkt_line ps) ++ tail) []
     = Ok (concat (map snd datas))).
Proof.
  intros Hall Htail Hfuel.
  pose proof (pkt_loop_lines ps fuel [] tail Hall Htail Hfuel) as Hl. cbn [app] in Hl.
  split; [exact Hl|]. intros first datas E. rewrite Hl, E. cbn [fmap result_fmap].
  rewrite join_band_lines. reflexivity.
Qed.

Lemma pkt_lines_cut_witness :
  pkt_loop 3 (concat (map pkt_line [bs "packfile" ++ [x0a]; x01 :: bs "PACK"])
              ++ bs "0000" ++ bs "rest") []
  = Ok [bs "packfile" ++ [x0a]; x01 :: bs "PACK"].
Proof.
  refine (proj1 (pkt_lines_cut [bs "packfile" ++ [x0a]; x01 :: bs "PACK"]
                   (bs "0000" ++ bs "rest") 3 _ (or_intror (ex_intro _ (bs "rest") eq_refl))
                   _)).
  - repeat constructor.
  - cbn. lia.
Defined.

(** A length above zero shortens what is left to read, so the loop ends
    unless it reads a negative length. *)
Lemma pkt_loop_progress pack_bytes v :
  pack_bytes <> [] -> 0 < v -> (length (py_from pack_bytes v) < length pack_bytes)%nat.
Proof.
  intros Hne Hv. unfold py_from, clamp.
  replace (v <? 0) with false by (symmetry; apply Z.ltb_ge; lia).
  rewrite length_drop. destruct pack_bytes as [|b l]; [congruence|]. cbn [length]. lia.
Qed.

(** X28: a reply whose first four bytes spell a negative length, at least
    as large as the reply is long, is never consumed: the loop goes round
    on the same bytes, and no bound on its rounds is enough. *)
Theorem pkt_loop_negative pack_bytes v :
  pack_bytes <> [] ->
  int_bytes16 (take 4 pack_bytes) = Ok v -> v < 0 -> Z.of_nat (length pack_bytes) <= - v ->
  forall fuel pack_lines, pkt_loop fuel pack_bytes pack_lines = Err OutOfFuel.
Proof.
  intros Hne Hv Hneg Hlen fuel.
  assert (Hfrom : py_from pack_bytes v = pack_bytes).
  { unfold py_from, clamp. replace (v <? 0) with true by (symmetry; apply Z.ltb_lt; exact Hneg).
    replace (Z.to_nat _) with 0%nat by lia. apply drop_0. }
  induction fuel as [|fuel IH]; intros pack_lines; destruct pack_bytes as [|b l] eqn:E;
    try congruence; cbn [pkt_loop]; [reflexivity|].
  rewrite Hv. cbn [mbind result_bind].
  replace (v =? 0) with false by (symmetry; apply Z.eqb_neq; lia).
  rewrite Hfrom. apply IH.
Qed.

Lemma pkt_loop_negative_witness : pkt_loop 1000 (bs "-00f") [] = Err OutOfFuel.
Proof.
  apply (pkt_loop_negative (bs "-00f") (-15)).
  - discriminate.
  - reflexivity.
  - lia.
  - cbn. lia.
Defined.

(** ** The request for the pack *)

(** X29: every [want] line of the request announces 50 bytes, which is its
    length exactly when the id has 40 bytes; and when every id of [refs]
    has 40 bytes the [want] lines are packet lines that the program's own
    reader cuts apart, one per reference, in the order of [refs]. *)
Theorem want_lines_cut (refs : dict) fuel :
  (forall ref, int_bytes16 (take 4 (want_line ref)) = Ok 50 /\
               (length (want_line ref) = 50%nat <-> length (encode ref) = 40%nat)) /\
  (Forall (fun item => length (encode (snd item)) = 40%nat) refs ->
   (length refs < fuel)%nat ->
   pkt_loop fuel (concat (map (fun item => want_line (snd item)) refs)) []
   = Ok (map (fun item => bs "want " ++ encode (snd item) ++ [x0a]) refs)).
Proof.
  split.
  - intros ref. split; [reflexivity|]. unfold want_line. rewrite !length_app.
    change (length (bs "0032want ")) with 9%nat. cbn [length]. lia.
  - intros Hall Hfuel.
    assert (Hw : forall ref, length (encode ref) = 40%nat ->
                             want_line ref = pkt_line (bs "want " ++ encode ref ++ [x0a])).
    { intros ref Hlen. unfold want_line, pkt_line. rewrite !length_app, Hlen. reflexivity. }
    replace (map (fun item => want_line (snd item)) refs)
      with (map pkt_line (map (fun item => bs "want " ++ encode (snd item) ++ [x0a]) refs)).
    2:{ rewrite map_map. apply map_ext_in. intros item Hin. symmetry. apply Hw.
        rewrite Forall_forall in Hall. apply Hall, list_elem_of_In, Hin. }
    rewrite <- (app_nil_r (concat _)).
    rewrite (pkt_loop_lines _ fuel [] []); [reflexivity| |auto|rewrite length_map; exact Hfuel].
    apply Forall_forall. intros p Hp. apply list_elem_of_In, in_map_iff in Hp as (item & <- & Hin).
    rewrite Forall_forall in Hall. rewrite !length_app, (Hall item) by (apply list_elem_of_In, Hin).
    cbn. lia.
Qed.

Lemma want_lines_cut_witness :
  pkt_loop 3 (concat (map (fun item => want_line (snd item)) main_refs)) []
  = Ok (map (fun item => bs "want " ++ encode (snd item) ++ [x0a]) main_refs).
Proof.
  apply (proj2 (want_lines_cut main_refs 3)).
  - repeat constructor.
  - cbn. lia.
Defined.

(** ** A whole advertisement *)

Lemma lacks_spec b l : lacks b l = true -> b ∉ l.
Proof.
  unfold lacks. rewrite forallb_forall. intros Hall Hin.
  apply list_elem_of_In in Hin. specialize (Hall b Hin).
  rewrite bool_decide_eq_true_2 in Hall by reflexivity. discriminate Hall.
Qed.

Lemma ref_item_line r :
  ref_line_ok r = true -> ref_item (ref_line_bytes r) = Ok (Some (ref_line_entry r)).
Proof.
  unfold ref_line_ok. rewrite !andb_true_iff, Nat.eqb_eq, Nat.leb_le, negb_true_iff.
  intros ((((((((((Hp & _) & Hs0) & Hs1) & Hn0) & Hn1) & Hlen) & Hhash) & Ht) & Hvn) & Hvs).
  unfold ref_line_bytes.
  rewrite (ref_item_fields _ _ _ _ Hp (lacks_spec _ _ Hs0) (lacks_spec _ _ Hs1)
             (lacks_spec _ _ Hn0) (lacks_spec _ _ Hn1) Hlen Hhash).
  - unfold decode. rewrite Hvn. cbn [mbind result_bind].
    fold (ref_line_sha r). rewrite Hvs. reflexivity.
  - destruct (rl_tail r) as [|b caps]; [auto|right].
    apply bool_decide_eq_true_1 in Ht as ->. eauto.
Qed.

Lemma split_all_lines lines : forall last,
  Forall (fun l => x0a ∉ l) lines -> (x0a ∉ last) ->
  split_all x0a (concat (map (fun l => l ++ [x0a]) lines) ++ last) = lines ++ [last].
Proof.
  induction lines as [|l lines IH]; intros last Hall Hlast; cbn [map concat app].
  - apply split_all_absent, Hlast.
  - inversion Hall as [|? ? Hl Hls]; subst.
    rewrite <- !app_assoc. cbn [app]. rewrite split_all_app by exact Hl.
    rewrite IH by assumption. reflexivity.
Qed.

Lemma dict_set_new k v (d : dict) : k ∉ map fst d -> dict_set k v d = d ++ [(k, v)].
Proof.
  induction d as [|[k' v'] d IH]; intros Hk; cbn [dict_set app map fst] in *; [reflexivity|].
  apply not_elem_of_cons in Hk as [Hne Hk].
  destruct (String.eqb_spec k k') as [->|_]; [congruence|]. rewrite IH by exact Hk. reflexivity.
Qed.

Lemma parse_refs_lines rls : forall acc,
  forallb ref_line_ok rls = true ->
  NoDup (map fst acc ++ map (fun r => fst (ref_line_entry r)) rls) ->
  forall final, ref_item final = Ok None ->
  parse_refs (map ref_line_bytes rls ++ [final]) acc = Ok (acc ++ map ref_line_entry rls).
Proof.
  induction rls as [|r rls IH]; intros acc Hall Hnd final Hfinal;
    cbn [map app parse_refs forallb] in *.
  - rewrite Hfinal, app_nil_r. reflexivity.
  - apply andb_true_iff in Hall as [Hr Hall]. rewrite (ref_item_line r Hr).
    cbn [mbind result_bind]. destruct (ref_line_entry r) as [k v] eqn:Ee. cbn [fst] in Hnd.
    rewrite dict_set_new.
    2:{ apply NoDup_app in Hnd as (_ & Hdis & _). intros Hin. apply (Hdis k Hin). left. }
    rewrite IH; [rewrite <- app_assoc; reflexivity|exact Hall| |exact Hfinal].
    rewrite map_app. cbn [map fst]. rewrite <- app_assoc. exact Hnd.
Qed.

(** X30: an advertisement made of a comment line, lines that name
    references, and a last line that names none, all ended by newlines but
    the last: when the names differ, [refs] holds one item for each
    reference line, in their order, the name with the id the line gives it
    (for a name that ends in [HEAD], the id without its first four bytes). *)
Theorem fetch_refs_advert comment rls final :
  (x0a ∉ comment) -> (x0a ∉ final) ->
  ref_item comment = Ok None -> ref_item final = Ok None ->
  forallb ref_line_ok rls = true ->
  NoDup (map (fun r => fst (ref_line_entry r)) rls) ->
  fetch_refs (comment ++ [x0a] ++ concat (map (fun r => ref_line_bytes r ++ [x0a]) rls)
              ++ final)
  = Ok (map ref_line_entry rls).
Proof.
  intros Hc Hf Hci Hfi Hall Hnd. unfold fetch_refs.
  replace (comment ++ [x0a] ++ concat (map (fun r => ref_line_bytes r ++ [x0a]) rls) ++ final)
    with (concat (map (fun l => l ++ [x0a]) (comment :: map ref_line_bytes rls)) ++ final).
  2:{ cbn [map concat]. rewrite map_map, <- !app_assoc. reflexivity. }
  rewrite split_all_lines; [|constructor; [exact Hc|]|exact Hf].
  - cbn [app parse_refs]. rewrite Hci. cbn [mbind result_bind].
    rewrite (parse_refs_lines rls [] Hall Hnd final Hfi). reflexivity.
  - apply Forall_forall. intros l Hl.
    apply list_elem_of_In, in_map_iff in Hl as (r & <- & Hin).
    rewrite forallb_forall in Hall. specialize (Hall r Hin). unfold ref_line_ok in Hall.
    rewrite !andb_true_iff in Hall. apply lacks_spec. tauto.
Qed.

Lemma fetch_refs_advert_witness :
  fetch_refs (bs "001e# service=git-upload-pack" ++ [x0a]
              ++ concat (map (fun r => ref_line_bytes r ++ [x0a]) main_advert) ++ bs "0000")
  = Ok main_refs.
Proof.
  refine (fetch_refs_advert (bs "001e# service=git-upload-pack") main_advert (bs "0000")
            _ _ eq_refl eq_refl eq_refl _).
  - apply (bool_decide_unpack _). vm_compute. exact I.
  - apply (bool_decide_unpack _). vm_compute. exact I.
  - apply (bool_decide_unpack _). vm_compute. exact I.
Defined.

(** ** Checkout of a whole tree *)

(** *** Simple names *)

Lemma simple_name_inv s :
  simple_name s = true ->
  components s = [s] /\ s <> ""%string /\ s <> "."%string /\ s <> ".."%string /\
  utf8_valid (encode s) = true /\ x00 ∉ encode s.
Proof.
  unfold simple_name. rewrite !andb_true_iff, !negb_true_iff.
  intros (((((Hc & He) & Hd) & Hdd) & Hu) & Hl).
  apply bool_decide_eq_true_1 in Hc.
  repeat split; try assumption; try (intros ->; discriminate).
  apply lacks_spec, Hl.
Qed.

Lemma simple_step s cur : simple_name s = true -> step cur s = cur ++ [s].
Proof.
  intros Hs. apply simple_name_inv in Hs as (_ & _ & Hd & Hdd & _).
  unfold step. destruct (String.eqb_spec s ".."); [contradiction|].
  destruct (String.eqb_spec s "."); [contradiction|]. reflexivity.
Qed.

Lemma simple_not_root s : simple_name s = true -> String.eqb s "/" = false.
Proof.
  intros Hs. apply simple_name_inv in Hs as (Hc & _).
  destruct (String.eqb_spec s "/") as [->|]; [discriminate Hc|reflexivity].
Qed.

Lemma simple_head s : simple_name s = true -> String.prefix "/" s = false.
Proof.
  intros Hs. apply simple_name_inv in Hs as (Hc & He & _).
  destruct s as [|c s]; [contradiction|]. apply prefix_slash.
  cbn [components] in Hc. destruct (Ascii.eqb c slash); [|reflexivity].
  injection Hc as Hc _. discriminate Hc.
Qed.

Lemma path_div_simple d s : simple_name s = true -> path_div d s = d ++ [s].
Proof.
  intros Hs. unfold path_div, parse_path. rewrite (simple_head s Hs).
  destruct (simple_name_inv s Hs) as (Hc & He & Hd & _). rewrite Hc.
  assert (Hp : is_part s = true).
  { unfold is_part. destruct (String.eqb_spec s ""); [contradiction|].
    destruct (String.eqb_spec s "."); [contradiction|]. reflexivity. }
  rewrite filter_cons, filter_nil. rewrite Hp. reflexivity.
Qed.

Lemma locate_child cwd d s : simple_name s = true -> locate cwd (d ++ [s]) = locate cwd d ++ [s].
Proof.
  intros Hs. destruct d as [|a d].
  - cbn [app locate]. rewrite (simple_not_root s Hs). cbn [fold_left]. apply simple_step, Hs.
  - rewrite locate_snoc by discriminate. apply simple_step, Hs.
Qed.

Lemma resolve_child cwd fs d s :
  simple_name s = true -> is_dir cwd fs d = true ->
  resolve cwd fs (d ++ [s]) = Ok (locate cwd d ++ [s]).
Proof.
  intros Hs Hd. apply is_dir_inv in Hd as (Hr & Hn). destruct d as [|a d].
  - cbn [app resolve locate] in *. rewrite (simple_not_root s Hs). cbn [walk].
    rewrite Hn. rewrite (simple_step s cwd Hs). reflexivity.
  - rewrite (resolve_snoc cwd fs (a :: d) s _ ltac:(discriminate) Hr Hn).
    rewrite (simple_step s _ Hs). reflexivity.
Qed.

Lemma below_child L name : below L name (L ++ [name]).
Proof. exists []. reflexivity. Qed.

Lemma below_deeper L name x k : below (L ++ [name]) x k -> below L name k.
Proof. intros (s & ->). exists (x :: s). rewrite <- app_assoc. reflexivity. Qed.

Lemma below_apart L name name' k : name <> name' -> below L name k -> below L name' k -> False.
Proof.
  intros Hne (s & ->) (s' & E). apply app_inv_head in E. injection E as E _. contradiction.
Qed.

Lemma below_not_self L name : ~ below L name L.
Proof.
  intros (s & E). apply (f_equal (@length _)) in E. rewrite length_app in E. cbn in E. lia.
Qed.

Lemma in_locations cwd (l : list path) k :
  k ∈ locate cwd <$> l <-> exists p, In p l /\ k = locate cwd p.
Proof.
  rewrite list_elem_of_fmap. split; intros (p & Hp & Hk); exists p.
  - apply list_elem_of_In in Hk. auto.
  - split; [exact Hk|]. apply list_elem_of_In. exact Hp.
Qed.

(** *** The shape of a tree *)

Lemma w_depth_child oid cs name c :
  In (name, c) cs -> (S (w_depth c) <= w_depth (WTree oid cs))%nat.
Proof.
  cbn [w_depth]. intros Hin. apply le_n_S. induction cs as [|nc cs IH]; [destruct Hin|].
  cbn [map fold_right]. destruct Hin as [->|Hin]; [cbn [snd]; lia|]. specialize (IH Hin). lia.
Qed.

Lemma w_wf_tree oid cs :
  w_wf (WTree oid cs) = true ->
  length oid = 20%nat /\
  (forall name c, In (name, c) cs -> simple_name name = true /\ w_wf c = true) /\
  NoDup (map fst cs).
Proof.
  cbn [w_wf w_oid]. rewrite !andb_true_iff, forallb_forall.
  intros (Hl & Hc & Hn). split; [apply Nat.eqb_eq, Hl|]. split.
  - intros name c Hin. specialize (Hc _ Hin). cbn [fst snd] in Hc.
    apply andb_true_iff in Hc. exact Hc.
  - apply bool_decide_eq_true_1 in Hn. exact Hn.
Qed.

Lemma w_wf_oid t : w_wf t = true -> length (w_oid t) = 20%nat.
Proof.
  destruct t; cbn [w_wf w_oid]; rewrite andb_true_iff; intros (Hl & _); apply Nat.eqb_eq, Hl.
Qed.

(** Every path of a tree that stands at the child [name] of [d] leads under
    that child. *)
Lemma w_paths_below cwd n : forall c d name,
  (w_depth c <= n)%nat -> w_wf c = true -> simple_name name = true ->
  (forall p, In p (w_dirs (d ++ [name]) c) -> below (locate cwd d) name (locate cwd p)) /\
  (forall pc, In pc (w_files (d ++ [name]) c) -> below (locate cwd d) name (locate cwd pc.1)).
Proof.
  induction n as [|n IH]; intros [oid content|oid cs] d name Hn Hwf Hs;
    try (cbn [w_depth] in Hn; lia).
  - split; [intros p []|]. intros pc [<-|[]]. cbn [fst]. rewrite locate_child by exact Hs.
    apply below_child.
  - split; [intros p []|]. intros pc [<-|[]]. cbn [fst]. rewrite locate_child by exact Hs.
    apply below_child.
  - destruct (w_wf_tree oid cs Hwf) as (_ & Hcs & _).
    assert (Hsub : forall x c, In (x, c) cs ->
      (forall p, In p (w_dirs ((d ++ [name]) ++ [x]) c) ->
                 below (locate cwd d) name (locate cwd p)) /\
      (forall pc, In pc (w_files ((d ++ [name]) ++ [x]) c) ->
                  below (locate cwd d) name (locate cwd pc.1))).
    { intros x c Hin. destruct (Hcs x c Hin) as (Hx & Hc).
      pose proof (w_depth_child oid cs x c Hin) as Hd.
      destruct (IH c (d ++ [name]) x ltac:(lia) Hc Hx) as (H1 & H2).
      rewrite (locate_child cwd d name Hs) in H1, H2.
      split; intros p Hp; eapply below_deeper; eauto. }
    split.
    + cbn [w_dirs]. intros p [<-|Hp].
      * rewrite locate_child by exact Hs. apply below_child.
      * apply in_flat_map in Hp as ([x c] & Hin & Hp). cbn [fst snd] in Hp.
        exact (proj1 (Hsub x c Hin) p Hp).
    + cbn [w_files]. intros pc Hp.
      apply in_flat_map in Hp as ([x c] & Hin & Hp). cbn [fst snd] in Hp.
      exact (proj2 (Hsub x c Hin) pc Hp).
Qed.

(** The paths of the children of a tree at [d] lead under [d], each under
    its own name. *)
Lemma w_child_below cwd d name c :
  w_wf c = true -> simple_name name = true ->
  (forall p, In p (w_dirs (d ++ [name]) c) -> below (locate cwd d) name (locate cwd p)) /\
  (forall pc, In pc (w_files (d ++ [name]) c) -> below (locate cwd d) name (locate cwd pc.1)).
Proof. intros. eapply (w_paths_below cwd (w_depth c)); auto. Qed.

Lemma w_data_cons nc cs : w_data (nc :: cs) = entry_bytes (w_entry nc) ++ w_data cs.
Proof. reflexivity. Qed.

(** *** What stays readable *)

Section Stable.
Context `{Zlib}.
Variable cwd : list string.

Lemma node_at_same (fs fs' : files) k : fs' !! k = fs !! k -> node_at fs' k = node_at fs k.
Proof. destruct k; cbn [node_at]; auto. Qed.

Lemma read_bytes_node fs p raw :
  read_bytes cwd fs p = Ok raw ->
  resolve cwd fs p = Ok (locate cwd p) /\ node_at fs (locate cwd p) = Some (File raw).
Proof.
  unfold read_bytes. destruct (resolve cwd fs p) as [k|e] eqn:E; [|discriminate].
  cbn [mbind result_bind]. apply resolve_locate in E as Hk. subst k.
  destruct (node_at fs _) as [[d|]|]; intros [=]. subst. auto.
Qed.

Lemma read_bytes_stable fs fs' p raw :
  kind_ext fs fs' -> fs' !! locate cwd p = fs !! locate cwd p ->
  read_bytes cwd fs p = Ok raw -> read_bytes cwd fs' p = Ok raw.
Proof.
  intros He Hk Hr. apply read_bytes_node in Hr as (Hres & Hn).
  unfold read_bytes. rewrite (resolve_mono cwd fs fs' p _ He Hres). cbn [mbind result_bind].
  rewrite (node_at_same fs fs' _ Hk), Hn. reflexivity.
Qed.

Lemma read_object_file sha parent fs r :
  read_object cwd sha parent fs = Ok r ->
  exists raw, read_bytes cwd fs (object_path parent sha) = Ok raw.
Proof.
  unfold read_object. destruct (read_bytes cwd fs (object_path parent sha)) as [raw|e];
    [eauto|discriminate].
Qed.

Lemma read_object_stable sha parent fs fs' r :
  kind_ext fs fs' ->
  fs' !! locate cwd (object_path parent sha) = fs !! locate cwd (object_path parent sha) ->
  read_object cwd sha parent fs = Ok r -> read_object cwd sha parent fs' = Ok r.
Proof.
  intros He Hk Hr. destruct (read_object_file _ _ _ _ Hr) as (raw & Hraw).
  rewrite <- Hr. apply read_object_bytes.
  rewrite Hraw. eapply read_bytes_stable; eassumption.
Qed.

(** *** Single steps of a checkout *)

Lemma checked_out_nothing fs : checked_out cwd fs fs [] [].
Proof. split; [apply kind_ext_refl|]. repeat split; auto. Qed.

Lemma checked_out_here fs d : is_dir cwd fs d = true -> checked_out cwd fs fs [d] [].
Proof. intros Hd. split; [apply kind_ext_refl|]. repeat split; auto. Qed.

Lemma checked_out_trans fs fs1 fs2 D1 F1 D2 F2 :
  checked_out cwd fs fs1 D1 F1 -> checked_out cwd fs1 fs2 D2 F2 ->
  (forall pc, In pc F1 -> locate cwd pc.1 ∉ locate cwd <$> (D2 ++ map fst F2)) ->
  checked_out cwd fs fs2 (D1 ++ D2) (F1 ++ F2).
Proof.
  intros (He1 & Hf1 & Hd1 & Hk1) (He2 & Hf2 & Hd2 & Hk2) Hap.
  split; [eapply kind_ext_trans; eassumption|]. split; [|split].
  - apply Forall_app. split; [|exact Hf2].
    rewrite List.Forall_forall in *. intros pc Hin.
    eapply read_bytes_stable; [exact He2|apply Hk2, Hap, Hin|apply Hf1, Hin].
  - apply Forall_app. split; [|exact Hd2].
    rewrite List.Forall_forall in *. intros p Hin. eapply is_dir_mono; [exact He2|auto].
  - intros k Hk. rewrite map_app, !fmap_app in Hk.
    rewrite !not_elem_of_app in Hk. destruct Hk as ((Ha & Hb) & (Hc & Hd)).
    rewrite Hk2, Hk1; [reflexivity| |]; rewrite fmap_app, not_elem_of_app; auto.
Qed.

Lemma mkdir_child fs d s :
  simple_name s = true -> is_dir cwd fs d = true ->
  (forall x, node_at fs (locate cwd d ++ [s]) <> Some (File x)) ->
  exists fs0, mkdir_parents cwd fs (d ++ [s]) = Ok fs0 /\
              checked_out cwd fs fs0 [d ++ [s]] [].
Proof.
  intros Hs Hd Hn. pose proof (resolve_child cwd fs d s Hs Hd) as Hres.
  destruct (node_at fs (locate cwd d ++ [s])) as [[x|]|] eqn:En.
  - destruct (Hn x). reflexivity.
  - assert (Hd' : is_dir cwd fs (d ++ [s]) = true).
    { unfold is_dir. rewrite Hres, En. reflexivity. }
    exists fs. split; [apply mkdir_parents_existing, Hd'|apply checked_out_here, Hd'].
  - assert (Hos : os_mkdir cwd fs (d ++ [s]) = Ok (<[locate cwd d ++ [s] := Dir]> fs)).
    { unfold os_mkdir. rewrite Hres. cbn [mbind result_bind]. rewrite En. reflexivity. }
    exists (<[locate cwd d ++ [s] := Dir]> fs). split.
    + unfold mkdir_parents. destruct (length (d ++ [s])); cbn [mkdir_loop]; rewrite Hos;
        reflexivity.
    + destruct (os_mkdir_post cwd _ _ _ Hos) as (_ & He & Hdir).
      split; [exact He|]. split; [constructor|]. split; [constructor; [exact Hdir|constructor]|].
      intros k Hk. apply lookup_insert_ne. intros <-. apply Hk.
      cbn [app map fmap list_fmap]. rewrite (locate_child cwd d s Hs). apply elem_of_cons. auto.
Qed.

Lemma write_child fs d s content :
  simple_name s = true -> is_dir cwd fs d = true ->
  node_at fs (locate cwd d ++ [s]) <> Some Dir ->
  exists fs1, write_bytes cwd fs (d ++ [s]) content = Ok fs1 /\
              checked_out cwd fs fs1 [] [(d ++ [s], content)].
Proof.
  intros Hs Hd Hn. pose proof (resolve_child cwd fs d s Hs Hd) as Hres.
  assert (Hw : write_bytes cwd fs (d ++ [s]) content
               = Ok (<[locate cwd d ++ [s] := File content]> fs)).
  { unfold write_bytes. rewrite Hres. cbn [mbind result_bind].
    destruct (node_at fs (locate cwd d ++ [s])) as [[x|]|]; auto. contradiction. }
  exists (<[locate cwd d ++ [s] := File content]> fs). split; [exact Hw|].
  split; [eapply write_bytes_kind_ext, Hw|]. split; [|split; [constructor|]].
  - constructor; [|constructor]. cbn [fst snd]. eapply write_bytes_read, Hw.
  - intros k Hk. apply lookup_insert_ne. intros <-. apply Hk.
    cbn [app map fmap list_fmap fst]. rewrite (locate_child cwd d s Hs). apply elem_of_cons. auto.
Qed.

(** *** The conditions of a checkout *)

Variable parent : path.

Lemma fits_lists_spec fs dirs files objects :
  fits_lists cwd parent fs dirs files objects = true <->
  (forall p, In p dirs -> forall x, node_at fs (locate cwd p) <> Some (File x)) /\
  (forall pc, In pc files -> node_at fs (locate cwd pc.1) <> Some Dir) /\
  (forall oc, In oc objects ->
     (exists t, read_object cwd (hex oc.1) parent fs = Ok (t, oc.2)) /\
     locate cwd (object_path parent (hex oc.1)) ∉ locate cwd <$> map fst files).
Proof.
  unfold fits_lists. rewrite !andb_true_iff, !forallb_forall. split.
  - intros ((Hd & Hf) & Ho). split; [|split].
    + intros p Hp x Hx. specialize (Hd p Hp). rewrite Hx in Hd. discriminate Hd.
    + intros pc Hp Hx. specialize (Hf pc Hp). rewrite Hx in Hf. discriminate Hf.
    + intros oc Hin. specialize (Ho oc Hin). apply andb_true_iff in Ho as (Hr & Hn).
      split; [|apply bool_decide_eq_true_1 in Hn; exact Hn].
      destruct (read_object cwd (hex oc.1) parent fs) as [[t data]|e]; [|discriminate Hr].
      apply bool_decide_eq_true_1 in Hr. subst data. eauto.
  - intros (Hd & Hf & Ho). split; [split|].
    + intros p Hp. specialize (Hd p Hp).
      destruct (node_at fs (locate cwd p)) as [[x|]|]; auto. destruct (Hd x). reflexivity.
    + intros pc Hp. specialize (Hf pc Hp).
      destruct (node_at fs (locate cwd pc.1)) as [[x|]|]; auto; contradiction.
    + intros oc Hin. destruct (Ho oc Hin) as ((t & Hr) & Hn). rewrite Hr.
      apply andb_true_iff. split; apply bool_decide_eq_true_2; auto.
Qed.

Lemma fits_lists_incl fs D F O D' F' O' :
  incl D' D -> incl F' F -> incl O' O ->
  fits_lists cwd parent fs D F O = true -> fits_lists cwd parent fs D' F' O' = true.
Proof.
  rewrite !fits_lists_spec. intros HD HF HO (Hd & Hf & Ho). split; [|split]; auto.
  intros oc Hin. destruct (Ho oc (HO _ Hin)) as (Hr & Hn). split; [exact Hr|].
  intros Hk. apply Hn. apply in_locations in Hk as (p & Hp & ->).
  apply in_locations. exists p. split; [|reflexivity].
  apply in_map_iff in Hp as (pc & <- & Hpc). apply in_map, HF, Hpc.
Qed.

(** The file of an object of the tree is at no location of the tree. *)
Lemma fits_object_apart fs D F O oc :
  fits_lists cwd parent fs D F O = true -> In oc O ->
  locate cwd (object_path parent (hex oc.1)) ∉ locate cwd <$> (D ++ map fst F).
Proof.
  rewrite fits_lists_spec. intros (Hd & _ & Ho) Hin. destruct (Ho oc Hin) as ((t & Hr) & Hn).
  rewrite fmap_app, not_elem_of_app. split; [|exact Hn].
  intros Hk. apply in_locations in Hk as (p & Hp & E).
  destruct (read_object_file _ _ _ _ Hr) as (raw & Hraw).
  apply read_bytes_node in Hraw as (_ & Hnode). rewrite E in Hnode.
  exact (Hd p Hp raw Hnode).
Qed.

Lemma fits_lists_transport fs fs1 D F O (K : list (list string)) :
  kind_ext fs fs1 -> (forall k, k ∉ K -> fs1 !! k = fs !! k) ->
  (forall p, In p D -> locate cwd p ∉ K) ->
  (forall pc, In pc F -> locate cwd pc.1 ∉ K) ->
  (forall oc, In oc O -> locate cwd (object_path parent (hex oc.1)) ∉ K) ->
  fits_lists cwd parent fs D F O = true -> fits_lists cwd parent fs1 D F O = true.
Proof.
  rewrite !fits_lists_spec. intros He Hk HD HF HO (Hd & Hf & Ho). split; [|split].
  - intros p Hp x. rewrite (node_at_same fs fs1 _ (Hk _ (HD p Hp))). auto.
  - intros pc Hp. rewrite (node_at_same fs fs1 _ (Hk _ (HF pc Hp))). auto.
  - intros oc Hin. destruct (Ho oc Hin) as ((t & Hr) & Hn). split; [|exact Hn].
    exists t. eapply read_object_stable; [exact He|apply Hk, HO, Hin|exact Hr].
Qed.

End Stable.

(** *** One round of the loop of [render_tree] *)

Section Rounds.
Context `{Zlib}.
Variable cwd : list string.

Lemma render_entries_tree rec n parent directory name oid rest fs :
  simple_name name = true -> length oid = 20%nat ->
  render_entries cwd rec (S n) parent directory (entry_bytes (Entry "40000" name oid) ++ rest) fs
  = '(fs1, w1) ← rec (directory ++ [name]) (hex oid) fs;
    '(fs2, w2) ← render_entries cwd rec n parent directory rest fs1;
    mret (fs2, w1 ++ w2).
Proof.
  intros Hs Hoid. destruct (simple_name_inv name Hs) as (_ & _ & _ & _ & Hu & H0).
  rewrite entry_bytes_parts. cbn [e_mode e_name e_oid]. rewrite <- !app_assoc.
  set (tail := encode name ++ (x00 :: oid) ++ rest).
  change (encode "40000" ++ (x20 :: encode name) ++ (x00 :: oid) ++ rest)
    with (x34 :: bs "0000" ++ x20 :: tail).
  cbn [render_entries].
  change (x34 :: bs "0000" ++ x20 :: tail) with (bs "40000" ++ x20 :: tail).
  rewrite split1_app by (apply (bool_decide_unpack _); vm_compute; exact I).
  cbn [unpack2 mbind result_bind]. subst tail.
  change ((x00 :: oid) ++ rest) with (x00 :: oid ++ rest).
  rewrite split1_app by exact H0. cbn [unpack2 mbind result_bind].
  rewrite take_app_length', drop_app_length' by (symmetry; exact Hoid).
  rewrite decide_True by reflexivity.
  rewrite (decode_encode name Hu). cbn [mbind result_bind].
  rewrite (path_div_simple directory name Hs). reflexivity.
Qed.

Lemma render_entries_blob rec n parent directory name oid rest fs :
  simple_name name = true -> length oid = 20%nat ->
  render_entries cwd rec (S n) parent directory (entry_bytes (Entry "100644" name oid) ++ rest) fs
  = '(_, content) ← read_object cwd (hex oid) parent fs;
    fs1 ← write_bytes cwd fs (directory ++ [name]) content;
    '(fs2, w2) ← render_entries cwd rec n parent directory rest fs1;
    mret (fs2, (directory ++ [name]) :: w2).
Proof.
  intros Hs Hoid. destruct (simple_name_inv name Hs) as (_ & _ & _ & _ & Hu & H0).
  rewrite entry_bytes_parts. cbn [e_mode e_name e_oid]. rewrite <- !app_assoc.
  set (tail := encode name ++ (x00 :: oid) ++ rest).
  change (encode "100644" ++ (x20 :: encode name) ++ (x00 :: oid) ++ rest)
    with (x31 :: bs "00644" ++ x20 :: tail).
  cbn [render_entries].
  change (x31 :: bs "00644" ++ x20 :: tail) with (bs "100644" ++ x20 :: tail).
  rewrite split1_app by (apply (bool_decide_unpack _); vm_compute; exact I).
  cbn [unpack2 mbind result_bind]. subst tail.
  change ((x00 :: oid) ++ rest) with (x00 :: oid ++ rest).
  rewrite split1_app by exact H0. cbn [unpack2 mbind result_bind].
  rewrite take_app_length', drop_app_length' by (symmetry; exact Hoid).
  rewrite decide_False by (vm_compute; discriminate).
  rewrite decide_True by reflexivity.
  destruct (read_object cwd (hex oid) parent fs) as [[t content]|e]; [|reflexivity].
  cbn [mbind result_bind]. rewrite (decode_encode name Hu). cbn [mbind result_bind].
  rewrite (path_div_simple directory name Hs). reflexivity.
Qed.

End Rounds.

(** *** The whole tree *)

Section WholeTree.
Context `{Zlib}.
Variable cwd : list string.
Variable parent : path.

Lemma child_below d name c k :
  simple_name name = true -> w_wf c = true ->
  k ∈ locate cwd <$> (w_dirs (d ++ [name]) c ++ map fst (w_files (d ++ [name]) c)) ->
  below (locate cwd d) name k.
Proof.
  intros Hs Hwf Hk. destruct (w_child_below cwd d name c Hwf Hs) as (Hd & Hf).
  apply in_locations in Hk as (p & Hp & ->). apply in_app_or in Hp as [Hp|Hp]; [auto|].
  apply in_map_iff in Hp as (pc & <- & Hpc). auto.
Qed.

Lemma children_below d cs k :
  (forall name c, In (name, c) cs -> simple_name name = true /\ w_wf c = true) ->
  k ∈ locate cwd <$> (flat_map (fun nc => w_dirs (d ++ [nc.1]) nc.2) cs
                      ++ map fst (flat_map (fun nc => w_files (d ++ [nc.1]) nc.2) cs)) ->
  exists name, In name (map fst cs) /\ below (locate cwd d) name k.
Proof.
  intros Hcs Hk. apply in_locations in Hk as (p & Hp & ->).
  assert (Hin : exists name c, In (name, c) cs /\
            (In p (w_dirs (d ++ [name]) c) \/ In p (map fst (w_files (d ++ [name]) c)))).
  { apply in_app_or in Hp as [Hp|Hp].
    - apply in_flat_map in Hp as ([name c] & Hin & Hp'). eauto.
    - apply in_map_iff in Hp as (pc & <- & Hpc).
      apply in_flat_map in Hpc as ([name c] & Hin & Hp'). exists name, c.
      split; [exact Hin|]. right. apply in_map. exact Hp'. }
  destruct Hin as (name & c & Hin & Hp'). destruct (Hcs name c Hin) as (Hs & Hwf).
  exists name. split; [apply (in_map fst _ _ Hin)|].
  apply (child_below d name c _ Hs Hwf). apply in_locations. exists p.
  split; [|reflexivity]. apply in_or_app. exact Hp'.
Qed.

(** The round of the loop for one child, a blob or a tree, when the
    recursive call does for the trees of depth [m] what is to be shown. *)
Lemma render_child rec m d name c fs :
  (forall oid cs d' fs fs0,
     w_wf (WTree oid cs) = true -> (w_depth (WTree oid cs) <= m)%nat ->
     mkdir_parents cwd fs d' = Ok fs0 -> checked_out cwd fs fs0 [d'] [] ->
     fits cwd parent fs d' (WTree oid cs) = true ->
     exists fs', rec d' (hex oid) fs = Ok (fs', map fst (w_files d' (WTree oid cs))) /\
                 checked_out cwd fs fs' (w_dirs d' (WTree oid cs)) (w_files d' (WTree oid cs))) ->
  simple_name name = true -> w_wf c = true -> (w_depth c <= m)%nat ->
  is_dir cwd fs d = true ->
  fits cwd parent fs (d ++ [name]) c = true ->
  exists fs1,
    checked_out cwd fs fs1 (w_dirs (d ++ [name]) c) (w_files (d ++ [name]) c) /\
    forall n rest,
      render_entries cwd rec (S n) parent d (entry_bytes (w_entry (name, c)) ++ rest) fs
      = '(fs2, w2) ← render_entries cwd rec n parent d rest fs1;
        mret (fs2, map fst (w_files (d ++ [name]) c) ++ w2).
Proof.
  intros Hrec Hs Hwf Hdep Hdir Hfit. pose proof (w_wf_oid c Hwf) as Hoid.
  pose proof Hfit as Hfit0. unfold fits in Hfit0.
  apply fits_lists_spec in Hfit0 as (Hd & Hf & Ho).
  destruct c as [oid content|oid cs]; cbn [w_oid] in Hoid.
  - specialize (Hf (d ++ [name], content) (or_introl eq_refl)). cbn [fst] in Hf.
    rewrite (locate_child cwd d name Hs) in Hf.
    destruct (Ho (oid, content) (or_introl eq_refl)) as ((t & Hr) & _). cbn [fst snd] in Hr.
    destruct (write_child cwd fs d name content Hs Hdir Hf) as (fs1 & Hw & Hc).
    exists fs1. split; [exact Hc|]. intros n rest.
    unfold w_entry. cbn [fst snd w_mode w_oid].
    rewrite (render_entries_blob cwd rec n parent d name oid rest fs Hs Hoid).
    rewrite Hr. cbn [mbind result_bind]. rewrite Hw. reflexivity.
  - assert (Hn : forall x, node_at fs (locate cwd d ++ [name]) <> Some (File x)).
    { intros x. rewrite <- (locate_child cwd d name Hs). apply Hd. left. reflexivity. }
    destruct (mkdir_child cwd fs d name Hs Hdir Hn) as (fs0 & Hm & Hc0).
    destruct (Hrec oid cs (d ++ [name]) fs fs0 Hwf Hdep Hm Hc0 Hfit) as (fs1 & Hr & Hc).
    exists fs1. split; [exact Hc|]. intros n rest.
    unfold w_entry. cbn [fst snd w_mode w_oid].
    rewrite (render_entries_tree cwd rec n parent d name oid rest fs Hs Hoid).
    rewrite Hr. reflexivity.
Qed.

(** The loop over the entries of a tree. *)
Lemma render_children rec m d :
  (forall oid cs d' fs fs0,
     w_wf (WTree oid cs) = true -> (w_depth (WTree oid cs) <= m)%nat ->
     mkdir_parents cwd fs d' = Ok fs0 -> checked_out cwd fs fs0 [d'] [] ->
     fits cwd parent fs d' (WTree oid cs) = true ->
     exists fs', rec d' (hex oid) fs = Ok (fs', map fst (w_files d' (WTree oid cs))) /\
                 checked_out cwd fs fs' (w_dirs d' (WTree oid cs)) (w_files d' (WTree oid cs))) ->
  forall cs fuel fs,
    (forall name c, In (name, c) cs ->
       simple_name name = true /\ w_wf c = true /\ (w_depth c <= m)%nat) ->
    NoDup (map fst cs) ->
    (length (w_data cs) <= fuel)%nat ->
    is_dir cwd fs d = true ->
    fits_lists cwd parent fs (flat_map (fun nc => w_dirs (d ++ [nc.1]) nc.2) cs)
      (flat_map (fun nc => w_files (d ++ [nc.1]) nc.2) cs)
      (flat_map (fun nc => w_objects nc.2) cs) = true ->
    exists fs',
      render_entries cwd rec fuel parent d (w_data cs) fs
      = Ok (fs', map fst (flat_map (fun nc => w_files (d ++ [nc.1]) nc.2) cs)) /\
      checked_out cwd fs fs' (flat_map (fun nc => w_dirs (d ++ [nc.1]) nc.2) cs)
        (flat_map (fun nc => w_files (d ++ [nc.1]) nc.2) cs).
Proof.
  intros Hrec. induction cs as [|[name c] cs IH]; intros fuel fs Hcs Hnd Hfuel Hdir Hfit.
  - exists fs. split; [destruct fuel; reflexivity|apply checked_out_nothing].
  - cbn [flat_map fst snd map] in *. rewrite w_data_cons in *.
    destruct (Hcs name c (or_introl eq_refl)) as (Hs & Hwf & Hdep).
    apply NoDup_cons in Hnd as (Hfresh & Hnd).
    assert (Hcs' : forall x c', In (x, c') cs -> simple_name x = true /\ w_wf c' = true).
    { intros x c' Hin. destruct (Hcs x c' (or_intror Hin)) as (? & ? & _). auto. }
    assert (Hapart : forall k,
      k ∈ locate cwd <$> (w_dirs (d ++ [name]) c ++ map fst (w_files (d ++ [name]) c)) ->
      k ∉ locate cwd <$> (flat_map (fun nc => w_dirs (d ++ [nc.1]) nc.2) cs
                          ++ map fst (flat_map (fun nc => w_files (d ++ [nc.1]) nc.2) cs))).
    { intros k Hk Hk'. apply (child_below d name c k Hs Hwf) in Hk.
      apply (children_below d cs k Hcs') in Hk' as (x & Hx & Hk').
      apply (below_apart (locate cwd d) name x k); [|exact Hk|exact Hk'].
      intros <-. apply Hfresh, list_elem_of_In, Hx. }
    assert (Hfit1 : fits cwd parent fs (d ++ [name]) c = true).
    { unfold fits. revert Hfit. apply fits_lists_incl; apply incl_appl, incl_refl. }
    destruct (render_child rec m d name c fs Hrec Hs Hwf Hdep Hdir Hfit1) as (fs1 & Hc1 & Hstep).
    assert (Hfit' : fits_lists cwd parent fs1
              (flat_map (fun nc => w_dirs (d ++ [nc.1]) nc.2) cs)
              (flat_map (fun nc => w_files (d ++ [nc.1]) nc.2) cs)
              (flat_map (fun nc => w_objects nc.2) cs) = true).
    { destruct Hc1 as (He1 & _ & _ & Hk1).
      apply (fits_lists_transport cwd parent fs fs1 _ _ _ _ He1 Hk1).
      - intros p Hp Hk. apply (Hapart _ Hk). apply in_locations. exists p.
        split; [apply in_or_app; auto|reflexivity].
      - intros pc Hp Hk. apply (Hapart _ Hk). apply in_locations. exists pc.1.
        split; [apply in_or_app; right; apply in_map, Hp|reflexivity].
      - intros oc Hin Hk.
        apply (fits_object_apart cwd parent fs _ _ _ oc Hfit (in_or_app _ _ _ (or_intror Hin))).
        apply in_locations in Hk as (p & Hp & ->). apply in_locations. exists p.
        split; [|reflexivity]. rewrite map_app.
        apply in_app_or in Hp as [Hp|Hp]; apply in_or_app; [left|right];
          apply in_or_app; left; exact Hp.
      - revert Hfit. apply fits_lists_incl; apply incl_appr, incl_refl. }
    pose proof (entry_bytes_length (w_entry (name, c))) as Hlen.
    rewrite length_app in Hfuel. destruct fuel as [|n]; [lia|].
    destruct (IH n fs1) as (fs' & Hr & Hc').
    + intros x c' Hin. apply Hcs. right. exact Hin.
    + exact Hnd.
    + lia.
    + eapply is_dir_mono; [apply Hc1|exact Hdir].
    + exact Hfit'.
    + exists fs'. split.
      * rewrite Hstep, Hr. cbn [mbind result_bind mret result_ret]. rewrite map_app. reflexivity.
      * apply (checked_out_trans cwd fs fs1 fs' _ _ _ _ Hc1 Hc'). intros pc Hp.
        apply Hapart. apply in_locations. exists pc.1.
        split; [apply in_or_app; right; apply in_map, Hp|reflexivity].
Qed.

(** What follows the [mkdir] of [render_tree]: the object is read and its
    entries are rendered. *)
Lemma render_body m d oid cs fs :
  (forall oid cs d' fs fs0,
     w_wf (WTree oid cs) = true -> (w_depth (WTree oid cs) <= m)%nat ->
     mkdir_parents cwd fs d' = Ok fs0 -> checked_out cwd fs fs0 [d'] [] ->
     fits cwd parent fs d' (WTree oid cs) = true ->
     exists fs', render_tree_log cwd m parent d' (hex oid) fs
                 = Ok (fs', map fst (w_files d' (WTree oid cs))) /\
                 checked_out cwd fs fs' (w_dirs d' (WTree oid cs)) (w_files d' (WTree oid cs))) ->
  w_wf (WTree oid cs) = true -> (w_depth (WTree oid cs) <= S m)%nat ->
  is_dir cwd fs d = true ->
  fits_lists cwd parent fs (flat_map (fun nc => w_dirs (d ++ [nc.1]) nc.2) cs)
    (w_files d (WTree oid cs)) (w_objects (WTree oid cs)) = true ->
  exists fs',
    ('(_, tree_data) ← read_object cwd (hex oid) parent fs;
     render_entries cwd (render_tree_log cwd m parent) (length tree_data) parent d tree_data fs)
    = Ok (fs', map fst (w_files d (WTree oid cs))) /\
    checked_out cwd fs fs' (flat_map (fun nc => w_dirs (d ++ [nc.1]) nc.2) cs)
      (w_files d (WTree oid cs)).
Proof.
  intros Hrec Hwf Hdep Hdir Hfit. destruct (w_wf_tree oid cs Hwf) as (_ & Hcs & Hnd).
  pose proof Hfit as Hfit0. apply fits_lists_spec in Hfit0 as (_ & _ & Ho).
  destruct (Ho (oid, w_data cs) (or_introl eq_refl)) as ((t & Hr) & _). cbn [fst snd] in Hr.
  rewrite Hr. cbn [mbind result_bind w_files].
  apply (render_children (render_tree_log cwd m parent) m d Hrec cs); auto.
  - intros name c Hin. destruct (Hcs name c Hin) as (Hs & Hc).
    pose proof (w_depth_child oid cs name c Hin). repeat split; auto. lia.
  - revert Hfit. apply fits_lists_incl; [apply incl_refl|apply incl_refl|apply incl_tl, incl_refl].
Qed.

(** [render_tree] on a directory that its [mkdir] leaves as a directory. *)
Lemma render_subtree : forall m oid cs d fs fs0,
  w_wf (WTree oid cs) = true -> (w_depth (WTree oid cs) <= m)%nat ->
  mkdir_parents cwd fs d = Ok fs0 -> checked_out cwd fs fs0 [d] [] ->
  fits cwd parent fs d (WTree oid cs) = true ->
  exists fs', render_tree_log cwd m parent d (hex oid) fs
              = Ok (fs', map fst (w_files d (WTree oid cs))) /\
              checked_out cwd fs fs' (w_dirs d (WTree oid cs)) (w_files d (WTree oid cs)).
Proof.
  induction m as [|m IH]; intros oid cs d fs fs0 Hwf Hdep Hm Hc0 Hfit;
    [cbn [w_depth] in Hdep; lia|].
  destruct (w_wf_tree oid cs Hwf) as (_ & Hcs & _).
  assert (Hfit0 : fits_lists cwd parent fs0 (flat_map (fun nc => w_dirs (d ++ [nc.1]) nc.2) cs)
            (w_files d (WTree oid cs)) (w_objects (WTree oid cs)) = true).
  { destruct Hc0 as (He0 & _ & _ & Hk0). unfold fits in Hfit. cbn [w_dirs] in Hfit.
    apply (fits_lists_transport cwd parent fs fs0 _ _ _ _ He0 Hk0).
    - intros p Hp Hk. apply list_elem_of_singleton in Hk.
      destruct (children_below d cs (locate cwd p)) as (x & _ & Hx).
      + intros name c Hin. apply Hcs, Hin.
      + apply in_locations. exists p. split; [apply in_or_app; auto|reflexivity].
      + rewrite Hk in Hx. exact (below_not_self _ _ Hx).
    - intros pc Hp Hk. apply list_elem_of_singleton in Hk.
      destruct (children_below d cs (locate cwd pc.1)) as (x & _ & Hx).
      + intros name c Hin. apply Hcs, Hin.
      + apply in_locations. exists pc.1.
        split; [apply in_or_app; right; apply in_map, Hp|reflexivity].
      + rewrite Hk in Hx. exact (below_not_self _ _ Hx).
    - intros oc Hin Hk. apply list_elem_of_singleton in Hk.
      apply (fits_object_apart cwd parent fs _ _ _ oc Hfit Hin).
      apply in_locations. exists d. split; [left; reflexivity|exact Hk].
    - revert Hfit. apply fits_lists_incl; [apply incl_tl|..]; apply incl_refl. }
  assert (Hdir : is_dir cwd fs0 d = true).
  { destruct Hc0 as (_ & _ & Hd & _). inversion Hd; assumption. }
  destruct (render_body m d oid cs fs0 IH Hwf Hdep Hdir Hfit0) as (fs' & Hr & Hc).
  exists fs'. split.
  - cbn [render_tree_log]. rewrite Hm. exact Hr.
  - exact (checked_out_trans cwd fs fs0 fs' [d] [] _ _ Hc0 Hc (fun pc (Hp : In pc []) =>
             match Hp with end)).
Qed.

End WholeTree.

(** C10: [render_tree] on a directory that exists, for a tree whose objects
    are in the store, when no regular file stands where the tree has a
    directory and no directory where it has a file (every location that
    the tree names may exist already, at any depth, or not): the run
    succeeds; it writes the files of the tree, those of its subdirectories
    included, in the order of the entries; afterwards every file of the
    tree holds the content of its blob, whatever it held before, every
    directory of the tree is a directory, no node has changed its kind, and
    every location that the tree does not name holds what it held. *)
Theorem render_tree_over_existing `{Zlib} cwd fuel parent directory oid children fs :
  w_wf (WTree oid children) = true ->
  (w_depth (WTree oid children) <= fuel)%nat ->
  is_dir cwd fs directory = true ->
  fits cwd parent fs directory (WTree oid children) = true ->
  exists fs',
    render_tree cwd fuel parent directory (hex oid) fs = Ok fs' /\
    render_tree_log cwd fuel parent directory (hex oid) fs
    = Ok (fs', map fst (w_files directory (WTree oid children))) /\
    checked_out cwd fs fs' (w_dirs directory (WTree oid children))
      (w_files directory (WTree oid children)).
Proof.
  intros Hwf Hdep Hdir Hfit. destruct fuel as [|m]; [cbn [w_depth] in Hdep; lia|].
  assert (Hfit0 : fits_lists cwd parent fs
            (flat_map (fun nc => w_dirs (directory ++ [nc.1]) nc.2) children)
            (w_files directory (WTree oid children)) (w_objects (WTree oid children)) = true).
  { revert Hfit. unfold fits. cbn [w_dirs].
    apply fits_lists_incl; [apply incl_tl|..]; apply incl_refl. }
  destruct (render_body cwd parent m directory oid children fs (render_subtree cwd parent m)
              Hwf Hdep Hdir Hfit0) as (fs' & Hr & Hc).
  assert (Hlog : render_tree_log cwd (S m) parent directory (hex oid) fs
                 = Ok (fs', map fst (w_files directory (WTree oid children)))).
  { cbn [render_tree_log]. rewrite (mkdir_parents_existing cwd fs directory Hdir). exact Hr. }
  exists fs'. split; [unfold render_tree; rewrite Hlog; reflexivity|]. split; [exact Hlog|].
  apply (checked_out_trans cwd fs fs fs' [directory] [] _ _ (checked_out_here cwd fs _ Hdir) Hc).
  intros pc [].
Qed.

Lemma render_tree_over_existing_witness :
  w_wf project_wtree = true /\
  (w_depth project_wtree <= 2)%nat /\
  is_dir repo project_repo (getcwd repo) = true /\
  fits repo (getcwd repo) project_repo (getcwd repo) project_wtree = true /\
  is_dir repo project_repo (getcwd repo ++ ["src"%string]) = true /\
  read_bytes repo project_repo (getcwd repo ++ ["src"; "main.py"]%string) = Ok (bs "old") /\
  exists fs',
    render_tree repo 2 (getcwd repo) (getcwd repo) (hex (w_oid project_wtree)) project_repo
    = Ok fs' /\
    render_tree_log repo 2 (getcwd repo) (getcwd repo) (hex (w_oid project_wtree)) project_repo
    = Ok (fs', map fst (w_files (getcwd repo) project_wtree)) /\
    checked_out repo project_repo fs' (w_dirs (getcwd repo) project_wtree)
      (w_files (getcwd repo) project_wtree).
Proof.
  assert (Hwf : w_wf project_wtree = true) by (vm_compute; reflexivity).
  assert (Hdep : (w_depth project_wtree <= 2)%nat) by (cbn; lia).
  assert (Hdir : is_dir repo project_repo (getcwd repo) = true) by (vm_compute; reflexivity).
  assert (Hfit : fits repo (getcwd repo) project_repo (getcwd repo) project_wtree = true)
    by (vm_compute; reflexivity).
  split; [exact Hwf|]. split; [exact Hdep|]. split; [exact Hdir|]. split; [exact Hfit|].
  split; [vm_compute; reflexivity|]. split; [vm_compute; reflexivity|].
  exact (render_tree_over_existing repo 2 (getcwd repo) (getcwd repo) _ project_children
           project_repo Hwf Hdep Hdir Hfit).
Defined.

(** The run of the example writes [README] and [src/main.py]; [src/todo]
    and [notes] keep their contents. *)
Example checkout_project :
  map fst (w_files (getcwd repo) project_wtree)
  = [getcwd repo ++ ["README"%string]; getcwd repo ++ ["src"; "main.py"]%string] /\
  (fs' ← render_tree repo 2 (getcwd repo) (getcwd repo) (hex (w_oid project_wtree))
          project_repo;
   read_bytes repo fs' (getcwd repo ++ ["src"; "main.py"]%string)) = Ok main_py_blob /\
  (fs' ← render_tree repo 2 (getcwd repo) (getcwd repo) (hex (w_oid project_wtree))
          project_repo;
   read_bytes repo fs' (getcwd repo ++ ["src"; "todo"]%string)) = Ok (bs "later") /\
  (fs' ← render_tree repo 2 (getcwd repo) (getcwd repo) (hex (w_oid project_wtree))
          project_repo;
   read_bytes repo fs' (getcwd repo ++ ["notes"%string])) = Ok (bs "keep").
Proof. repeat split; vm_compute; reflexivity. Qed.
